(** * The sporadic-server refill queue of the seL4 MCS kernel

    A shallow embedding of [include/kernel/sporadic.h] and of the refill
    engine ([refill_new], [refill_update], [refill_budget_check],
    [refill_unblock_check] and their helpers), followed by the properties
    of the engine.

    Conventions of the embedding:
    - [ticks_t] is [uint64_t]; [word_t] is taken at 64 bits (the 64-bit
      targets).  Both are modelled as [Z] and every arithmetic operation of
      the C code is written with its wrap-around ([wadd], [wsub], [wmul]).
    - The refill buffer that follows the scheduling context in memory
      ([REFILL_BUFFER]) is a total map from indices to refills.
    - The embedding is that of the release, uniprocessor build: [assert]s
      are compiled out and appear here only as comments or as hypotheses of
      theorems; [NODE_STATE_ON_CORE (ksCurTime, core)] is [ksCurTime].
    - [getKernelWcetTicks ()], [CONFIG_KERNEL_WCET_SCALE] and [isRoundRobin]
      are defined outside the engine and are parameters here. *)

From Stdlib Require Import ZArith List Lia Bool.
Import ListNotations.
Local Open Scope Z_scope.

(** ** Machine arithmetic *)

Definition modulus : Z := 2 ^ 64.

Definition wrap (x : Z) : Z := x mod modulus.
Definition wadd (a b : Z) : Z := wrap (a + b).
Definition wsub (a b : Z) : Z := wrap (a - b).
Definition wmul (a b : Z) : Z := wrap (a * b).

(** A value of type [ticks_t] or [word_t]. *)
Definition is_u64 (x : Z) : Prop := 0 <= x < modulus.

(** ** Data model *)

Record refill_t : Type := mk_refill { rTime : Z; rAmount : Z }.

Record sched_context_t : Type := mk_sc {
  scPeriod : Z;
  scBudget : Z;
  scRefillMax : Z;
  scRefillHead : Z;
  scRefillCount : Z;
  scRefills : Z -> refill_t   (* REFILL_BUFFER (sc) *)
}.

(** The part of the node state that the engine reads and writes. *)
Record node_state : Type := mk_ns { ksCurTime : Z; ksReprogram : bool }.

(** Field assignments. *)
Definition set_scPeriod (sc : sched_context_t) (v : Z) : sched_context_t :=
  mk_sc v (scBudget sc) (scRefillMax sc) (scRefillHead sc) (scRefillCount sc) (scRefills sc).
Definition set_scBudget (sc : sched_context_t) (v : Z) : sched_context_t :=
  mk_sc (scPeriod sc) v (scRefillMax sc) (scRefillHead sc) (scRefillCount sc) (scRefills sc).
Definition set_scRefillMax (sc : sched_context_t) (v : Z) : sched_context_t :=
  mk_sc (scPeriod sc) (scBudget sc) v (scRefillHead sc) (scRefillCount sc) (scRefills sc).
Definition set_scRefillHead (sc : sched_context_t) (v : Z) : sched_context_t :=
  mk_sc (scPeriod sc) (scBudget sc) (scRefillMax sc) v (scRefillCount sc) (scRefills sc).
Definition set_scRefillCount (sc : sched_context_t) (v : Z) : sched_context_t :=
  mk_sc (scPeriod sc) (scBudget sc) (scRefillMax sc) (scRefillHead sc) v (scRefills sc).

(** [REFILL_INDEX (sc, index)] as an rvalue and as an lvalue. *)
Definition REFILL_INDEX (sc : sched_context_t) (index : Z) : refill_t :=
  scRefills sc index.
Definition set_REFILL_INDEX (sc : sched_context_t) (index : Z) (r : refill_t)
  : sched_context_t :=
  mk_sc (scPeriod sc) (scBudget sc) (scRefillMax sc) (scRefillHead sc)
        (scRefillCount sc)
        (fun i => if i =? index then r else scRefills sc i).
Definition set_rTime (sc : sched_context_t) (index : Z) (v : Z) : sched_context_t :=
  set_REFILL_INDEX sc index (mk_refill v (rAmount (REFILL_INDEX sc index))).
Definition set_rAmount (sc : sched_context_t) (index : Z) (v : Z) : sched_context_t :=
  set_REFILL_INDEX sc index (mk_refill (rTime (REFILL_INDEX sc index)) v).

(** ** Ring-buffer primitives ([sporadic.h]) *)

Definition refill_size (sc : sched_context_t) : Z := scRefillCount sc.

Definition refill_full (sc : sched_context_t) : bool :=
  scRefillCount sc =? scRefillMax sc.

Definition refill_empty (sc : sched_context_t) : bool :=
  scRefillCount sc =? 0.

Definition refill_tail_index (sc : sched_context_t) : Z :=
  (* assert (scRefillHead <= scRefillMax); assert (scRefillCount <= scRefillMax);
     assert (scRefillCount >= 1); *)
  let index := wsub (wadd (scRefillHead sc) (scRefillCount sc)) 1 in
  if scRefillMax sc <=? index then wsub index (scRefillMax sc) else index.

Definition REFILL_HEAD (sc : sched_context_t) : refill_t :=
  REFILL_INDEX sc (scRefillHead sc).
Definition REFILL_TAIL (sc : sched_context_t) : refill_t :=
  REFILL_INDEX sc (refill_tail_index sc).

Definition sc_active (sc : sched_context_t) : bool := 0 <? scRefillMax sc.

(** return the index of the next item in the refill queue *)
Definition refill_next (sc : sched_context_t) (index : Z) : Z :=
  if index =? wsub (scRefillMax sc) 1 then 0 else wadd index 1.

(** pop head of refill queue *)
Definition refill_pop_head (sc : sched_context_t) : refill_t * sched_context_t :=
  (* assert (refill_size (sc) > 0); *)
  let refill := REFILL_HEAD sc in
  let sc := set_scRefillHead sc (refill_next sc (scRefillHead sc)) in
  let sc := set_scRefillCount sc (wsub (scRefillCount sc) 1) in
  (refill, sc).

(** add item to tail of refill queue *)
Definition refill_add_tail (sc : sched_context_t) (refill : refill_t)
  : sched_context_t :=
  (* assert (refill_size (sc) < sc->scRefillMax); *)
  let sc := set_scRefillCount sc (wadd (scRefillCount sc) 1) in
  set_REFILL_INDEX sc (refill_tail_index sc) refill.

(** compute the sum of a refill queue: the loop
    [while (seen < sc->scRefillCount)], by recursion on the number of
    iterations left. *)
Fixpoint refill_sum_loop (sc : sched_context_t) (left : nat) (current sum : Z) : Z :=
  match left with
  | O => sum
  | S left' =>
      refill_sum_loop sc left' (refill_next sc current)
                      (wadd sum (rAmount (REFILL_INDEX sc current)))
  end.

Definition refill_sum (sc : sched_context_t) : Z :=
  refill_sum_loop sc (Z.to_nat (scRefillCount sc)) (scRefillHead sc) 0.

(** ** The debug invariants *)

(** Each refill ends before or at the time the subsequent refill starts.
    The loop starts at [seen = 1]. *)
Fixpoint refill_ordered_disjoint_loop (sc : sched_context_t) (left : nat)
         (current next : Z) : bool :=
  match left with
  | O => true
  | S left' =>
      if negb (wadd (rTime (REFILL_INDEX sc current)) (rAmount (REFILL_INDEX sc current))
               <=? rTime (REFILL_INDEX sc next))
      then false
      else refill_ordered_disjoint_loop sc left' next (refill_next sc next)
  end.

Definition refill_ordered_disjoint (sc : sched_context_t) : bool :=
  refill_ordered_disjoint_loop sc (Z.to_nat (scRefillCount sc - 1))
    (scRefillHead sc) (refill_next sc (scRefillHead sc)).

Section Engine.

(** [getKernelWcetTicks ()] and [CONFIG_KERNEL_WCET_SCALE]. *)
Variable getKernelWcetTicks : Z.
Variable CONFIG_KERNEL_WCET_SCALE : Z.
(** The round-robin test of the sibling policy. *)
Variable isRoundRobin : sched_context_t -> bool.

Definition MIN_BUDGET : Z :=
  wmul (wmul 2 getKernelWcetTicks) CONFIG_KERNEL_WCET_SCALE.
Definition MIN_SC_BUDGET : Z := wmul 2 MIN_BUDGET.

(** Each refill has at least MIN_BUDGET in its rAmount. *)
Fixpoint refill_at_least_min_budget_loop (sc : sched_context_t) (left : nat)
         (current : Z) : bool :=
  match left with
  | O => true
  | S left' =>
      if negb (MIN_BUDGET <=? rAmount (REFILL_INDEX sc current))
      then false
      else refill_at_least_min_budget_loop sc left' (refill_next sc current)
  end.

Definition refill_at_least_min_budget (sc : sched_context_t) : bool :=
  refill_at_least_min_budget_loop sc (Z.to_nat (scRefillCount sc)) (scRefillHead sc).

(** The refills of a SC sum to exactly its budget. *)
Definition refill_sum_to_budget (sc : sched_context_t) : bool :=
  refill_sum sc =? scBudget sc.

(** All refills including refill amount occur within the window of a
    single period. *)
Definition refill_all_within_period (sc : sched_context_t) : bool :=
  wsub (wadd (rTime (REFILL_TAIL sc)) (rAmount (REFILL_TAIL sc)))
       (rTime (REFILL_HEAD sc))
  <=? scPeriod sc.

(** The conjunction asserted by [sched_invariants]. *)
Definition sched_invariants (sc : sched_context_t) : bool :=
  negb (refill_empty sc)
  && (MIN_SC_BUDGET <=? scBudget sc)
  && refill_ordered_disjoint sc
  && refill_at_least_min_budget sc
  && refill_all_within_period sc
  && refill_sum_to_budget sc.

(** ** Queries *)

(** Return the amount of budget this scheduling context has available if
    usage is charged to it. *)
Definition refill_capacity (sc : sched_context_t) (usage : Z) : Z :=
  if rAmount (REFILL_HEAD sc) <? usage then 0
  else wsub (rAmount (REFILL_HEAD sc)) usage.

Definition refill_sufficient (sc : sched_context_t) (usage : Z) : bool :=
  MIN_BUDGET <=? refill_capacity sc usage.

Definition refill_ready (ns : node_state) (sc : sched_context_t) : bool :=
  rTime (REFILL_HEAD sc) <=? wadd (ksCurTime ns) getKernelWcetTicks.

(** ** The engine *)

Definition refill_new (ns : node_state) (sc : sched_context_t)
           (max_refills budget period : Z) : sched_context_t :=
  let sc := set_scPeriod sc period in
  let sc := set_scBudget sc budget in
  let sc := set_scRefillHead sc 0 in
  let sc := set_scRefillCount sc 1 in
  let sc := set_scRefillMax sc max_refills in
  (* assert (budget > MIN_BUDGET); *)
  let sc := set_rAmount sc (scRefillHead sc) budget in
  let sc := set_rTime sc (scRefillHead sc) (ksCurTime ns) in
  sc.

Definition schedule_used (sc : sched_context_t) (new : refill_t) : sched_context_t :=
  if refill_empty sc then
    (* assert (new.rAmount >= MIN_BUDGET); *)
    refill_add_tail sc new
  else
    (* assert (new.rTime >= REFILL_TAIL (sc).rTime + REFILL_TAIL (sc).rAmount); *)
    if (rAmount new <? MIN_BUDGET)
       && negb (refill_full sc)
       && (wmul 2 MIN_BUDGET <=? wadd (rAmount (REFILL_TAIL sc)) (rAmount new))
    then
      (* Split tail into two parts of at least MIN_BUDGET *)
      let remainder := wsub MIN_BUDGET (rAmount new) in
      let new := mk_refill (rTime new) (wadd (rAmount new) remainder) in
      let new := mk_refill (wsub (rTime new) remainder) (rAmount new) in
      let sc := set_rAmount sc (refill_tail_index sc)
                  (wsub (rAmount (REFILL_TAIL sc)) remainder) in
      refill_add_tail sc new
    else if (rAmount new <? MIN_BUDGET) || refill_full sc then
      (* Merge with existing tail *)
      let sc := set_rTime sc (refill_tail_index sc)
                  (wsub (rTime new) (rAmount (REFILL_TAIL sc))) in
      let sc := set_rAmount sc (refill_tail_index sc)
                  (wadd (rAmount (REFILL_TAIL sc)) (rAmount new)) in
      sc
    else
      refill_add_tail sc new.

Definition refill_update (ns : node_state) (sc : sched_context_t)
           (new_period new_budget new_max_refills : Z) : sched_context_t :=
  (* assert (sc->scRefillMax > 0); *)
  let sc := set_REFILL_INDEX sc 0 (REFILL_HEAD sc) in
  let sc := set_scRefillHead sc 0 in
  let sc := set_scRefillCount sc 1 in
  let sc := set_scRefillMax sc new_max_refills in
  let sc := set_scPeriod sc new_period in
  let sc := set_scBudget sc new_budget in
  let sc := if refill_ready ns sc
            then set_rTime sc (scRefillHead sc) (ksCurTime ns)
            else sc in
  if new_budget <=? rAmount (REFILL_HEAD sc) then
    (* if the heads budget exceeds the new budget just trim it *)
    set_rAmount sc (scRefillHead sc) new_budget
  else
    (* otherwise schedule the rest for the next period *)
    let unused := wsub new_budget (rAmount (REFILL_HEAD sc)) in
    let new := mk_refill (wsub (wadd (rTime (REFILL_HEAD sc)) new_period) unused)
                         unused in
    schedule_used sc new.

(** [sc] is the scheduling context [NODE_STATE (ksCurSC)] points to. *)
Definition refill_budget_check (ns : node_state) (sc : sched_context_t)
           (usage : Z) : sched_context_t :=
  (* assert (!isRoundRobin (sc)); *)
  let last_entry := rTime (REFILL_HEAD sc) in
  let used := mk_refill (wadd last_entry (scPeriod sc)) usage in
  if negb (refill_ready ns sc) || (rAmount (REFILL_HEAD sc) <? usage) then
    (* Budget overrun *)
    let sc := set_scRefillCount sc 0 in
    let used := mk_refill (wadd (rTime used) usage) (rAmount used) in
    let used := mk_refill (rTime used) (scBudget sc) in
    schedule_used sc used
  else if usage =? rAmount (REFILL_HEAD sc) then
    let sc := snd (refill_pop_head sc) in
    schedule_used sc used
  else
    let remnant := wsub (rAmount (REFILL_HEAD sc)) usage in
    if MIN_BUDGET <=? remnant then
      (* Leave the head refill with all that was leftover *)
      let sc := set_rAmount sc (scRefillHead sc) remnant in
      let sc := set_rTime sc (scRefillHead sc)
                  (wadd (rTime (REFILL_HEAD sc)) usage) in
      schedule_used sc used
    else
      (* Merge the remaining time to the start of the following refill *)
      let sc := snd (refill_pop_head sc) in
      if refill_empty sc then
        (* Used will become the new head *)
        let used := mk_refill (wsub (rTime used) remnant) (rAmount used) in
        let used := mk_refill (rTime used) (wadd (rAmount used) remnant) in
        schedule_used sc used
      else
        let sc := set_rTime sc (scRefillHead sc)
                    (wsub (rTime (REFILL_HEAD sc)) remnant) in
        let sc := set_rAmount sc (scRefillHead sc)
                    (wadd (rAmount (REFILL_HEAD sc)) remnant) in
        schedule_used sc used.

(** The loop [while (refill_size (sc) > 1)] of [refill_unblock_check], by
    recursion on a bound of the number of iterations; every iteration
    that does not break pops one refill, so [scRefillCount] iterations
    are never exhausted: [run_loop_unblock] below shows that this is the
    result of the loop run literally. *)
Fixpoint refill_unblock_merge (ns : node_state) (bound : nat)
         (sc : sched_context_t) : sched_context_t :=
  match bound with
  | O => sc
  | S bound' =>
      if 1 <? refill_size sc then
        let amount := rAmount (REFILL_HEAD sc) in
        let tail := wadd (rTime (REFILL_HEAD sc)) amount in
        if rTime (REFILL_INDEX sc (refill_next sc (scRefillHead sc))) <=? tail then
          let sc := snd (refill_pop_head sc) in
          let sc := set_rAmount sc (scRefillHead sc)
                      (wadd (rAmount (REFILL_HEAD sc)) amount) in
          let sc := set_rTime sc (scRefillHead sc)
                      (wadd (ksCurTime ns) getKernelWcetTicks) in
          refill_unblock_merge ns bound' sc
        else sc
      else sc
  end.

Definition refill_unblock_check (ns : node_state) (sc : sched_context_t)
  : node_state * sched_context_t :=
  if isRoundRobin sc then
    (* nothing to do *)
    (ns, sc)
  else if refill_ready ns sc then
    let ns := mk_ns (ksCurTime ns) true in
    let sc := set_rTime sc (scRefillHead sc)
                (wadd (ksCurTime ns) getKernelWcetTicks) in
    let sc := refill_unblock_merge ns (Z.to_nat (refill_size sc)) sc in
    (* assert (refill_ready (sc)); assert (refill_sufficient (sc, 0)); *)
    (ns, sc)
  else (ns, sc).


(** ** The queue as a list

    [refills sc] reads the occupied slots out of the ring, from the head,
    following [refill_next] as the traversal loops of the source do. *)

Fixpoint refills_from (sc : sched_context_t) (n : nat) (current : Z) : list refill_t :=
  match n with
  | O => []
  | S n' => REFILL_INDEX sc current :: refills_from sc n' (refill_next sc current)
  end.

Definition refills (sc : sched_context_t) : list refill_t :=
  refills_from sc (Z.to_nat (scRefillCount sc)) (scRefillHead sc).

(** The slot of the [k]-th refill of the queue. *)
Definition slot_of (sc : sched_context_t) (k : Z) : Z :=
  let i := scRefillHead sc + k in
  if i <? scRefillMax sc then i else i - scRefillMax sc.

(** ** Well-formed scheduling contexts (the data model) *)

Definition refill_typed (r : refill_t) : Prop :=
  is_u64 (rTime r) /\ is_u64 (rAmount r).

(** The indices of the ring are in range. *)
Definition ring_bounds (sc : sched_context_t) : Prop :=
  is_u64 (scRefillMax sc)
  /\ 0 <= scRefillHead sc < scRefillMax sc
  /\ 0 <= scRefillCount sc <= scRefillMax sc.

(** The indices of the ring are in range.  The buffer of refills lies in
    memory, so that twice its capacity is still a [word_t]. *)
Definition ring_wf (sc : sched_context_t) : Prop :=
  2 * scRefillMax sc <= modulus
  /\ 0 <= scRefillHead sc < scRefillMax sc
  /\ 0 <= scRefillCount sc <= scRefillMax sc.

Record sc_wf (sc : sched_context_t) : Prop := mk_sc_wf {
  wf_period : is_u64 (scPeriod sc);
  wf_budget : is_u64 (scBudget sc);
  wf_max : 2 * scRefillMax sc <= modulus;
  wf_head : 0 <= scRefillHead sc < scRefillMax sc;
  wf_count : 0 <= scRefillCount sc <= scRefillMax sc;
  wf_slots : forall i, refill_typed (scRefills sc i)
}.


(** ** The queue as a list, operation by operation

    The functions below act on the list of refills as the engine acts on
    the ring, with the same machine arithmetic; [schedule_used_refills],
    [refill_budget_check_refills] and [refill_unblock_merge_refills] are
    shown further down to describe [refills] of the result of the
    corresponding operation. *)

Definition map_head (f : refill_t -> refill_t) (q : list refill_t) : list refill_t :=
  match q with
  | [] => []
  | h :: q' => f h :: q'
  end.

Fixpoint map_last (f : refill_t -> refill_t) (q : list refill_t) : list refill_t :=
  match q with
  | [] => []
  | h :: q' =>
      match q' with
      | [] => [f h]
      | _ :: _ => h :: map_last f q'
      end
  end.

Definition null_refill : refill_t := mk_refill 0 0.

Definition q_head (q : list refill_t) : refill_t := hd null_refill q.
Definition q_tail (q : list refill_t) : refill_t := last q null_refill.

Definition q_schedule_used (max : Z) (q : list refill_t) (new : refill_t)
  : list refill_t :=
  match q with
  | [] => [new]
  | _ :: _ =>
      if (rAmount new <? MIN_BUDGET)
         && negb (Z.of_nat (length q) =? max)
         && (wmul 2 MIN_BUDGET <=? wadd (rAmount (q_tail q)) (rAmount new))
      then
        let remainder := wsub MIN_BUDGET (rAmount new) in
        map_last (fun t => mk_refill (rTime t) (wsub (rAmount t) remainder)) q
        ++ [mk_refill (wsub (rTime new) remainder) (wadd (rAmount new) remainder)]
      else if (rAmount new <? MIN_BUDGET) || (Z.of_nat (length q) =? max) then
        map_last (fun t => mk_refill (wsub (rTime new) (rAmount t))
                                     (wadd (rAmount t) (rAmount new))) q
      else q ++ [new]
  end.

Definition q_budget_check (ns : node_state) (period budget max : Z)
           (q : list refill_t) (usage : Z) : list refill_t :=
  let h := q_head q in
  let used := mk_refill (wadd (rTime h) period) usage in
  if negb (rTime h <=? wadd (ksCurTime ns) getKernelWcetTicks)
     || (rAmount h <? usage)
  then [mk_refill (wadd (rTime used) usage) budget]
  else if usage =? rAmount h then q_schedule_used max (tl q) used
  else
    let remnant := wsub (rAmount h) usage in
    if MIN_BUDGET <=? remnant then
      q_schedule_used max
        (map_head (fun _ => mk_refill (wadd (rTime h) usage) remnant) q) used
    else
      match tl q with
      | [] => [mk_refill (wsub (rTime used) remnant) (wadd (rAmount used) remnant)]
      | _ :: _ =>
          q_schedule_used max
            (map_head (fun n => mk_refill (wsub (rTime n) remnant)
                                          (wadd (rAmount n) remnant)) (tl q))
            used
      end.

(** The merging loop on a queue [h :: rest]; [t] is the instant
    [ksCurTime + getKernelWcetTicks ()] to which the head is moved. *)
Fixpoint q_unblock_merge (t : Z) (h : refill_t) (rest : list refill_t)
  : list refill_t :=
  match rest with
  | [] => [h]
  | n :: rest' =>
      if rTime n <=? wadd (rTime h) (rAmount h) then
        q_unblock_merge t (mk_refill t (wadd (rAmount n) (rAmount h))) rest'
      else h :: rest
  end.

(** The invariants of the source, read on the list, with the machine
    arithmetic of the checkers. *)
Fixpoint q_sum (q : list refill_t) (sum : Z) : Z :=
  match q with
  | [] => sum
  | r :: q' => q_sum q' (wadd sum (rAmount r))
  end.

Fixpoint q_ordered_disjoint (q : list refill_t) : bool :=
  match q with
  | [] => true
  | r :: q' =>
      match q' with
      | [] => true
      | n :: _ =>
          if negb (wadd (rTime r) (rAmount r) <=? rTime n) then false
          else q_ordered_disjoint q'
      end
  end.

Fixpoint q_at_least_min_budget (q : list refill_t) : bool :=
  match q with
  | [] => true
  | r :: q' =>
      if negb (MIN_BUDGET <=? rAmount r) then false
      else q_at_least_min_budget q'
  end.

(** The same properties in unbounded arithmetic. *)
Definition r_end (r : refill_t) : Z := rTime r + rAmount r.

Fixpoint q_total (q : list refill_t) : Z :=
  match q with
  | [] => 0
  | r :: q' => rAmount r + q_total q'
  end.

Fixpoint q_chain (q : list refill_t) : Prop :=
  match q with
  | [] => True
  | r :: q' =>
      match q' with
      | [] => True
      | n :: _ => r_end r <= rTime n /\ q_chain q'
      end
  end.

(** The invariants of a queue, in unbounded arithmetic: the queue is not
    empty, its refills are in order and disjoint, each has at least
    [MIN_BUDGET], they sum to the budget and fit in one period, and the
    last one ends at a representable instant. *)
Record q_inv (period budget : Z) (q : list refill_t) : Prop := mk_q_inv {
  qi_nonempty : q <> [];
  qi_typed : Forall refill_typed q;
  qi_chain : q_chain q;
  qi_min : Forall (fun r => MIN_BUDGET <= rAmount r) q;
  qi_total : q_total q = budget;
  qi_window : r_end (q_tail q) - rTime (q_head q) <= period;
  qi_end : r_end (q_tail q) < modulus
}.

(** No refill of the queue ends beyond the last representable instant. *)
Definition no_overflow (sc : sched_context_t) : Prop :=
  Forall (fun r => r_end r < modulus) (refills sc).

(** The five universal invariants, as the debug build checks them, and a
    non-empty queue. *)
Definition universal_invariants (sc : sched_context_t) : Prop :=
  refill_ordered_disjoint sc = true
  /\ refill_at_least_min_budget sc = true
  /\ refill_sum_to_budget sc = true
  /\ refill_all_within_period sc = true
  /\ scRefillCount sc <= scRefillMax sc
  /\ 1 <= scRefillCount sc.

(** The same invariants in unbounded arithmetic, as the specification
    writes them. *)
Definition ideal_invariants (sc : sched_context_t) : Prop :=
  q_chain (refills sc)
  /\ Forall (fun r => MIN_BUDGET <= rAmount r) (refills sc)
  /\ q_total (refills sc) = scBudget sc
  /\ r_end (q_tail (refills sc)) - rTime (q_head (refills sc)) <= scPeriod sc
  /\ scRefillCount sc <= scRefillMax sc
  /\ 1 <= scRefillCount sc.

(** ** The loops of the engine, literally

    [run_loop fuel body s] runs a [while] loop: [body s] is [inl s'] when
    the condition holds and the iteration runs to its end with state [s'],
    and [inr r] when the loop is left with result [r] (condition false,
    [break] or [return]).  The result carries the number of iterations run
    to their end; it is [None] when [fuel] iterations did not suffice. *)

Fixpoint run_loop {S R : Type} (fuel : nat) (body : S -> S + R) (s : S)
  : option (R * nat) :=
  match fuel with
  | O => None
  | Datatypes.S fuel' =>
      match body s with
      | inr r => Some (r, O)
      | inl s' =>
          match run_loop fuel' body s' with
          | Some (r, n) => Some (r, Datatypes.S n)
          | None => None
          end
      end
  end.

(** The loop of [refill_unblock_check]. *)
Definition unblock_loop_body (ns : node_state) (sc : sched_context_t)
  : sched_context_t + sched_context_t :=
  if 1 <? refill_size sc then
    let amount := rAmount (REFILL_HEAD sc) in
    let tail := wadd (rTime (REFILL_HEAD sc)) amount in
    if rTime (REFILL_INDEX sc (refill_next sc (scRefillHead sc))) <=? tail then
      let sc := snd (refill_pop_head sc) in
      let sc := set_rAmount sc (scRefillHead sc)
                  (wadd (rAmount (REFILL_HEAD sc)) amount) in
      let sc := set_rTime sc (scRefillHead sc)
                  (wadd (ksCurTime ns) getKernelWcetTicks) in
      inl sc
    else inr sc
  else inr sc.

(** The loop of [refill_sum]; the state is [(sum, current, seen)]. *)
Definition sum_loop_body (sc : sched_context_t) (s : Z * Z * Z) : (Z * Z * Z) + Z :=
  let '(sum, current, seen) := s in
  if seen <? scRefillCount sc then
    inl (wadd sum (rAmount (REFILL_INDEX sc current)),
         refill_next sc current, wadd seen 1)
  else inr sum.

(** The loop of [refill_print], [while (seen != sc->scRefillCount)]; the
    state is [(current, seen)], and printing leaves it alone. *)
Definition print_loop_body (sc : sched_context_t) (s : Z * Z) : (Z * Z) + unit :=
  let '(current, seen) := s in
  if negb (seen =? scRefillCount sc) then
    inl (refill_next sc current, wadd seen 1)
  else inr tt.

(** The loop of [refill_at_least_min_budget]; the state is [(current, seen)]. *)
Definition min_budget_loop_body (sc : sched_context_t) (s : Z * Z) : (Z * Z) + bool :=
  let '(current, seen) := s in
  if seen <? scRefillCount sc then
    if negb (MIN_BUDGET <=? rAmount (REFILL_INDEX sc current)) then inr false
    else inl (refill_next sc current, wadd seen 1)
  else inr true.

(** The loop of [refill_ordered_disjoint]; the state is
    [(current, next, seen)] and [seen] starts at 1. *)
Definition ordered_loop_body (sc : sched_context_t) (s : Z * Z * Z)
  : (Z * Z * Z) + bool :=
  let '(current, next, seen) := s in
  if seen <? scRefillCount sc then
    if negb (wadd (rTime (REFILL_INDEX sc current)) (rAmount (REFILL_INDEX sc current))
             <=? rTime (REFILL_INDEX sc next))
    then inr false
    else inl (next, refill_next sc next, wadd seen 1)
  else inr true.


(** ** Concrete scheduling contexts

    The platform of the scenarios of the specification has
    [getKernelWcetTicks () = 5] and [CONFIG_KERNEL_WCET_SCALE = 1], so that
    [MIN_BUDGET = 10]; no scheduling context is round-robin. *)

(** A buffer that holds the given refills in its first slots. *)
Definition slots_of (l : list refill_t) : Z -> refill_t :=
  fun i => nth (Z.to_nat i) l null_refill.

Definition ex_not_round_robin : sched_context_t -> bool := fun _ => false.

(** A fresh scheduling context: [refill_new (max = 4, budget = 100,
    period = 1000)] at time 0. *)
Definition ex_fresh : sched_context_t :=
  mk_sc 1000 100 4 0 1 (slots_of [mk_refill 0 100]).

(** The same budget, eligible at time 1000 only. *)
Definition ex_future : sched_context_t :=
  mk_sc 1000 100 4 0 1 (slots_of [mk_refill 1000 100]).

(** Three refills that an unblock at time 200 coalesces. *)
Definition ex_three : sched_context_t :=
  mk_sc 1000 100 4 0 3
        (slots_of [mk_refill 0 40; mk_refill 50 30; mk_refill 90 30]).

(** A period close to the largest [ticks_t]. *)
Definition ex_long_period : sched_context_t :=
  mk_sc (modulus - 500) 100 4 0 1 (slots_of [mk_refill 1000 100]).

(** A refill that ends after the largest [ticks_t]. *)
Definition ex_late : sched_context_t :=
  mk_sc 1000 30 4 0 1 (slots_of [mk_refill (modulus - 27) 30]).

(** A budget close to the largest [ticks_t]. *)
Definition ex_huge_budget : sched_context_t :=
  mk_sc (modulus - 1) (modulus - 3) 4 0 1 (slots_of [mk_refill 0 (modulus - 3)]).

(** A tail of 30 ticks that can spare some for an undersized refill, with
    [MIN_BUDGET = 10]. *)
Definition ex_two : sched_context_t :=
  mk_sc 600 60 4 1 2
        (slots_of [mk_refill 0 0; mk_refill 95 30; mk_refill 200 30]).

(** One refill of 40 ticks, for an overrun. *)
Definition ex_overrun : sched_context_t :=
  mk_sc 500 40 4 0 1 (slots_of [mk_refill 100 40]).

(** A scheduling context that [refill_new] has not initialised yet. *)
Definition ex_blank : sched_context_t := mk_sc 0 0 0 0 0 (slots_of []).

(** ** The rest of [sporadic.h] *)

(** [index_valid]: whether [index] is one of the slots in use.  Only
    [refill_index] calls it, in an [assert]. *)
Definition index_valid (sc : sched_context_t) (index : Z) : bool :=
  (* assert (scRefillHead <= scRefillMax); assert (scRefillCount <= scRefillMax); *)
  if scRefillMax sc <? wadd (scRefillHead sc) (scRefillCount sc) then
    (* Discontiguous allocations *)
    if index <? wsub (wadd (scRefillHead sc) (scRefillCount sc)) (scRefillMax sc) then
      (* Before the tail *)
      true
    else if scRefillHead sc <=? index then
      (* After the head *)
      true
    else false
  else
    (* Contiguous allocations *)
    if index <? scRefillHead sc then
      (* Before the head *)
      false
    else if wadd (scRefillHead sc) (scRefillCount sc) <? index then
      (* After the tail *)
      false
    else true.

(** [BIT (n)] is [1ul << n]. *)
Definition BIT (n : Z) : Z := wrap (Z.shiftl 1 n).

Section Layout.

(** The size field of a scheduling-context capability is read by a
    generated accessor; [sizeof (sched_context_t)] and [sizeof (refill_t)]
    are fixed by the generated structure layout. *)
Variable cap_t : Type.
Variable cap_sched_context_cap_get_capSCSizeBits : cap_t -> Z.
Variable sizeof_sched_context_t : Z.
Variable sizeof_refill_t : Z.

(** The maximum number of refill_t data structures that can fit into this
    specific scheduling context object. *)
Definition refill_absolute_max (sc_cap : cap_t) : Z :=
  wsub (BIT (cap_sched_context_cap_get_capSCSizeBits sc_cap)) sizeof_sched_context_t
  / sizeof_refill_t.

End Layout.

(** ** The debug build

    With [CONFIG_DEBUG_BUILD] (which comes with [CONFIG_PRINTING]) every
    [assert] is evaluated and the [REFILL_SANITY_*] macros run the
    checkers.  A computation of the debug build is [None] when an
    assertion fails; what [printf] writes is not part of the state.  The
    functions below are the debug build of the functions of the same name
    above; a pointer into the refill buffer is the index of its slot. *)

Definition assert (b : bool) : option unit := if b then Some tt else None.

Definition bind {A B : Type} (m : option A) (k : A -> option B) : option B :=
  match m with
  | Some a => k a
  | None => None
  end.

Notation "x <- m ;; k" := (bind m (fun x => k))
  (at level 61, m at next level, right associativity).
Notation "m ;; k" := (bind m (fun _ => k))
  (at level 61, right associativity).

Definition refill_tail_index_dbg (sc : sched_context_t) : option Z :=
  assert (scRefillHead sc <=? scRefillMax sc) ;;
  assert (scRefillCount sc <=? scRefillMax sc) ;;
  assert (1 <=? scRefillCount sc) ;;
  let index := wsub (wadd (scRefillHead sc) (scRefillCount sc)) 1 in
  let index := if scRefillMax sc <=? index then wsub index (scRefillMax sc)
               else index in
  assert (index <? scRefillMax sc) ;;
  Some index.

Definition index_valid_dbg (sc : sched_context_t) (index : Z) : option bool :=
  assert (scRefillHead sc <=? scRefillMax sc) ;;
  assert (scRefillCount sc <=? scRefillMax sc) ;;
  Some (index_valid sc index).

(** [refill_index (sc, index)]: the address of slot [index], checked. *)
Definition refill_index_dbg (sc : sched_context_t) (index : Z) : option Z :=
  assert (negb (refill_empty sc)) ;;
  assert (index <? scRefillMax sc) ;;
  valid <- index_valid_dbg sc index ;;
  assert valid ;;
  Some index.

(** The addresses [&REFILL_HEAD (sc)] and [&REFILL_TAIL (sc)]. *)
Definition REFILL_HEAD_ref (sc : sched_context_t) : option Z :=
  refill_index_dbg sc (scRefillHead sc).
Definition REFILL_TAIL_ref (sc : sched_context_t) : option Z :=
  index <- refill_tail_index_dbg sc ;;
  refill_index_dbg sc index.

(** [REFILL_INDEX], [REFILL_HEAD] and [REFILL_TAIL] as rvalues. *)
Definition REFILL_INDEX_dbg (sc : sched_context_t) (index : Z) : option refill_t :=
  i <- refill_index_dbg sc index ;;
  Some (REFILL_INDEX sc i).
Definition REFILL_HEAD_dbg (sc : sched_context_t) : option refill_t :=
  i <- REFILL_HEAD_ref sc ;;
  Some (REFILL_INDEX sc i).
Definition REFILL_TAIL_dbg (sc : sched_context_t) : option refill_t :=
  i <- REFILL_TAIL_ref sc ;;
  Some (REFILL_INDEX sc i).

Definition refill_capacity_dbg (sc : sched_context_t) (usage : Z) : option Z :=
  assert (negb (refill_empty sc)) ;;
  head <- REFILL_HEAD_dbg sc ;;
  if rAmount head <? usage then Some 0
  else
    head <- REFILL_HEAD_dbg sc ;;
    Some (wsub (rAmount head) usage).

Definition refill_sufficient_dbg (sc : sched_context_t) (usage : Z) : option bool :=
  assert (negb (refill_empty sc)) ;;
  capacity <- refill_capacity_dbg sc usage ;;
  Some (MIN_BUDGET <=? capacity).

Definition refill_ready_dbg (ns : node_state) (sc : sched_context_t) : option bool :=
  assert (negb (refill_empty sc)) ;;
  head <- REFILL_HEAD_dbg sc ;;
  Some (rTime head <=? wadd (ksCurTime ns) getKernelWcetTicks).

(** [print_index] reads the slot twice; [refill_print] visits
    [scRefillCount] slots from the head. *)
Definition print_index_dbg (sc : sched_context_t) (index : Z) : option unit :=
  REFILL_INDEX_dbg sc index ;;
  REFILL_INDEX_dbg sc index ;;
  Some tt.

Fixpoint refill_print_loop_dbg (sc : sched_context_t) (left : nat) (current : Z)
  : option unit :=
  match left with
  | O => Some tt
  | S left' =>
      print_index_dbg sc current ;;
      refill_print_loop_dbg sc left' (refill_next sc current)
  end.

Definition refill_print_dbg (sc : sched_context_t) : option unit :=
  refill_print_loop_dbg sc (Z.to_nat (scRefillCount sc)) (scRefillHead sc).

Fixpoint refill_ordered_disjoint_loop_dbg (sc : sched_context_t) (left : nat)
         (current next : Z) : option bool :=
  match left with
  | O => Some true
  | S left' =>
      c <- REFILL_INDEX_dbg sc current ;;
      c' <- REFILL_INDEX_dbg sc current ;;
      n <- REFILL_INDEX_dbg sc next ;;
      if negb (wadd (rTime c) (rAmount c') <=? rTime n)
      then refill_print_dbg sc ;; Some false
      else refill_ordered_disjoint_loop_dbg sc left' next (refill_next sc next)
  end.

Definition refill_ordered_disjoint_dbg (sc : sched_context_t) : option bool :=
  refill_ordered_disjoint_loop_dbg sc (Z.to_nat (scRefillCount sc - 1))
    (scRefillHead sc) (refill_next sc (scRefillHead sc)).

Fixpoint refill_at_least_min_budget_loop_dbg (sc : sched_context_t) (left : nat)
         (current : Z) : option bool :=
  match left with
  | O => Some true
  | S left' =>
      c <- REFILL_INDEX_dbg sc current ;;
      if negb (MIN_BUDGET <=? rAmount c)
      then refill_print_dbg sc ;; Some false
      else refill_at_least_min_budget_loop_dbg sc left' (refill_next sc current)
  end.

Definition refill_at_least_min_budget_dbg (sc : sched_context_t) : option bool :=
  refill_at_least_min_budget_loop_dbg sc (Z.to_nat (scRefillCount sc))
    (scRefillHead sc).

Fixpoint refill_sum_loop_dbg (sc : sched_context_t) (left : nat) (current sum : Z)
  : option Z :=
  match left with
  | O => Some sum
  | S left' =>
      c <- REFILL_INDEX_dbg sc current ;;
      refill_sum_loop_dbg sc left' (refill_next sc current) (wadd sum (rAmount c))
  end.

Definition refill_sum_dbg (sc : sched_context_t) : option Z :=
  refill_sum_loop_dbg sc (Z.to_nat (scRefillCount sc)) (scRefillHead sc) 0.

Definition refill_sum_to_budget_dbg (sc : sched_context_t) : option bool :=
  sum <- refill_sum_dbg sc ;;
  if negb (sum =? scBudget sc)
  then refill_print_dbg sc ;; Some false
  else Some true.

Definition refill_all_within_period_dbg (sc : sched_context_t) : option bool :=
  tail <- REFILL_TAIL_dbg sc ;;
  tail' <- REFILL_TAIL_dbg sc ;;
  head <- REFILL_HEAD_dbg sc ;;
  if negb (wsub (wadd (rTime tail) (rAmount tail')) (rTime head) <=? scPeriod sc)
  then refill_print_dbg sc ;; Some false
  else Some true.

Definition sched_invariants_dbg (sc : sched_context_t) : option unit :=
  assert (negb (refill_empty sc)) ;;
  assert (MIN_SC_BUDGET <=? scBudget sc) ;;
  ordered <- refill_ordered_disjoint_dbg sc ;;
  assert ordered ;;
  least <- refill_at_least_min_budget_dbg sc ;;
  assert least ;;
  within <- refill_all_within_period_dbg sc ;;
  assert within ;;
  sums <- refill_sum_to_budget_dbg sc ;;
  assert sums.

(** [REFILL_SANITY_START] gives the value of [_sum]; [REFILL_SANITY_END]
    is [REFILL_SANITY_CHECK (sc, _sum)]. *)
Definition REFILL_SANITY_START (sc : sched_context_t) : option Z :=
  _sum <- refill_sum_dbg sc ;;
  sched_invariants_dbg sc ;;
  Some _sum.

Definition REFILL_SANITY_CHECK (sc : sched_context_t) (budget : Z) : option unit :=
  sum <- refill_sum_dbg sc ;;
  assert (sum =? budget) ;;
  sched_invariants_dbg sc.

Definition refill_pop_head_dbg (sc : sched_context_t)
  : option (refill_t * sched_context_t) :=
  assert (0 <? refill_size sc) ;;
  let prev_size := refill_size sc in
  refill <- REFILL_HEAD_dbg sc ;;
  let sc := set_scRefillHead sc (refill_next sc (scRefillHead sc)) in
  let sc := set_scRefillCount sc (wsub (scRefillCount sc) 1) in
  assert (prev_size =? wadd (refill_size sc) 1) ;;
  assert (scRefillHead sc <? scRefillMax sc) ;;
  Some (refill, sc).

Definition refill_add_tail_dbg (sc : sched_context_t) (refill : refill_t)
  : option sched_context_t :=
  assert (refill_size sc <? scRefillMax sc) ;;
  let sc := set_scRefillCount sc (wadd (scRefillCount sc) 1) in
  i <- REFILL_TAIL_ref sc ;;
  Some (set_REFILL_INDEX sc i refill).

Definition refill_new_dbg (ns : node_state) (sc : sched_context_t)
           (max_refills budget period : Z) : option sched_context_t :=
  let sc := set_scPeriod sc period in
  let sc := set_scBudget sc budget in
  let sc := set_scRefillHead sc 0 in
  let sc := set_scRefillCount sc 1 in
  let sc := set_scRefillMax sc max_refills in
  assert (MIN_BUDGET <? budget) ;;
  i <- REFILL_HEAD_ref sc ;;
  let sc := set_rAmount sc i budget in
  i <- REFILL_HEAD_ref sc ;;
  let sc := set_rTime sc i (ksCurTime ns) in
  REFILL_SANITY_CHECK sc budget ;;
  Some sc.

Definition schedule_used_dbg (sc : sched_context_t) (new : refill_t)
  : option sched_context_t :=
  sc <- (if refill_empty sc then
           assert (MIN_BUDGET <=? rAmount new) ;;
           refill_add_tail_dbg sc new
         else
           tail <- REFILL_TAIL_dbg sc ;;
           tail' <- REFILL_TAIL_dbg sc ;;
           assert (wadd (rTime tail) (rAmount tail') <=? rTime new) ;;
           (* the third operand of && is evaluated after the other two hold *)
           spare <- (if (rAmount new <? MIN_BUDGET) && negb (refill_full sc) then
                       tail <- REFILL_TAIL_dbg sc ;;
                       Some (wmul 2 MIN_BUDGET <=? wadd (rAmount tail) (rAmount new))
                     else Some false) ;;
           if spare then
             let remainder := wsub MIN_BUDGET (rAmount new) in
             let new := mk_refill (rTime new) (wadd (rAmount new) remainder) in
             let new := mk_refill (wsub (rTime new) remainder) (rAmount new) in
             i <- REFILL_TAIL_ref sc ;;
             let sc := set_rAmount sc i (wsub (rAmount (REFILL_INDEX sc i)) remainder) in
             refill_add_tail_dbg sc new
           else if (rAmount new <? MIN_BUDGET) || refill_full sc then
             i <- REFILL_TAIL_ref sc ;;
             tail <- REFILL_TAIL_dbg sc ;;
             let sc := set_rTime sc i (wsub (rTime new) (rAmount tail)) in
             i <- REFILL_TAIL_ref sc ;;
             let sc := set_rAmount sc i (wadd (rAmount (REFILL_INDEX sc i)) (rAmount new)) in
             Some sc
           else
             refill_add_tail_dbg sc new) ;;
  assert (negb (refill_empty sc)) ;;
  Some sc.

Definition refill_update_dbg (ns : node_state) (sc : sched_context_t)
           (new_period new_budget new_max_refills : Z) : option sched_context_t :=
  assert (0 <? scRefillMax sc) ;;
  i <- refill_index_dbg sc 0 ;;
  head <- REFILL_HEAD_dbg sc ;;
  let sc := set_REFILL_INDEX sc i head in
  let sc := set_scRefillHead sc 0 in
  let sc := set_scRefillCount sc 1 in
  let sc := set_scRefillMax sc new_max_refills in
  let sc := set_scPeriod sc new_period in
  let sc := set_scBudget sc new_budget in
  ready <- refill_ready_dbg ns sc ;;
  sc <- (if ready then
           i <- REFILL_HEAD_ref sc ;;
           Some (set_rTime sc i (ksCurTime ns))
         else Some sc) ;;
  head <- REFILL_HEAD_dbg sc ;;
  sc <- (if new_budget <=? rAmount head then
           i <- REFILL_HEAD_ref sc ;;
           Some (set_rAmount sc i new_budget)
         else
           head <- REFILL_HEAD_dbg sc ;;
           let unused := wsub new_budget (rAmount head) in
           head <- REFILL_HEAD_dbg sc ;;
           let new := mk_refill (wsub (wadd (rTime head) new_period) unused)
                                unused in
           schedule_used_dbg sc new) ;;
  REFILL_SANITY_CHECK sc new_budget ;;
  Some sc.

Definition refill_budget_check_dbg (ns : node_state) (sc : sched_context_t)
           (usage : Z) : option sched_context_t :=
  assert (negb (isRoundRobin sc)) ;;
  _sum <- REFILL_SANITY_START sc ;;
  head <- REFILL_HEAD_dbg sc ;;
  let last_entry := rTime head in
  let used := mk_refill (wadd last_entry (scPeriod sc)) usage in
  ready <- refill_ready_dbg ns sc ;;
  (* the second operand of || is evaluated when the head is ready *)
  overrun <- (if negb ready then Some true
              else head <- REFILL_HEAD_dbg sc ;; Some (rAmount head <? usage)) ;;
  charged <-
    (if overrun then
       let sc := set_scRefillCount sc 0 in
       let used := mk_refill (wadd (rTime used) usage) (rAmount used) in
       let used := mk_refill (rTime used) (scBudget sc) in
       Some (sc, used)
     else
       head <- REFILL_HEAD_dbg sc ;;
       if usage =? rAmount head then
         popped <- refill_pop_head_dbg sc ;;
         Some (snd popped, used)
       else
         head <- REFILL_HEAD_dbg sc ;;
         let remnant := wsub (rAmount head) usage in
         if MIN_BUDGET <=? remnant then
           i <- REFILL_HEAD_ref sc ;;
           let sc := set_rAmount sc i remnant in
           i <- REFILL_HEAD_ref sc ;;
           let sc := set_rTime sc i (wadd (rTime (REFILL_INDEX sc i)) usage) in
           Some (sc, used)
         else
           popped <- refill_pop_head_dbg sc ;;
           let sc := snd popped in
           if refill_empty sc then
             let used := mk_refill (wsub (rTime used) remnant) (rAmount used) in
             let used := mk_refill (rTime used) (wadd (rAmount used) remnant) in
             Some (sc, used)
           else
             i <- REFILL_HEAD_ref sc ;;
             let sc := set_rTime sc i (wsub (rTime (REFILL_INDEX sc i)) remnant) in
             i <- REFILL_HEAD_ref sc ;;
             let sc := set_rAmount sc i (wadd (rAmount (REFILL_INDEX sc i)) remnant) in
             Some (sc, used)) ;;
  sc <- schedule_used_dbg (fst charged) (snd charged) ;;
  REFILL_SANITY_CHECK sc _sum ;;
  Some sc.

Fixpoint refill_unblock_merge_dbg (ns : node_state) (bound : nat)
         (sc : sched_context_t) : option sched_context_t :=
  match bound with
  | O => Some sc
  | S bound' =>
      if 1 <? refill_size sc then
        head <- REFILL_HEAD_dbg sc ;;
        let amount := rAmount head in
        head <- REFILL_HEAD_dbg sc ;;
        let tail := wadd (rTime head) amount in
        next <- REFILL_INDEX_dbg sc (refill_next sc (scRefillHead sc)) ;;
        if rTime next <=? tail then
          popped <- refill_pop_head_dbg sc ;;
          let sc := snd popped in
          i <- REFILL_HEAD_ref sc ;;
          let sc := set_rAmount sc i (wadd (rAmount (REFILL_INDEX sc i)) amount) in
          i <- REFILL_HEAD_ref sc ;;
          let sc := set_rTime sc i (wadd (ksCurTime ns) getKernelWcetTicks) in
          refill_unblock_merge_dbg ns bound' sc
        else Some sc
      else Some sc
  end.

Definition refill_unblock_check_dbg (ns : node_state) (sc : sched_context_t)
  : option (node_state * sched_context_t) :=
  if isRoundRobin sc then
    Some (ns, sc)
  else
    _sum <- REFILL_SANITY_START sc ;;
    ready <- refill_ready_dbg ns sc ;;
    result <-
      (if ready then
         let ns := mk_ns (ksCurTime ns) true in
         i <- REFILL_HEAD_ref sc ;;
         let sc := set_rTime sc i (wadd (ksCurTime ns) getKernelWcetTicks) in
         sc <- refill_unblock_merge_dbg ns (Z.to_nat (refill_size sc)) sc ;;
         ready <- refill_ready_dbg ns sc ;;
         assert ready ;;
         sufficient <- refill_sufficient_dbg sc 0 ;;
         assert sufficient ;;
         Some (ns, sc)
       else Some (ns, sc)) ;;
    REFILL_SANITY_CHECK (snd result) _sum ;;
    Some result.

(** ** [refill_budget_check] up to its call of [schedule_used]

    The scheduling context and the refill that [refill_budget_check] hands
    to [schedule_used]: [refill_budget_check_charge_eq] below shows that
    [refill_budget_check] is [schedule_used] of the two. *)
Definition refill_budget_check_charge (ns : node_state) (sc : sched_context_t)
           (usage : Z) : sched_context_t * refill_t :=
  let last_entry := rTime (REFILL_HEAD sc) in
  let used := mk_refill (wadd last_entry (scPeriod sc)) usage in
  if negb (refill_ready ns sc) || (rAmount (REFILL_HEAD sc) <? usage) then
    let sc := set_scRefillCount sc 0 in
    let used := mk_refill (wadd (rTime used) usage) (rAmount used) in
    let used := mk_refill (rTime used) (scBudget sc) in
    (sc, used)
  else if usage =? rAmount (REFILL_HEAD sc) then
    let sc := snd (refill_pop_head sc) in
    (sc, used)
  else
    let remnant := wsub (rAmount (REFILL_HEAD sc)) usage in
    if MIN_BUDGET <=? remnant then
      let sc := set_rAmount sc (scRefillHead sc) remnant in
      let sc := set_rTime sc (scRefillHead sc)
                  (wadd (rTime (REFILL_HEAD sc)) usage) in
      (sc, used)
    else
      let sc := snd (refill_pop_head sc) in
      if refill_empty sc then
        let used := mk_refill (wsub (rTime used) remnant) (rAmount used) in
        let used := mk_refill (rTime used) (wadd (rAmount used) remnant) in
        (sc, used)
      else
        let sc := set_rTime sc (scRefillHead sc)
                    (wsub (rTime (REFILL_HEAD sc)) remnant) in
        let sc := set_rAmount sc (scRefillHead sc)
                    (wadd (rAmount (REFILL_HEAD sc)) remnant) in
        (sc, used).

(** The same on the list of refills. *)
Definition q_budget_check_charge (ns : node_state) (period budget : Z)
           (q : list refill_t) (usage : Z) : list refill_t * refill_t :=
  let h := q_head q in
  let used := mk_refill (wadd (rTime h) period) usage in
  if negb (rTime h <=? wadd (ksCurTime ns) getKernelWcetTicks)
     || (rAmount h <? usage)
  then ([], mk_refill (wadd (rTime used) usage) budget)
  else if usage =? rAmount h then (tl q, used)
  else
    let remnant := wsub (rAmount h) usage in
    if MIN_BUDGET <=? remnant then
      (map_head (fun _ => mk_refill (wadd (rTime h) usage) remnant) q, used)
    else
      match tl q with
      | [] => ([], mk_refill (wsub (rTime used) remnant) (wadd (rAmount used) remnant))
      | _ :: _ =>
          (map_head (fun n => mk_refill (wsub (rTime n) remnant)
                                        (wadd (rAmount n) remnant)) (tl q),
           used)
      end.

(** What [schedule_used] asserts of its arguments. *)
Definition schedule_used_asserts (sc : sched_context_t) (new : refill_t) : bool :=
  if refill_empty sc then MIN_BUDGET <=? rAmount new
  else wadd (rTime (REFILL_TAIL sc)) (rAmount (REFILL_TAIL sc)) <=? rTime new.

(** ** Runs of the engine

    The scheduling contexts that the four public operations produce,
    starting with [refill_new], when they are called as their callers
    call them and the tick values stay away from [2 ^ 64]: [refill_new]
    and [refill_update] are given a budget with
    [MIN_SC_BUDGET <= budget <= period] and a capacity of at least 1, and
    each step carries the bounds on its arguments under which its 64-bit
    arithmetic does not wrap around. *)
Inductive sc_reachable : sched_context_t -> Prop :=
| reach_new (ns : node_state) (sc : sched_context_t)
            (max_refills budget period : Z) :
    (forall i, refill_typed (scRefills sc i)) ->
    is_u64 (ksCurTime ns) -> is_u64 period ->
    MIN_SC_BUDGET <= budget <= period ->
    1 <= max_refills -> 2 * max_refills <= modulus ->
    ksCurTime ns + budget < modulus ->
    sc_reachable (refill_new ns sc max_refills budget period)
| reach_update (ns : node_state) (sc : sched_context_t)
               (new_period new_budget new_max_refills : Z) :
    sc_reachable sc ->
    is_u64 (ksCurTime ns) -> is_u64 new_period ->
    MIN_SC_BUDGET <= new_budget <= new_period ->
    1 <= new_max_refills -> 2 * new_max_refills <= modulus ->
    ksCurTime ns + new_period < modulus ->
    rTime (REFILL_HEAD sc) + new_period < modulus ->
    sc_reachable (refill_update ns sc new_period new_budget new_max_refills)
| reach_budget_check (ns : node_state) (sc : sched_context_t) (usage : Z) :
    sc_reachable sc ->
    is_u64 usage ->
    rTime (REFILL_HEAD sc) + scPeriod sc + rAmount (REFILL_HEAD sc) < modulus ->
    rTime (REFILL_HEAD sc) + scPeriod sc + usage + scBudget sc < modulus ->
    sc_reachable (refill_budget_check ns sc usage)
| reach_unblock_check (ns : node_state) (sc : sched_context_t) :
    sc_reachable sc ->
    0 <= ksCurTime ns + getKernelWcetTicks ->
    ksCurTime ns + getKernelWcetTicks + scBudget sc < modulus ->
    sc_reachable (snd (refill_unblock_check ns sc)).

(** ** More concrete scheduling contexts *)

(** A full queue of two refills. *)
Definition ex_full : sched_context_t :=
  mk_sc 600 60 2 0 2 (slots_of [mk_refill 95 30; mk_refill 200 30]).

(** A scheduling-context capability whose size field is all there is to
    it, for an object of [2 ^ 10] bytes. *)
Definition ex_cap_bits (sc_cap : unit) : Z := 10.

(** The run that creates a scheduling context at time 0, charges it 30
    ticks at time 20 and unblocks it at time 50. *)
Definition ex_run_new : sched_context_t :=
  refill_new (mk_ns 0 false) ex_blank 4 100 1000.
(** ** Lemmas on machine arithmetic *)

Lemma modulus_eq : modulus = 18446744073709551616.
Proof. reflexivity. Qed.

Lemma modulus_pos : 0 < modulus.
Proof. rewrite modulus_eq; lia. Qed.

Lemma wrap_range (x : Z) : is_u64 (wrap x).
Proof. unfold is_u64, wrap. apply Z.mod_pos_bound, modulus_pos. Qed.

Lemma wrap_small (x : Z) : 0 <= x < modulus -> wrap x = x.
Proof. intros H; unfold wrap; now apply Z.mod_small. Qed.

Lemma wrap_wrap (x : Z) : wrap (wrap x) = wrap x.
Proof. apply wrap_small, wrap_range. Qed.

Lemma wadd_range (a b : Z) : is_u64 (wadd a b).
Proof. apply wrap_range. Qed.

Lemma wsub_range (a b : Z) : is_u64 (wsub a b).
Proof. apply wrap_range. Qed.

Lemma wmul_range (a b : Z) : is_u64 (wmul a b).
Proof. apply wrap_range. Qed.

Lemma wadd_small (a b : Z) : 0 <= a + b < modulus -> wadd a b = a + b.
Proof. apply wrap_small. Qed.

Lemma wsub_small (a b : Z) : 0 <= a - b < modulus -> wsub a b = a - b.
Proof. apply wrap_small. Qed.

Lemma wrap_add_l (a b : Z) : wrap (wrap a + b) = wrap (a + b).
Proof. unfold wrap. apply Zplus_mod_idemp_l. Qed.

Lemma wrap_add_r (a b : Z) : wrap (a + wrap b) = wrap (a + b).
Proof. unfold wrap. apply Zplus_mod_idemp_r. Qed.

Lemma wrap_sub_l (a b : Z) : wrap (wrap a - b) = wrap (a - b).
Proof. unfold wrap. apply Zminus_mod_idemp_l. Qed.

Lemma wrap_sub_r (a b : Z) : wrap (a - wrap b) = wrap (a - b).
Proof. unfold wrap. apply Zminus_mod_idemp_r. Qed.

(** Normalise wrapped expressions: inner wrap-arounds are absorbed by the
    outermost one. *)
Ltac wrap_norm :=
  unfold wadd, wsub;
  repeat (rewrite wrap_add_l || rewrite wrap_add_r || rewrite wrap_sub_l
          || rewrite wrap_sub_r || rewrite wrap_wrap).


(** Linear arithmetic over wrapped expressions. *)
Ltac wrap_lia :=
  unfold wadd, wsub, wrap, is_u64 in *; rewrite ?modulus_eq in *;
  Z.div_mod_to_equations; lia.

(** ** The ring buffer seen as a list *)

Ltac destr_cmp :=
  repeat match goal with
    | |- context [?a <? ?b] => destruct (Z.ltb_spec a b)
    | |- context [?a <=? ?b] => destruct (Z.leb_spec a b)
    | |- context [?a =? ?b] => destruct (Z.eqb_spec a b)
    end.

(** Reduce projections of updated scheduling contexts, and nothing else. *)
Ltac sc_simpl :=
  cbn [scPeriod scBudget scRefillMax scRefillHead scRefillCount scRefills
       set_scPeriod set_scBudget set_scRefillMax set_scRefillHead
       set_scRefillCount set_REFILL_INDEX set_rTime set_rAmount
       rTime rAmount fst snd ksCurTime ksReprogram].

Lemma sc_wf_ring (sc : sched_context_t) : sc_wf sc -> ring_wf sc.
Proof. intros []. unfold ring_wf. auto. Qed.

Lemma slot_of_range (sc : sched_context_t) (k : Z) :
  ring_wf sc -> 0 <= k < scRefillMax sc -> 0 <= slot_of sc k < scRefillMax sc.
Proof.
  intros (Hm & Hh & Hc) Hk. unfold slot_of; cbn zeta. destr_cmp; lia.
Qed.

Lemma slot_of_0 (sc : sched_context_t) :
  ring_wf sc -> slot_of sc 0 = scRefillHead sc.
Proof.
  intros (Hm & Hh & Hc). unfold slot_of; cbn zeta. rewrite Z.add_0_r. destr_cmp; lia.
Qed.

Lemma slot_of_inj (sc : sched_context_t) (j k : Z) :
  ring_wf sc -> 0 <= j < scRefillMax sc -> 0 <= k < scRefillMax sc ->
  slot_of sc j = slot_of sc k -> j = k.
Proof.
  intros (Hm & Hh & Hc) Hj Hk. unfold slot_of; cbn zeta. destr_cmp; lia.
Qed.

Lemma refill_next_slot_of (sc : sched_context_t) (k : Z) :
  ring_wf sc -> 0 <= k < scRefillMax sc ->
  refill_next sc (slot_of sc k) = slot_of sc (k + 1).
Proof.
  intros (Hm & Hh & Hc) Hk. unfold refill_next, slot_of, is_u64 in *; cbn zeta.
  rewrite (wsub_small (scRefillMax sc) 1) by lia.
  destr_cmp; try lia; rewrite wadd_small; lia.
Qed.

Lemma refill_next_range (sc : sched_context_t) (i : Z) :
  is_u64 (scRefillMax sc) -> 0 <= i < scRefillMax sc ->
  0 <= refill_next sc i < scRefillMax sc.
Proof.
  unfold refill_next, is_u64. intros Hm Hi.
  rewrite (wsub_small (scRefillMax sc) 1) by lia.
  destr_cmp; try lia. rewrite wadd_small; lia.
Qed.

Lemma refill_tail_index_slot_of (sc : sched_context_t) :
  ring_wf sc -> 1 <= scRefillCount sc ->
  refill_tail_index sc = slot_of sc (scRefillCount sc - 1).
Proof.
  intros (Hm & Hh & Hc0) Hc. unfold refill_tail_index, slot_of, is_u64 in *; cbn zeta.
  rewrite (wadd_small (scRefillHead sc) (scRefillCount sc)) by lia.
  rewrite (wsub_small (scRefillHead sc + scRefillCount sc) 1) by lia.
  destr_cmp; try lia. rewrite wsub_small; lia.
Qed.

Lemma length_refills_from (sc : sched_context_t) (n : nat) (i : Z) :
  length (refills_from sc n i) = n.
Proof.
  revert i; induction n as [|n IH]; intros i; cbn; [reflexivity|].
  now rewrite IH.
Qed.

Lemma length_refills (sc : sched_context_t) :
  length (refills sc) = Z.to_nat (scRefillCount sc).
Proof. apply length_refills_from. Qed.

(** A scheduling context [sc'] that has the ring of [sc] and agrees with it
    on the slots of the refills [k .. k + n - 1] has the same refills
    there. *)
Lemma refills_from_frame (sc sc' : sched_context_t) :
  ring_wf sc ->
  scRefillMax sc' = scRefillMax sc ->
  forall (n : nat) (k : Z),
    0 <= k -> k + Z.of_nat n <= scRefillMax sc ->
    (forall j, k <= j < k + Z.of_nat n ->
               scRefills sc' (slot_of sc j) = scRefills sc (slot_of sc j)) ->
    refills_from sc' n (slot_of sc k) = refills_from sc n (slot_of sc k).
Proof.
  intros Hwf Hmax. induction n as [|n IH]; intros k Hk Hn Hag; [reflexivity|].
  cbn [refills_from]. unfold REFILL_INDEX. rewrite Hag by lia. f_equal.
  assert (Hnext : refill_next sc' (slot_of sc k) = refill_next sc (slot_of sc k)).
  { unfold refill_next. now rewrite Hmax. }
  rewrite Hnext, refill_next_slot_of by (auto; lia).
  apply IH; try lia. intros j Hj. apply Hag. lia.
Qed.

Lemma refills_from_snoc (sc : sched_context_t) :
  ring_wf sc ->
  forall (n : nat) (k : Z),
    0 <= k -> k + Z.of_nat n < scRefillMax sc ->
    refills_from sc (S n) (slot_of sc k)
    = refills_from sc n (slot_of sc k) ++ [scRefills sc (slot_of sc (k + Z.of_nat n))].
Proof.
  intros Hwf. induction n as [|n IH]; intros k Hk Hn.
  - cbn. now rewrite Z.add_0_r.
  - change (refills_from sc (S (S n)) (slot_of sc k))
      with (REFILL_INDEX sc (slot_of sc k)
            :: refills_from sc (S n) (refill_next sc (slot_of sc k))).
    rewrite refill_next_slot_of by (auto; lia).
    rewrite IH by lia. cbn [refills_from app].
    rewrite refill_next_slot_of by (auto; lia).
    now replace (k + Z.of_nat (S n)) with (k + 1 + Z.of_nat n) by lia.
Qed.

Lemma refills_unfold (sc : sched_context_t) :
  1 <= scRefillCount sc ->
  refills sc
  = REFILL_HEAD sc
    :: refills_from sc (Z.to_nat (scRefillCount sc - 1))
                    (refill_next sc (scRefillHead sc)).
Proof.
  intros Hc. unfold refills.
  replace (Z.to_nat (scRefillCount sc)) with (S (Z.to_nat (scRefillCount sc - 1))) by lia.
  reflexivity.
Qed.

Lemma refills_empty (sc : sched_context_t) :
  scRefillCount sc <= 0 -> refills sc = [].
Proof.
  intros Hc. unfold refills. now replace (Z.to_nat (scRefillCount sc)) with O by lia.
Qed.

Lemma REFILL_HEAD_refills (sc : sched_context_t) :
  1 <= scRefillCount sc -> REFILL_HEAD sc = q_head (refills sc).
Proof. intros Hc. now rewrite refills_unfold. Qed.

Lemma REFILL_next_refills (sc : sched_context_t) :
  2 <= scRefillCount sc ->
  REFILL_INDEX sc (refill_next sc (scRefillHead sc)) = q_head (tl (refills sc)).
Proof.
  intros Hc. rewrite refills_unfold by lia. cbn [tl].
  replace (Z.to_nat (scRefillCount sc - 1)) with (S (Z.to_nat (scRefillCount sc - 2))) by lia.
  reflexivity.
Qed.

Lemma q_tail_snoc (q : list refill_t) (r : refill_t) : q_tail (q ++ [r]) = r.
Proof. unfold q_tail. apply last_last. Qed.

Lemma map_last_snoc (f : refill_t -> refill_t) (q : list refill_t) (r : refill_t) :
  map_last f (q ++ [r]) = q ++ [f r].
Proof.
  induction q as [|h q IH]; [reflexivity|].
  cbn [app map_last]. rewrite IH.
  destruct q; reflexivity.
Qed.

Lemma map_last_ext (f g : refill_t -> refill_t) (q : list refill_t) :
  f (q_tail q) = g (q_tail q) -> map_last f q = map_last g q.
Proof.
  induction q as [|r q' _] using rev_ind; [reflexivity|].
  rewrite q_tail_snoc, !map_last_snoc. now intros ->.
Qed.

Lemma refills_split_last (sc : sched_context_t) :
  ring_wf sc -> 1 <= scRefillCount sc ->
  refills sc
  = refills_from sc (Z.to_nat (scRefillCount sc - 1)) (scRefillHead sc)
    ++ [REFILL_TAIL sc].
Proof.
  intros Hwf Hc. pose proof Hwf as (Hm & Hh & Hc0).
  unfold refills, REFILL_TAIL, REFILL_INDEX.
  rewrite refill_tail_index_slot_of by auto.
  replace (Z.to_nat (scRefillCount sc)) with (S (Z.to_nat (scRefillCount sc - 1))) by lia.
  rewrite <- (slot_of_0 sc) by auto.
  rewrite refills_from_snoc by (auto; lia).
  now replace (0 + Z.of_nat (Z.to_nat (scRefillCount sc - 1)))
    with (scRefillCount sc - 1) by lia.
Qed.

Lemma REFILL_TAIL_refills (sc : sched_context_t) :
  ring_wf sc -> 1 <= scRefillCount sc -> REFILL_TAIL sc = q_tail (refills sc).
Proof.
  intros Hwf Hc. rewrite (refills_split_last sc) by auto. now rewrite q_tail_snoc.
Qed.

(** [refills_from] reads only the buffer and its capacity. *)
Lemma refills_from_ext (sc sc' : sched_context_t) :
  scRefills sc' = scRefills sc -> scRefillMax sc' = scRefillMax sc ->
  forall (n : nat) (i : Z), refills_from sc' n i = refills_from sc n i.
Proof.
  intros Hs Hm. induction n as [|n IH]; intros i; [reflexivity|].
  cbn [refills_from]. unfold REFILL_INDEX, refill_next.
  rewrite Hs, Hm. f_equal. apply IH.
Qed.

Lemma refills_pop_head (sc : sched_context_t) :
  1 <= scRefillCount sc < modulus ->
  refills (snd (refill_pop_head sc)) = tl (refills sc).
Proof.
  intros Hc. rewrite (refills_unfold sc) by lia. cbn [tl].
  unfold refills, refill_pop_head; cbn.
  rewrite wsub_small by lia.
  now apply refills_from_ext.
Qed.

Lemma refills_set_tail (sc : sched_context_t) (r : refill_t) :
  ring_wf sc -> 1 <= scRefillCount sc ->
  refills (set_REFILL_INDEX sc (refill_tail_index sc) r)
  = map_last (fun _ => r) (refills sc).
Proof.
  intros Hwf Hc. pose proof Hwf as (Hm & Hh & Hc0).
  rewrite (refills_split_last sc), map_last_snoc by auto.
  rewrite refill_tail_index_slot_of by auto.
  set (sc' := set_REFILL_INDEX sc (slot_of sc (scRefillCount sc - 1)) r).
  assert (Hwf' : ring_wf sc') by exact Hwf.
  rewrite (refills_split_last sc') by auto.
  unfold REFILL_TAIL, REFILL_INDEX.
  rewrite refill_tail_index_slot_of by auto.
  change (scRefillCount sc') with (scRefillCount sc).
  change (scRefillHead sc') with (scRefillHead sc).
  change (slot_of sc' (scRefillCount sc - 1)) with (slot_of sc (scRefillCount sc - 1)).
  f_equal.
  - rewrite <- (slot_of_0 sc) by auto.
    apply refills_from_frame; auto; try lia.
    intros j Hj. unfold sc'; cbn.
    destruct (Z.eqb_spec (slot_of sc j) (slot_of sc (scRefillCount sc - 1))) as [E|]; auto.
    apply slot_of_inj in E; auto; lia.
  - unfold sc'; cbn. now rewrite Z.eqb_refl.
Qed.

Lemma refills_set_head (sc : sched_context_t) (r : refill_t) :
  ring_wf sc -> 1 <= scRefillCount sc ->
  refills (set_REFILL_INDEX sc (scRefillHead sc) r)
  = map_head (fun _ => r) (refills sc).
Proof.
  intros Hwf Hc. pose proof Hwf as (Hm & Hh & Hc0).
  set (sc' := set_REFILL_INDEX sc (scRefillHead sc) r).
  rewrite (refills_unfold sc), (refills_unfold sc') by auto.
  cbn [map_head]. f_equal.
  - unfold REFILL_HEAD, REFILL_INDEX, sc'; cbn. now rewrite Z.eqb_refl.
  - change (scRefillCount sc') with (scRefillCount sc).
    change (scRefillHead sc') with (scRefillHead sc).
    change (refill_next sc' (scRefillHead sc)) with (refill_next sc (scRefillHead sc)).
    rewrite <- (slot_of_0 sc), refill_next_slot_of by (auto; lia).
    apply refills_from_frame; auto; try lia.
    intros j Hj. unfold sc'; cbn. rewrite <- (slot_of_0 sc) by auto.
    destruct (Z.eqb_spec (slot_of sc j) (slot_of sc 0)) as [E|]; auto.
    apply slot_of_inj in E; auto; lia.
Qed.

Lemma refills_add_tail (sc : sched_context_t) (r : refill_t) :
  ring_wf sc -> scRefillCount sc < scRefillMax sc ->
  refills (refill_add_tail sc r) = refills sc ++ [r].
Proof.
  intros Hwf Hc. pose proof Hwf as (Hm & Hh & Hc0).
  unfold refill_add_tail; cbn zeta.
  rewrite (wadd_small (scRefillCount sc) 1) by lia.
  set (sc1 := set_scRefillCount sc (scRefillCount sc + 1)).
  assert (Hwf1 : ring_wf sc1) by (unfold ring_wf, sc1; sc_simpl; lia).
  rewrite refills_set_tail by (auto; unfold sc1; sc_simpl; lia).
  rewrite (refills_split_last sc1) by (auto; unfold sc1; sc_simpl; lia).
  rewrite map_last_snoc. f_equal.
  unfold refills, sc1; sc_simpl.
  replace (scRefillCount sc + 1 - 1) with (scRefillCount sc) by lia.
  rewrite <- (slot_of_0 sc) by auto.
  apply refills_from_frame; auto; lia.
Qed.

Lemma map_head_const (f : refill_t -> refill_t) (q : list refill_t) :
  map_head (fun _ => f (q_head q)) q = map_head f q.
Proof. destruct q; reflexivity. Qed.

Lemma map_last_const (f : refill_t -> refill_t) (q : list refill_t) :
  map_last (fun _ => f (q_tail q)) q = map_last f q.
Proof. now apply map_last_ext. Qed.

(** Field updates of the head and of the tail, on the list. *)
Lemma refills_upd_head (sc : sched_context_t) (f : refill_t -> refill_t) :
  ring_wf sc -> 1 <= scRefillCount sc ->
  refills (set_REFILL_INDEX sc (scRefillHead sc) (f (REFILL_HEAD sc)))
  = map_head f (refills sc).
Proof.
  intros Hwf Hc. rewrite refills_set_head, REFILL_HEAD_refills by auto.
  apply map_head_const.
Qed.

Lemma refills_upd_tail (sc : sched_context_t) (f : refill_t -> refill_t) :
  ring_wf sc -> 1 <= scRefillCount sc ->
  refills (set_REFILL_INDEX sc (refill_tail_index sc) (f (REFILL_TAIL sc)))
  = map_last f (refills sc).
Proof.
  intros Hwf Hc. rewrite refills_set_tail, REFILL_TAIL_refills by auto.
  apply map_last_const.
Qed.

Lemma map_head_map_head (f g : refill_t -> refill_t) (q : list refill_t) :
  map_head g (map_head f q) = map_head (fun r => g (f r)) q.
Proof. destruct q; reflexivity. Qed.

Lemma map_last_map_last (f g : refill_t -> refill_t) (q : list refill_t) :
  map_last g (map_last f q) = map_last (fun r => g (f r)) q.
Proof.
  induction q as [|r q' _] using rev_ind; [reflexivity|].
  now rewrite !map_last_snoc.
Qed.

Lemma length_map_last (f : refill_t -> refill_t) (q : list refill_t) :
  length (map_last f q) = length q.
Proof.
  induction q as [|r q' _] using rev_ind; [reflexivity|].
  rewrite map_last_snoc. now rewrite !length_app.
Qed.

Lemma count_length_refills (sc : sched_context_t) :
  0 <= scRefillCount sc -> Z.of_nat (length (refills sc)) = scRefillCount sc.
Proof. intros Hc. rewrite length_refills. lia. Qed.

Lemma slots_of_typed (l : list refill_t) :
  Forall refill_typed l -> forall i, refill_typed (slots_of l i).
Proof.
  intros Hl i. unfold slots_of.
  destruct (nth_in_or_default (Z.to_nat i) l null_refill) as [Hin| ->].
  - rewrite Forall_forall in Hl. now apply Hl.
  - pose proof modulus_pos. split; cbn; unfold is_u64; lia.
Qed.

(** ** The checkers of the source on the list *)

Lemma refill_sum_loop_q_sum (sc : sched_context_t) (n : nat) (i sum : Z) :
  refill_sum_loop sc n i sum = q_sum (refills_from sc n i) sum.
Proof.
  revert i sum; induction n as [|n IH]; intros i sum; [reflexivity|].
  cbn [refill_sum_loop refills_from q_sum]. apply IH.
Qed.

Lemma refill_sum_refills (sc : sched_context_t) :
  refill_sum sc = q_sum (refills sc) 0.
Proof. apply refill_sum_loop_q_sum. Qed.

Lemma refill_at_least_min_budget_loop_q (sc : sched_context_t) (n : nat) (i : Z) :
  refill_at_least_min_budget_loop sc n i = q_at_least_min_budget (refills_from sc n i).
Proof.
  revert i; induction n as [|n IH]; intros i; [reflexivity|].
  cbn [refill_at_least_min_budget_loop refills_from q_at_least_min_budget].
  now rewrite IH.
Qed.

Lemma refill_at_least_min_budget_refills (sc : sched_context_t) :
  refill_at_least_min_budget sc = q_at_least_min_budget (refills sc).
Proof. apply refill_at_least_min_budget_loop_q. Qed.

Lemma refill_ordered_disjoint_loop_q (sc : sched_context_t) (n : nat) (i j : Z) :
  refill_ordered_disjoint_loop sc n i j
  = q_ordered_disjoint (REFILL_INDEX sc i :: refills_from sc n j).
Proof.
  revert i j; induction n as [|n IH]; intros i j; [reflexivity|].
  cbn [refill_ordered_disjoint_loop refills_from].
  rewrite IH. reflexivity.
Qed.

Lemma refill_ordered_disjoint_refills (sc : sched_context_t) :
  refill_ordered_disjoint sc = q_ordered_disjoint (refills sc).
Proof.
  unfold refill_ordered_disjoint.
  destruct (Z.le_gt_cases 1 (scRefillCount sc)) as [Hc|Hc].
  - rewrite refills_unfold by auto. apply refill_ordered_disjoint_loop_q.
  - rewrite refills_empty by lia.
    now replace (Z.to_nat (scRefillCount sc - 1)) with O by lia.
Qed.

Lemma refill_all_within_period_refills (sc : sched_context_t) :
  ring_wf sc -> 1 <= scRefillCount sc ->
  refill_all_within_period sc
  = (wsub (wadd (rTime (q_tail (refills sc))) (rAmount (q_tail (refills sc))))
          (rTime (q_head (refills sc)))
     <=? scPeriod sc).
Proof.
  intros Hwf Hc. unfold refill_all_within_period.
  now rewrite REFILL_TAIL_refills, REFILL_HEAD_refills.
Qed.

(** ** The operations on the list *)

Ltac destr_if :=
  repeat match goal with
    | |- context [if ?b then _ else _] => destruct b eqn:?
    end.

Lemma refills_nil_iff (sc : sched_context_t) :
  0 <= scRefillCount sc -> (refills sc = [] <-> scRefillCount sc = 0).
Proof.
  intros Hc. split; intros H.
  - apply (f_equal (@length _)) in H. rewrite length_refills in H. cbn in H. lia.
  - apply refills_empty. lia.
Qed.

Lemma refills_set_rAmount_tail (sc : sched_context_t) (f : refill_t -> Z) :
  ring_wf sc -> 1 <= scRefillCount sc ->
  refills (set_rAmount sc (refill_tail_index sc) (f (REFILL_TAIL sc)))
  = map_last (fun t => mk_refill (rTime t) (f t)) (refills sc).
Proof.
  intros Hwf Hc.
  apply (refills_upd_tail sc (fun t => mk_refill (rTime t) (f t))); auto.
Qed.

Lemma refills_set_rTime_tail (sc : sched_context_t) (f : refill_t -> Z) :
  ring_wf sc -> 1 <= scRefillCount sc ->
  refills (set_rTime sc (refill_tail_index sc) (f (REFILL_TAIL sc)))
  = map_last (fun t => mk_refill (f t) (rAmount t)) (refills sc).
Proof.
  intros Hwf Hc.
  apply (refills_upd_tail sc (fun t => mk_refill (f t) (rAmount t))); auto.
Qed.

Lemma refills_set_rAmount_head (sc : sched_context_t) (f : refill_t -> Z) :
  ring_wf sc -> 1 <= scRefillCount sc ->
  refills (set_rAmount sc (scRefillHead sc) (f (REFILL_HEAD sc)))
  = map_head (fun t => mk_refill (rTime t) (f t)) (refills sc).
Proof.
  intros Hwf Hc.
  apply (refills_upd_head sc (fun t => mk_refill (rTime t) (f t))); auto.
Qed.

Lemma refills_set_rTime_head (sc : sched_context_t) (f : refill_t -> Z) :
  ring_wf sc -> 1 <= scRefillCount sc ->
  refills (set_rTime sc (scRefillHead sc) (f (REFILL_HEAD sc)))
  = map_head (fun t => mk_refill (f t) (rAmount t)) (refills sc).
Proof.
  intros Hwf Hc.
  apply (refills_upd_head sc (fun t => mk_refill (f t) (rAmount t))); auto.
Qed.

(** What [schedule_used] leaves alone. *)
Lemma schedule_used_frame (sc : sched_context_t) (new : refill_t) :
  scPeriod (schedule_used sc new) = scPeriod sc
  /\ scBudget (schedule_used sc new) = scBudget sc
  /\ scRefillMax (schedule_used sc new) = scRefillMax sc
  /\ scRefillHead (schedule_used sc new) = scRefillHead sc.
Proof. unfold schedule_used, refill_add_tail. destr_if; auto. Qed.

Lemma ring_wf_set_REFILL_INDEX (sc : sched_context_t) (i : Z) (r : refill_t) :
  ring_wf sc -> ring_wf (set_REFILL_INDEX sc i r).
Proof. exact (fun H => H). Qed.

Lemma ring_wf_add_tail (sc : sched_context_t) (r : refill_t) :
  ring_wf sc -> scRefillCount sc < scRefillMax sc -> ring_wf (refill_add_tail sc r).
Proof.
  intros (Hm & Hh & Hc) Hlt. unfold ring_wf, refill_add_tail; sc_simpl.
  rewrite wadd_small by lia. lia.
Qed.

Lemma ring_wf_pop_head (sc : sched_context_t) :
  ring_wf sc -> 1 <= scRefillCount sc -> ring_wf (snd (refill_pop_head sc)).
Proof.
  intros (Hm & Hh & Hc) Hlt. unfold ring_wf, refill_pop_head; sc_simpl.
  rewrite wsub_small by lia.
  pose proof (refill_next_range sc (scRefillHead sc)) as Hn.
  unfold is_u64 in Hn. lia.
Qed.

Lemma schedule_used_refills (sc : sched_context_t) (new : refill_t) :
  ring_wf sc ->
  refills (schedule_used sc new) = q_schedule_used (scRefillMax sc) (refills sc) new.
Proof.
  intros Hwf. pose proof Hwf as (Hm & Hh & Hc).
  unfold schedule_used, q_schedule_used, refill_empty, refill_full.
  destruct (Z.eqb_spec (scRefillCount sc) 0) as [E|E].
  - rewrite refills_add_tail by (auto; lia).
    now rewrite refills_empty by lia.
  - assert (Hc1 : 1 <= scRefillCount sc) by lia.
    destruct (refills sc) as [|h q] eqn:Eq.
    { apply refills_nil_iff in Eq; lia. }
    rewrite <- Eq. rewrite count_length_refills by lia.
    rewrite <- (REFILL_TAIL_refills sc) by auto.
    destr_if.
    + (* split the tail *)
      rewrite refills_add_tail.
      * f_equal.
        apply (refills_set_rAmount_tail sc
                 (fun t => wsub (rAmount t) (wsub MIN_BUDGET (rAmount new)))); auto.
      * apply ring_wf_set_REFILL_INDEX; auto.
      * sc_simpl. destruct (Z.eqb_spec (scRefillCount sc) (scRefillMax sc)); [|lia].
        rewrite andb_false_r in *. discriminate.
    + (* merge with the tail *)
      etransitivity.
      { apply (refills_set_rAmount_tail
                 (set_rTime sc (refill_tail_index sc)
                            (wsub (rTime new) (rAmount (REFILL_TAIL sc))))
                 (fun t => wadd (rAmount t) (rAmount new))); auto. }
      etransitivity.
      { apply f_equal.
        apply (refills_set_rTime_tail sc (fun t => wsub (rTime new) (rAmount t))); auto. }
      now rewrite map_last_map_last.
    + (* push *)
      apply refills_add_tail; auto.
      apply orb_false_elim in Heqb0 as [_ Hf].
      destruct (Z.eqb_spec (scRefillCount sc) (scRefillMax sc)); [discriminate|lia].
Qed.

Lemma schedule_used_ring_wf (sc : sched_context_t) (new : refill_t) :
  ring_wf sc -> ring_wf (schedule_used sc new).
Proof.
  intros Hwf. pose proof Hwf as (Hm & Hh & Hc).
  unfold schedule_used, refill_empty, refill_full.
  destruct (Z.eqb_spec (scRefillCount sc) 0) as [E|E].
  - apply ring_wf_add_tail; auto; lia.
  - destruct (Z.eqb_spec (scRefillCount sc) (scRefillMax sc)) as [Ef|Ef];
      rewrite ?andb_false_r, ?orb_true_r; cbn [negb andb]; auto.
    destr_if; auto; apply ring_wf_add_tail; auto; sc_simpl; lia.
Qed.

(** [refill_budget_check] on the list. *)
Lemma refill_budget_check_refills (ns : node_state) (sc : sched_context_t) (usage : Z) :
  ring_wf sc -> 1 <= scRefillCount sc ->
  refills (refill_budget_check ns sc usage)
  = q_budget_check ns (scPeriod sc) (scBudget sc) (scRefillMax sc) (refills sc) usage.
Proof.
  intros Hwf Hc1. pose proof Hwf as (Hm & Hh & Hc).
  assert (Hpop : ring_wf (snd (refill_pop_head sc))) by (apply ring_wf_pop_head; auto).
  assert (Hpopq : refills (snd (refill_pop_head sc)) = tl (refills sc))
    by (apply refills_pop_head; lia).
  unfold refill_budget_check, q_budget_check, refill_ready; cbn zeta.
  rewrite <- (REFILL_HEAD_refills sc) by auto.
  destruct (negb _ || _) eqn:Hover.
  - (* overrun *)
    rewrite schedule_used_refills by (unfold ring_wf; sc_simpl; lia).
    now rewrite refills_empty by (sc_simpl; lia).
  - destruct (usage =? rAmount (REFILL_HEAD sc)) eqn:Hexact.
    + rewrite schedule_used_refills by auto. now rewrite Hpopq.
    + destruct (MIN_BUDGET <=? wsub (rAmount (REFILL_HEAD sc)) usage) eqn:Hrem.
      * rewrite schedule_used_refills by auto. sc_simpl. f_equal.
        etransitivity.
        { apply (refills_set_rTime_head
                   (set_rAmount sc (scRefillHead sc) (wsub (rAmount (REFILL_HEAD sc)) usage))
                   (fun t => wadd (rTime t) usage)); auto. }
        etransitivity.
        { apply f_equal.
          apply (refills_set_rAmount_head sc
                   (fun t => wsub (rAmount t) usage)); auto. }
        rewrite map_head_map_head. rewrite (REFILL_HEAD_refills sc) by auto.
        destruct (refills sc); reflexivity.
      * unfold refill_empty.
        assert (Hcp : scRefillCount (snd (refill_pop_head sc)) = scRefillCount sc - 1).
        { unfold refill_pop_head; sc_simpl. apply wsub_small. lia. }
        destruct (Z.eqb_spec (scRefillCount (snd (refill_pop_head sc))) 0) as [E|E].
        -- rewrite schedule_used_refills by auto.
           rewrite <- Hpopq. now rewrite refills_empty by lia.
        -- rewrite schedule_used_refills by auto. sc_simpl.
           rewrite <- Hpopq.
           destruct (refills (snd (refill_pop_head sc))) as [|n q'] eqn:Eq.
           { apply refills_nil_iff in Eq; lia. }
           rewrite <- Eq. f_equal.
           set (sc1 := snd (refill_pop_head sc)) in *.
           etransitivity.
           { apply (refills_set_rAmount_head
                      (set_rTime sc1 (scRefillHead sc1)
                         (wsub (rTime (REFILL_HEAD sc1)) (wsub (rAmount (REFILL_HEAD sc)) usage)))
                      (fun t => wadd (rAmount t) (wsub (rAmount (REFILL_HEAD sc)) usage)));
               auto. sc_simpl. lia. }
           etransitivity.
           { apply f_equal.
             apply (refills_set_rTime_head sc1
                      (fun t => wsub (rTime t) (wsub (rAmount (REFILL_HEAD sc)) usage)));
               auto. lia. }
           now rewrite map_head_map_head.
Qed.

(** The merging loop of [refill_unblock_check] on the list. *)
Lemma refill_unblock_merge_refills (ns : node_state) :
  forall (rest : list refill_t) (bound : nat) (sc : sched_context_t) (h : refill_t),
    ring_wf sc -> refills sc = h :: rest -> (length rest <= bound)%nat ->
    refills (refill_unblock_merge ns bound sc)
    = q_unblock_merge (wadd (ksCurTime ns) getKernelWcetTicks) h rest
    /\ ring_wf (refill_unblock_merge ns bound sc)
    /\ scPeriod (refill_unblock_merge ns bound sc) = scPeriod sc
    /\ scBudget (refill_unblock_merge ns bound sc) = scBudget sc
    /\ scRefillMax (refill_unblock_merge ns bound sc) = scRefillMax sc.
Proof.
  induction rest as [|n rest' IH]; intros bound sc h Hwf Hq Hb.
  - assert (Hc : scRefillCount sc = 1).
    { rewrite <- count_length_refills by apply Hwf. now rewrite Hq. }
    destruct bound as [|bound]; cbn [refill_unblock_merge q_unblock_merge];
      unfold refill_size; rewrite ?Hc; cbn [Z.ltb Z.compare Pos.compare]; auto.
  - assert (Hc : scRefillCount sc = Z.of_nat (S (S (length rest')))).
    { rewrite <- count_length_refills by apply Hwf. now rewrite Hq. }
    destruct bound as [|bound]; [cbn in Hb; lia|].
    cbn [refill_unblock_merge q_unblock_merge]. unfold refill_size.
    destruct (Z.ltb_spec 1 (scRefillCount sc)); [|lia].
    rewrite REFILL_HEAD_refills, REFILL_next_refills by lia.
    rewrite Hq. cbn [q_head tl hd].
    destruct (rTime n <=? wadd (rTime h) (rAmount h)); [|auto].
    set (sc1 := snd (refill_pop_head sc)).
    assert (Hwf1 : ring_wf sc1) by (apply ring_wf_pop_head; auto; lia).
    assert (Hq1 : refills sc1 = n :: rest').
    { unfold sc1. rewrite refills_pop_head.
      - now rewrite Hq.
      - destruct Hwf as (? & ? & ?). lia. }
    assert (Hc1 : 1 <= scRefillCount sc1).
    { rewrite <- count_length_refills by apply Hwf1. rewrite Hq1. cbn [length]. lia. }
    match goal with
    | |- context [refill_unblock_merge ns bound ?s] => set (sc2 := s)
    end.
    assert (Hwf2 : ring_wf sc2) by exact Hwf1.
    assert (Hq2 : refills sc2
                  = mk_refill (wadd (ksCurTime ns) getKernelWcetTicks)
                              (wadd (rAmount n) (rAmount h)) :: rest').
    { unfold sc2. etransitivity.
      { apply (refills_set_rTime_head
                 (set_rAmount sc1 (scRefillHead sc1)
                              (wadd (rAmount (REFILL_HEAD sc1)) (rAmount h)))
                 (fun _ => wadd (ksCurTime ns) getKernelWcetTicks)); auto. }
      etransitivity.
      { apply f_equal.
        apply (refills_set_rAmount_head sc1 (fun t => wadd (rAmount t) (rAmount h))); auto. }
      rewrite map_head_map_head, Hq1. reflexivity. }
    destruct (IH bound sc2 _ Hwf2 Hq2) as (E1 & E2 & E3 & E4 & E5).
    { cbn in Hb. lia. }
    repeat split; auto; try apply E2.
Qed.

Lemma refill_unblock_check_refills (ns : node_state) (sc : sched_context_t) :
  ring_wf sc -> 1 <= scRefillCount sc ->
  let sc' := snd (refill_unblock_check ns sc) in
  refills sc'
  = (if isRoundRobin sc then refills sc
     else if refill_ready ns sc then
            q_unblock_merge (wadd (ksCurTime ns) getKernelWcetTicks)
              (mk_refill (wadd (ksCurTime ns) getKernelWcetTicks)
                         (rAmount (q_head (refills sc))))
              (tl (refills sc))
          else refills sc)
  /\ ring_wf sc'
  /\ scPeriod sc' = scPeriod sc
  /\ scBudget sc' = scBudget sc
  /\ scRefillMax sc' = scRefillMax sc.
Proof.
  intros Hwf Hc. cbn zeta. unfold refill_unblock_check.
  destruct (isRoundRobin sc); [cbn [snd]; auto|].
  destruct (refill_ready ns sc); [|cbn [snd]; auto].
  cbn [snd ksCurTime].
  set (sc1 := set_rTime sc _ _).
  assert (Hwf1 : ring_wf sc1) by exact Hwf.
  assert (Hq1 : refills sc1
                = mk_refill (wadd (ksCurTime ns) getKernelWcetTicks)
                            (rAmount (q_head (refills sc))) :: tl (refills sc)).
  { unfold sc1. etransitivity.
    { apply (refills_set_rTime_head sc
               (fun _ => wadd (ksCurTime ns) getKernelWcetTicks)); auto. }
    rewrite (refills_unfold sc) by auto. reflexivity. }
  pose proof (refill_unblock_merge_refills
                (mk_ns (ksCurTime ns) true) (tl (refills sc))
                (Z.to_nat (refill_size sc1)) sc1 _ Hwf1 Hq1) as H.
  cbn [ksCurTime] in H. apply H.
  unfold refill_size, sc1; sc_simpl.
  rewrite (refills_unfold sc) by auto. cbn [tl].
  rewrite length_refills_from. lia.
Qed.

(** ** Queues in unbounded arithmetic *)

Lemma MIN_BUDGET_range : 0 <= MIN_BUDGET < modulus.
Proof. apply wmul_range. Qed.

Lemma q_nonempty_last (q : list refill_t) :
  q <> [] -> exists p t, q = p ++ [t].
Proof.
  intros H. destruct (exists_last H) as (p & t & E). eauto.
Qed.

Lemma q_tail_cons (r : refill_t) (q : list refill_t) :
  q <> [] -> q_tail (r :: q) = q_tail q.
Proof. destruct q; [contradiction|reflexivity]. Qed.

Lemma q_head_snoc (p : list refill_t) (t : refill_t) :
  q_head (p ++ [t]) = match p with [] => t | h :: _ => h end.
Proof. destruct p; reflexivity. Qed.

Lemma q_total_app (p q : list refill_t) :
  q_total (p ++ q) = q_total p + q_total q.
Proof. induction p as [|r p IH]; cbn [app q_total]; lia. Qed.

Lemma q_total_nonneg (q : list refill_t) :
  Forall refill_typed q -> 0 <= q_total q.
Proof.
  induction 1 as [|r q [_ Hr] _ IH]; cbn [q_total]; unfold is_u64 in *; lia.
Qed.

Lemma q_chain_cons (r n : refill_t) (q : list refill_t) :
  q_chain (r :: n :: q) <-> r_end r <= rTime n /\ q_chain (n :: q).
Proof. reflexivity. Qed.

Lemma q_chain_tl (r : refill_t) (q : list refill_t) :
  q_chain (r :: q) -> q_chain q.
Proof. destruct q; [constructor|]. now intros [_ H]. Qed.

(** Replacing the last refill by one that starts no earlier. *)
Lemma q_chain_snoc_later (p : list refill_t) (t t' : refill_t) :
  q_chain (p ++ [t]) -> rTime t <= rTime t' -> q_chain (p ++ [t']).
Proof.
  intros H Ht. induction p as [|r p IH]; [constructor|].
  destruct p as [|n p].
  - cbn in *. lia.
  - cbn [app] in *. apply q_chain_cons in H as [H1 H2].
    apply q_chain_cons. auto.
Qed.

(** Appending a refill that starts after the last one has ended. *)
Lemma q_chain_snoc (p : list refill_t) (t n : refill_t) :
  q_chain (p ++ [t]) -> r_end t <= rTime n -> q_chain ((p ++ [t]) ++ [n]).
Proof.
  intros H Ht. induction p as [|r p IH]; [cbn; auto|].
  destruct p as [|m p].
  - cbn in *. lia.
  - cbn [app] in *. apply q_chain_cons in H as [H1 H2].
    apply q_chain_cons. auto.
Qed.

(** Replacing the head by a refill that ends at the same instant. *)
Lemma q_chain_head (h h' : refill_t) (q : list refill_t) :
  q_chain (h :: q) -> r_end h' <= r_end h -> q_chain (h' :: q).
Proof.
  destruct q as [|n q]; [constructor|].
  intros [H1 H2] H. split; [lia|auto].
Qed.

(** The refills of an ordered queue lie between the start of its head and
    the end of its tail. *)
Lemma q_chain_span (q : list refill_t) :
  q <> [] -> Forall refill_typed q -> q_chain q ->
  rTime (q_head q) + q_total q <= r_end (q_tail q).
Proof.
  intros Hne Ht. induction Ht as [|r q [Hr1 Hr2] Ht IH]; [contradiction|].
  intros Hc. destruct q as [|n q].
  - cbn. unfold r_end. lia.
  - rewrite q_tail_cons by discriminate.
    apply q_chain_cons in Hc as [H1 H2].
    specialize (IH ltac:(discriminate) H2).
    cbn [q_head hd q_total] in *. unfold r_end in *. lia.
Qed.

Lemma q_chain_ends (q : list refill_t) :
  Forall refill_typed q -> q_chain q -> r_end (q_tail q) < modulus ->
  Forall (fun r => r_end r < modulus) q.
Proof.
  intros Ht. induction Ht as [|r q [Hr1 Hr2] Ht IH]; [constructor|].
  intros Hc He. destruct q as [|n q].
  - constructor; auto.
  - rewrite q_tail_cons in He by discriminate.
    apply q_chain_cons in Hc as [H1 H2].
    constructor; auto.
    inversion Ht as [|? ? [Hn _] _]; subst. unfold is_u64 in *. lia.
Qed.

Lemma Forall_snoc (P : refill_t -> Prop) (p : list refill_t) (t : refill_t) :
  Forall P p -> P t -> Forall P (p ++ [t]).
Proof. intros Hp Ht. apply Forall_app; split; auto. Qed.

Lemma Forall_snoc_inv (P : refill_t -> Prop) (p : list refill_t) (t : refill_t) :
  Forall P (p ++ [t]) -> Forall P p /\ P t.
Proof.
  intros H. apply Forall_app in H as [Hp Ht]. split; auto.
  now inversion Ht.
Qed.

(** Side conditions on the fields of a refill. *)
Ltac fields :=
  unfold refill_typed, r_end, is_u64 in *;
  cbn [rTime rAmount q_total q_head hd] in *; lia.

(** ** [schedule_used] preserves the shape of a non-empty queue *)

Lemma q_schedule_used_ok (max : Z) (q : list refill_t) (new : refill_t) :
  q <> [] ->
  Forall refill_typed q ->
  q_chain q ->
  Forall (fun r => MIN_BUDGET <= rAmount r) q ->
  refill_typed new ->
  r_end (q_tail q) <= rTime new ->
  r_end new < modulus ->
  2 * MIN_BUDGET < modulus ->
  Z.of_nat (length q) <= max ->
  let q' := q_schedule_used max q new in
  q' <> []
  /\ Forall refill_typed q'
  /\ q_chain q'
  /\ Forall (fun r => MIN_BUDGET <= rAmount r) q'
  /\ q_total q' = q_total q + rAmount new
  /\ r_end (q_tail q') = r_end new
  /\ rTime (q_head q) <= rTime (q_head q')
  /\ Z.of_nat (length q') <= max.
Proof.
  intros Hne Hty Hch Hmin [Hn1 Hn2] Hend Hnew HMB Hlen q'. subst q'.
  pose proof MIN_BUDGET_range as HMBr.
  unfold q_schedule_used.
  destruct q as [|h0 q0]; [contradiction|].
  destruct (q_nonempty_last (h0 :: q0) Hne) as (p & t & E).
  rewrite E in *. clear E h0 q0.
  rewrite q_tail_snoc in *.
  apply Forall_snoc_inv in Hty as [Htp [Ht1 Ht2]].
  apply Forall_snoc_inv in Hmin as [Hmp Hmt].
  unfold wmul. rewrite (wrap_small (2 * MIN_BUDGET)) by lia.
  unfold r_end, is_u64 in *.
  rewrite (wadd_small (rAmount t) (rAmount new)) by lia.
  rewrite length_app in *. cbn [length] in *.
  destruct (Z.ltb_spec (rAmount new) MIN_BUDGET) as [Hlt|Hge];
    destruct (Z.eqb_spec (Z.of_nat (length p + 1)) max) as [Hfull|Hroom];
    cbn [andb negb orb].
  - (* undersized, full: merge *)
    rewrite map_last_snoc, wsub_small, wadd_small by lia.
    rewrite q_tail_snoc, !q_head_snoc, !q_total_app, length_app; cbn [q_total length rTime rAmount].
    repeat split; try lia.
    + now destruct p.
    + apply Forall_snoc; auto; fields.
    + apply (q_chain_snoc_later p t); auto. fields.
    + apply Forall_snoc; auto; fields.
    + destruct p; cbn; lia.
  - destruct (Z.leb_spec (2 * MIN_BUDGET) (rAmount t + rAmount new)) as [Hsp|Hsp].
    + (* undersized, room, the tail can spare: split *)
      rewrite map_last_snoc. rewrite (wsub_small MIN_BUDGET) by lia.
      rewrite !wsub_small, wadd_small by lia.
      rewrite q_tail_snoc, !q_head_snoc, !q_total_app, !length_app;
        cbn [q_total length rTime rAmount].
      repeat split; try lia.
      * now destruct p.
      * repeat apply Forall_snoc; auto; fields.
      * apply q_chain_snoc; [|fields].
        apply (q_chain_snoc_later p t); auto. fields.
      * repeat apply Forall_snoc; auto; fields.
      * destruct p; cbn; lia.
    + (* undersized, the tail cannot spare: merge *)
      rewrite map_last_snoc, wsub_small, wadd_small by lia.
      rewrite q_tail_snoc, !q_head_snoc, !q_total_app, length_app; cbn [q_total length rTime rAmount].
      repeat split; try lia.
      * now destruct p.
      * apply Forall_snoc; auto; fields.
      * apply (q_chain_snoc_later p t); auto. fields.
      * apply Forall_snoc; auto; fields.
      * destruct p; cbn; lia.
  - (* full: merge *)
    rewrite map_last_snoc, wsub_small, wadd_small by lia.
    rewrite q_tail_snoc, !q_head_snoc, !q_total_app, length_app; cbn [q_total length rTime rAmount].
    repeat split; try lia.
    + now destruct p.
    + apply Forall_snoc; auto; fields.
    + apply (q_chain_snoc_later p t); auto. fields.
    + apply Forall_snoc; auto; fields.
    + destruct p; cbn; lia.
  - (* push *)
    rewrite q_tail_snoc, !q_head_snoc, !q_total_app, !length_app;
      cbn [q_total length rTime rAmount].
    repeat split; try lia.
    + now destruct p.
    + repeat apply Forall_snoc; auto; fields.
    + apply q_chain_snoc; auto.
    + repeat apply Forall_snoc; auto; fields.
    + destruct p; cbn; lia.
Qed.

(** ** The checkers and the unbounded invariants *)

Lemma q_ordered_disjoint_chain (q : list refill_t) :
  Forall refill_typed q -> Forall (fun r => r_end r < modulus) q ->
  q_ordered_disjoint q = true -> q_chain q.
Proof.
  intros Ht. induction Ht as [|r q Hr Ht IH]; [constructor|].
  intros He Ho. destruct q as [|n q]; [constructor|].
  inversion He as [|? ? Her He']; subst.
  cbn [q_ordered_disjoint] in Ho.
  destruct (Z.leb_spec (wadd (rTime r) (rAmount r)) (rTime n)) as [Hle|];
    cbn [negb] in Ho; [|discriminate].
  rewrite wadd_small in Hle by fields.
  apply q_chain_cons. split; auto.
Qed.

Lemma q_chain_ordered_disjoint (q : list refill_t) :
  Forall refill_typed q -> q_chain q -> q_ordered_disjoint q = true.
Proof.
  intros Ht. induction Ht as [|r q Hr Ht IH]; [reflexivity|].
  intros Hc. destruct q as [|n q]; [reflexivity|].
  apply q_chain_cons in Hc as [H1 H2].
  cbn [q_ordered_disjoint].
  inversion Ht as [|? ? Hn _]; subst.
  rewrite wadd_small by fields.
  destruct (Z.leb_spec (rTime r + rAmount r) (rTime n)); [|fields].
  cbn [negb]. auto.
Qed.

Lemma q_at_least_min_budget_Forall (q : list refill_t) :
  q_at_least_min_budget q = true <-> Forall (fun r => MIN_BUDGET <= rAmount r) q.
Proof.
  induction q as [|r q IH]; cbn [q_at_least_min_budget].
  - split; auto.
  - destruct (Z.leb_spec MIN_BUDGET (rAmount r)); cbn [negb].
    + rewrite IH. split; [now constructor|now inversion 1].
    + split; [discriminate|]. inversion 1; lia.
Qed.

Lemma q_sum_total (q : list refill_t) :
  Forall refill_typed q ->
  forall sum, 0 <= sum -> sum + q_total q < modulus -> q_sum q sum = sum + q_total q.
Proof.
  induction 1 as [|r q Hr Ht IH]; intros sum Hs Hb; cbn [q_sum q_total] in *; [lia|].
  pose proof (q_total_nonneg q Ht).
  rewrite wadd_small by fields.
  rewrite IH by fields. lia.
Qed.

Lemma q_inv_head_le_end (period budget : Z) (q : list refill_t) :
  q_inv period budget q ->
  rTime (q_head q) + budget <= r_end (q_tail q) /\ 0 <= budget <= period.
Proof.
  intros [Hne Ht Hc Hm Htot Hw He].
  pose proof (q_chain_span q Hne Ht Hc).
  pose proof (q_total_nonneg q Ht). lia.
Qed.

(** The checks of the source hold of a queue that has the invariants. *)
Lemma q_inv_checks (period budget : Z) (q : list refill_t) :
  q_inv period budget q ->
  q_ordered_disjoint q = true
  /\ q_at_least_min_budget q = true
  /\ q_sum q 0 = budget
  /\ (wsub (wadd (rTime (q_tail q)) (rAmount (q_tail q))) (rTime (q_head q))
      <=? period) = true.
Proof.
  intros Hinv. pose proof (q_inv_head_le_end _ _ _ Hinv) as [Hs Hb].
  destruct Hinv as [Hne Ht Hc Hm Htot Hw He].
  assert (Hh : refill_typed (q_head q)).
  { destruct q; [contradiction|]. now inversion Ht. }
  repeat split.
  - now apply q_chain_ordered_disjoint.
  - now apply q_at_least_min_budget_Forall.
  - rewrite q_sum_total; auto; try lia.
    pose proof (q_chain_span q Hne Ht Hc). fields.
  - assert (Htl : refill_typed (q_tail q)).
    { destruct (q_nonempty_last q Hne) as (p & t & ->).
      rewrite q_tail_snoc. now apply Forall_snoc_inv in Ht. }
    rewrite wadd_small by fields. rewrite wsub_small by fields.
    apply Z.leb_le. fields.
Qed.

(** Conversely, when no refill ends beyond the last representable
    instant. *)
Lemma checks_q_inv (period budget : Z) (q : list refill_t) :
  q <> [] -> Forall refill_typed q -> Forall (fun r => r_end r < modulus) q ->
  q_ordered_disjoint q = true ->
  q_at_least_min_budget q = true ->
  q_sum q 0 = budget ->
  (wsub (wadd (rTime (q_tail q)) (rAmount (q_tail q))) (rTime (q_head q))
   <=? period) = true ->
  q_inv period budget q.
Proof.
  intros Hne Ht He Ho Hm Hs Hw.
  assert (Hc : q_chain q) by now apply q_ordered_disjoint_chain.
  assert (Hh : refill_typed (q_head q)).
  { destruct q; [contradiction|]. now inversion Ht. }
  assert (Htl : refill_typed (q_tail q) /\ r_end (q_tail q) < modulus).
  { destruct (q_nonempty_last q Hne) as (p & t & ->).
    rewrite q_tail_snoc.
    apply Forall_snoc_inv in Ht. apply Forall_snoc_inv in He. tauto. }
  destruct Htl as [Htl Hel].
  pose proof (q_chain_span q Hne Ht Hc) as Hsp.
  pose proof (q_total_nonneg q Ht) as Hnn.
  constructor; auto.
  - now apply q_at_least_min_budget_Forall.
  - rewrite q_sum_total in Hs; auto; fields.
  - apply Z.leb_le in Hw.
    rewrite wadd_small in Hw by fields. rewrite wsub_small in Hw by fields.
    fields.
Qed.

(** ** [refill_budget_check] on a queue that has the invariants *)

(** The first refill of the rest of an ordered queue starts after the head
    has ended. *)
Lemma q_chain_second (h n : refill_t) (q : list refill_t) :
  q_chain (h :: n :: q) -> r_end h <= rTime n.
Proof. now intros [H _]. Qed.

Lemma q_inv_single (period budget : Z) (r : refill_t) :
  refill_typed r -> MIN_BUDGET <= rAmount r -> rAmount r = budget ->
  budget <= period -> r_end r < modulus ->
  q_inv period budget [r].
Proof.
  intros Ht Hm Hb Hp He. constructor; cbn [q_total q_tail q_head last hd]; auto.
  - discriminate.
  - constructor.
  - lia.
  - fields.
Qed.

Lemma q_budget_check_ok (ns : node_state) (period budget max : Z)
      (q : list refill_t) (usage : Z) :
  q_inv period budget q ->
  is_u64 period -> is_u64 usage ->
  Z.of_nat (length q) <= max ->
  rTime (q_head q) + period + rAmount (q_head q) < modulus ->
  (rTime (q_head q) <=? wadd (ksCurTime ns) getKernelWcetTicks) = true ->
  usage <= rAmount (q_head q) ->
  let q' := q_budget_check ns period budget max q usage in
  q_inv period budget q' /\ Z.of_nat (length q') <= max.
Proof.
  intros Hinv Hp Hu Hlen Hrep Hready Hle q'. subst q'.
  pose proof MIN_BUDGET_range as HMBr.
  pose proof (q_inv_head_le_end _ _ _ Hinv) as [Hspan Hbp].
  pose proof (q_chain_ends q (qi_typed _ _ _ Hinv) (qi_chain _ _ _ Hinv)
                (qi_end _ _ _ Hinv)) as Hends.
  destruct Hinv as [Hne Ht Hc Hm Htot Hw He].
  destruct q as [|h b]; [contradiction|]. clear Hne.
  cbn [q_head hd] in *.
  inversion Ht as [|? ? [Hh1 Hh2] Htb]; subst.
  inversion Hm as [|? ? Hmh Hmb]; subst.
  inversion Hends as [|? ? Heh Heb]; subst.
  pose proof (q_total_nonneg b Htb) as Hnnb.
  cbn [q_total] in *.
  assert (HMB2 : 2 * MIN_BUDGET < modulus) by fields.
  unfold q_budget_check; cbn zeta. cbn [q_head hd tl rTime rAmount].
  rewrite Hready. cbn [negb orb].
  destruct (Z.ltb_spec (rAmount h) usage) as [|_]; [lia|].
  rewrite (wadd_small (rTime h) period) by fields.
  assert (Hused : refill_typed (mk_refill (rTime h + period) usage)) by fields.
  assert (Huse : r_end (mk_refill (rTime h + period) usage) < modulus) by fields.
  destruct (Z.eqb_spec usage (rAmount h)) as [Hex|Hne].
  - (* exact consumption *)
    destruct b as [|n b'].
    + cbn [q_schedule_used length q_tail last] in *. split; [|lia].
      apply q_inv_single; fields.
    + pose proof (q_chain_second _ _ _ Hc) as H2.
      rewrite q_tail_cons in Hw, He by discriminate.
      assert (A1 : n :: b' <> []) by discriminate.
      assert (A3 : q_chain (n :: b')) by now apply q_chain_tl in Hc.
      assert (A5 : r_end (q_tail (n :: b')) <= rTime (mk_refill (rTime h + period) usage))
        by fields.
      assert (A7 : Z.of_nat (length (n :: b')) <= max) by (cbn [length] in *; lia).
      destruct (q_schedule_used_ok max _ _ A1 Htb A3 Hmb Hused A5 Huse HMB2 A7)
        as (R1 & R2 & R3 & R4 & R5 & R6 & R7 & R8).
      split; auto. apply mk_q_inv; auto; fields.
  - rewrite (wsub_small (rAmount h) usage) by fields.
    destruct (Z.leb_spec MIN_BUDGET (rAmount h - usage)) as [Hrem|Hrem].
    + (* the head keeps a viable remnant *)
      rewrite (wadd_small (rTime h) usage) by fields.
      cbn [map_head].
      assert (A1 : mk_refill (rTime h + usage) (rAmount h - usage) :: b <> [])
        by discriminate.
      assert (A2 : Forall refill_typed
                     (mk_refill (rTime h + usage) (rAmount h - usage) :: b))
        by (constructor; [fields|auto]).
      assert (A3 : q_chain (mk_refill (rTime h + usage) (rAmount h - usage) :: b))
        by (apply (q_chain_head h); [auto|fields]).
      assert (A4 : Forall (fun r => MIN_BUDGET <= rAmount r)
                     (mk_refill (rTime h + usage) (rAmount h - usage) :: b))
        by (constructor; [fields|auto]).
      assert (A5 : r_end (q_tail (mk_refill (rTime h + usage) (rAmount h - usage) :: b))
                   <= rTime (mk_refill (rTime h + period) usage)).
      { destruct b as [|n b'].
        - cbn [q_tail last]. fields.
        - rewrite q_tail_cons in Hw, He by discriminate.
          rewrite q_tail_cons by discriminate. fields. }
      destruct (q_schedule_used_ok max _ _ A1 A2 A3 A4 Hused A5 Huse HMB2 Hlen)
        as (R1 & R2 & R3 & R4 & R5 & R6 & R7 & R8).
      split; auto. apply mk_q_inv; auto; fields.
    + (* the remnant goes to what follows *)
      destruct b as [|n b'].
      * rewrite wsub_small, wadd_small by fields.
        cbn [length q_tail last] in *. split; [|lia].
        apply q_inv_single; fields.
      * pose proof (q_chain_second _ _ _ Hc) as H2.
        inversion Htb as [|? ? [Hn1 Hn2] Htb']; subst.
        inversion Hmb as [|? ? Hmn Hmb']; subst.
        inversion Heb as [|? ? Hen Heb']; subst.
        rewrite q_tail_cons in Hw, He by discriminate.
        cbn [map_head].
        rewrite wsub_small, wadd_small by fields.
        assert (A1 : mk_refill (rTime n - (rAmount h - usage))
                               (rAmount n + (rAmount h - usage)) :: b' <> [])
          by discriminate.
        assert (A2 : Forall refill_typed
                       (mk_refill (rTime n - (rAmount h - usage))
                                  (rAmount n + (rAmount h - usage)) :: b'))
          by (constructor; [fields|auto]).
        assert (A3 : q_chain (mk_refill (rTime n - (rAmount h - usage))
                                        (rAmount n + (rAmount h - usage)) :: b')).
        { apply q_chain_tl in Hc. apply (q_chain_head n); [auto|fields]. }
        assert (A4 : Forall (fun r => MIN_BUDGET <= rAmount r)
                       (mk_refill (rTime n - (rAmount h - usage))
                                  (rAmount n + (rAmount h - usage)) :: b'))
          by (constructor; [fields|auto]).
        assert (A5 : r_end (q_tail (mk_refill (rTime n - (rAmount h - usage))
                                              (rAmount n + (rAmount h - usage)) :: b'))
                     <= rTime (mk_refill (rTime h + period) usage)).
        { destruct b' as [|m b''].
          - cbn [q_tail last] in *. fields.
          - rewrite q_tail_cons in Hw, He by discriminate.
            rewrite q_tail_cons by discriminate. fields. }
        assert (A7 : Z.of_nat (length (mk_refill (rTime n - (rAmount h - usage))
                                                 (rAmount n + (rAmount h - usage)) :: b'))
                     <= max) by (cbn [length] in *; lia).
        destruct (q_schedule_used_ok max _ _ A1 A2 A3 A4 Hused A5 Huse HMB2 A7)
          as (R1 & R2 & R3 & R4 & R5 & R6 & R7 & R8).
        split; auto. apply mk_q_inv; auto; fields.
Qed.

(** ** The merging loop of [refill_unblock_check] on a queue *)

Lemma q_unblock_merge_ok (t period budget : Z) :
  0 <= t -> t + budget < modulus -> budget <= period ->
  forall (rest : list refill_t) (h : refill_t),
    refill_typed h -> rTime h = t -> MIN_BUDGET <= rAmount h ->
    Forall refill_typed rest -> q_chain rest ->
    Forall (fun r => MIN_BUDGET <= rAmount r) rest ->
    rAmount h + q_total rest = budget ->
    (rest <> [] ->
     r_end (q_tail rest) - t <= period /\ r_end (q_tail rest) < modulus) ->
    q_inv period budget (q_unblock_merge t h rest)
    /\ (length (q_unblock_merge t h rest) <= S (length rest))%nat.
Proof.
  intros Ht0 Htb Hbp.
  induction rest as [|n rest' IH]; intros h Hh Hht Hhm Hty Hch Hmin Htot Hlast.
  - cbn [q_unblock_merge length q_total] in *. split; [|lia].
    apply q_inv_single; fields.
  - inversion Hty as [|? ? [Hn1 Hn2] Hty']; subst.
    inversion Hmin as [|? ? Hmn Hmin']; subst.
    pose proof (q_total_nonneg rest' Hty') as Hnn.
    cbn [q_unblock_merge q_total] in *.
    rewrite (wadd_small (rTime h) (rAmount h)) by fields.
    destruct (Z.leb_spec (rTime n) (rTime h + rAmount h)) as [Hov|Hgap].
    + rewrite wadd_small by fields.
      assert (B1 : q_chain rest') by now apply q_chain_tl in Hch.
      assert (B2 : rest' <> [] ->
                   r_end (q_tail rest') - rTime h <= period
                   /\ r_end (q_tail rest') < modulus).
      { intros Hne. rewrite q_tail_cons in Hlast by auto.
        apply Hlast. discriminate. }
      destruct (IH (mk_refill (rTime h) (rAmount n + rAmount h))) as [R1 R2];
        auto; try fields.
    + split; [|cbn [length]; lia].
      destruct Hlast as [Hl1 Hl2]; [discriminate|].
      apply mk_q_inv; auto.
      * discriminate.
      * apply q_chain_cons. split; [fields|auto].
Qed.

(** The head of the merged queue: it starts at [t] and has at least the
    amount of the old head. *)
Lemma q_unblock_merge_head (t : Z) :
  forall (rest : list refill_t) (h : refill_t),
    rTime h = t -> 0 <= rAmount h ->
    Forall refill_typed rest -> rAmount h + q_total rest < modulus ->
    rTime (q_head (q_unblock_merge t h rest)) = t
    /\ rAmount h <= rAmount (q_head (q_unblock_merge t h rest)) < modulus.
Proof.
  induction rest as [|n rest' IH]; intros h Hht Hh Hty Htot.
  - cbn [q_unblock_merge q_head hd q_total] in *. lia.
  - inversion Hty as [|? ? [Hn1 Hn2] Hty']; subst.
    pose proof (q_total_nonneg rest' Hty') as Hnn.
    cbn [q_unblock_merge q_total] in *.
    destruct (rTime n <=? wadd (rTime h) (rAmount h)).
    + destruct (IH (mk_refill (rTime h) (wadd (rAmount n) (rAmount h)))) as [R1 R2];
        auto; rewrite ?wadd_small in * by fields; try fields.
    + cbn [q_head hd]. fields.
Qed.

Lemma q_inv_head (period budget : Z) (q : list refill_t) :
  q_inv period budget q ->
  refill_typed (q_head q) /\ MIN_BUDGET <= rAmount (q_head q) <= budget.
Proof.
  intros [Hne Ht Hc Hm Htot Hw He].
  destruct q as [|h b]; [contradiction|].
  inversion Ht as [|? ? Hh Htb]; subst. inversion Hm; subst.
  pose proof (q_total_nonneg b Htb). fields.
Qed.

Lemma q_unblock_merge_nonempty (t : Z) (rest : list refill_t) (h : refill_t) :
  q_unblock_merge t h rest <> [].
Proof.
  revert h; induction rest as [|n rest' IH]; intros h; cbn [q_unblock_merge].
  - discriminate.
  - destruct (_ <=? _); [apply IH|discriminate].
Qed.

(** [schedule_used] touches the tail only: the head of a queue of two or
    more refills is kept, and the queue grows by one refill at most. *)
Lemma q_schedule_used_head (max : Z) (q : list refill_t) (new : refill_t) :
  (2 <= length q)%nat -> q_head (q_schedule_used max q new) = q_head q.
Proof.
  destruct q as [|h [|n q']]; cbn [length]; try lia. intros _.
  unfold q_schedule_used. destr_if; reflexivity.
Qed.

Lemma q_schedule_used_length (max : Z) (q : list refill_t) (new : refill_t) :
  q <> [] ->
  length (q_schedule_used max q new) = length q
  \/ length (q_schedule_used max q new) = S (length q).
Proof.
  destruct q as [|h q']; [contradiction|]. intros _.
  unfold q_schedule_used.
  destr_if; rewrite ?length_app, ?length_map_last; cbn [length]; lia.
Qed.

(** ** The invariants of a scheduling context *)

Lemma refills_from_typed (sc : sched_context_t) (n : nat) (i : Z) :
  (forall j, refill_typed (scRefills sc j)) ->
  Forall refill_typed (refills_from sc n i).
Proof.
  intros H. revert i; induction n as [|n IH]; intros i; constructor; auto.
Qed.

Lemma refills_typed (sc : sched_context_t) :
  sc_wf sc -> Forall refill_typed (refills sc).
Proof. intros []. now apply refills_from_typed. Qed.

Lemma refills_nonempty (sc : sched_context_t) :
  1 <= scRefillCount sc -> refills sc <> [].
Proof. intros Hc. now rewrite refills_unfold. Qed.

(** The checks of the debug build give the invariants in unbounded
    arithmetic when no refill ends beyond the last representable instant. *)
Lemma sc_q_inv (sc : sched_context_t) :
  sc_wf sc -> universal_invariants sc -> no_overflow sc ->
  q_inv (scPeriod sc) (scBudget sc) (refills sc).
Proof.
  intros Hwf (H1 & H2 & H3 & H4 & H5 & H6) Hno.
  pose proof (sc_wf_ring sc Hwf) as Hr.
  apply checks_q_inv; auto.
  - now apply refills_nonempty.
  - now apply refills_typed.
  - now rewrite <- refill_ordered_disjoint_refills.
  - now rewrite <- refill_at_least_min_budget_refills.
  - rewrite <- refill_sum_refills. now apply Z.eqb_eq.
  - now rewrite <- refill_all_within_period_refills.
Qed.

Lemma q_inv_universal (sc : sched_context_t) :
  ring_wf sc ->
  q_inv (scPeriod sc) (scBudget sc) (refills sc) ->
  universal_invariants sc.
Proof.
  intros Hr Hinv. pose proof Hr as (Hm & Hh & Hc).
  assert (Hc1 : 1 <= scRefillCount sc).
  { destruct (Z.eq_dec (scRefillCount sc) 0) as [E|]; [|lia].
    apply refills_nil_iff in E; [|lia]. now destruct (qi_nonempty _ _ _ Hinv). }
  destruct (q_inv_checks _ _ _ Hinv) as (Q1 & Q2 & Q3 & Q4).
  unfold universal_invariants, refill_sum_to_budget.
  rewrite refill_ordered_disjoint_refills, refill_at_least_min_budget_refills,
    refill_sum_refills, refill_all_within_period_refills by auto.
  rewrite Q1, Q2, Q3, Q4, Z.eqb_refl. repeat split; lia.
Qed.

Lemma q_inv_ideal (sc : sched_context_t) :
  ring_wf sc ->
  q_inv (scPeriod sc) (scBudget sc) (refills sc) ->
  ideal_invariants sc.
Proof.
  intros Hr Hinv. pose proof Hr as (Hm & Hh & Hc).
  assert (Hc1 : 1 <= scRefillCount sc).
  { destruct (Z.eq_dec (scRefillCount sc) 0) as [E|]; [|lia].
    apply refills_nil_iff in E; [|lia]. now destruct (qi_nonempty _ _ _ Hinv). }
  destruct Hinv as [Hne Ht Hch Hmin Htot Hw He].
  unfold ideal_invariants. repeat split; auto; lia.
Qed.

Lemma ideal_single (sc : sched_context_t) (r : refill_t) :
  ring_wf sc -> refills sc = [r] ->
  rAmount r = scBudget sc ->
  MIN_BUDGET <= scBudget sc -> scBudget sc <= scPeriod sc ->
  ideal_invariants sc.
Proof.
  intros Hr Hq Ha Hm Hp. pose proof Hr as (_ & _ & Hc).
  assert (Hc1 : scRefillCount sc = 1).
  { rewrite <- count_length_refills by lia. now rewrite Hq. }
  unfold ideal_invariants. rewrite Hq.
  cbn [q_chain q_total q_tail q_head last hd]. unfold r_end.
  repeat split; auto; try lia.
  constructor; [lia|constructor].
Qed.

(** A queue of one refill that holds the whole budget. *)
Lemma universal_single (sc : sched_context_t) (r : refill_t) :
  ring_wf sc -> refills sc = [r] ->
  rAmount r = scBudget sc -> is_u64 (scBudget sc) ->
  MIN_BUDGET <= scBudget sc -> scBudget sc <= scPeriod sc ->
  universal_invariants sc.
Proof.
  intros Hr Hq Ha Hb Hm Hp. pose proof Hr as (_ & _ & Hc).
  assert (Hc1 : scRefillCount sc = 1).
  { rewrite <- count_length_refills by lia. now rewrite Hq. }
  unfold universal_invariants, refill_sum_to_budget.
  rewrite refill_ordered_disjoint_refills, refill_at_least_min_budget_refills,
    refill_sum_refills, refill_all_within_period_refills by (auto; lia).
  rewrite Hq. cbn [q_ordered_disjoint q_at_least_min_budget q_sum q_tail q_head last hd].
  rewrite Ha.
  destruct (Z.leb_spec MIN_BUDGET (scBudget sc)); [|lia]. cbn [negb].
  rewrite (wadd_small 0) by fields.
  replace (wsub (wadd (rTime r) (scBudget sc)) (rTime r)) with (scBudget sc).
  - rewrite Z.add_0_l, Z.eqb_refl.
    replace (scBudget sc <=? scPeriod sc) with true by (symmetry; now apply Z.leb_le).
    repeat split; lia.
  - wrap_norm. replace (rTime r + scBudget sc - rTime r) with (scBudget sc) by lia.
    symmetry. now apply wrap_small.
Qed.

Lemma refill_budget_check_frame (ns : node_state) (sc : sched_context_t) (usage : Z) :
  ring_wf sc -> 1 <= scRefillCount sc ->
  ring_wf (refill_budget_check ns sc usage)
  /\ scPeriod (refill_budget_check ns sc usage) = scPeriod sc
  /\ scBudget (refill_budget_check ns sc usage) = scBudget sc
  /\ scRefillMax (refill_budget_check ns sc usage) = scRefillMax sc.
Proof.
  intros Hr Hc1. pose proof Hr as (Hm & Hh & Hc).
  assert (Hpop : ring_wf (snd (refill_pop_head sc))) by (apply ring_wf_pop_head; auto).
  unfold refill_budget_check; cbn zeta.
  destr_if;
    match goal with
    | |- context [schedule_used ?s ?u] =>
        destruct (schedule_used_frame s u) as (F1 & F2 & F3 & F4);
        rewrite F1, F2, F3;
        (split; [apply schedule_used_ring_wf|auto])
    end; auto.
  unfold ring_wf; sc_simpl; lia.
Qed.

Lemma refill_budget_check_invariants (ns : node_state) (sc : sched_context_t) (usage : Z) :
  sc_wf sc -> universal_invariants sc -> no_overflow sc ->
  is_u64 usage ->
  rTime (REFILL_HEAD sc) + scPeriod sc + rAmount (REFILL_HEAD sc) < modulus ->
  universal_invariants (refill_budget_check ns sc usage)
  /\ ideal_invariants (refill_budget_check ns sc usage).
Proof.
  intros Hwf Hinv Hno Hu Hrep.
  pose proof (sc_wf_ring sc Hwf) as Hr.
  pose proof (sc_q_inv sc Hwf Hinv Hno) as Hq.
  assert (Hc1 : 1 <= scRefillCount sc) by apply Hinv.
  destruct (refill_budget_check_frame ns sc usage Hr Hc1) as (Fr & Fp & Fb & Fm).
  pose proof (refill_budget_check_refills ns sc usage Hr Hc1) as Hl.
  pose proof (q_inv_head_le_end _ _ _ Hq) as [_ Hbp].
  pose proof (q_inv_head _ _ _ Hq) as [_ Hhd].
  rewrite REFILL_HEAD_refills in Hrep by auto.
  destruct (negb (rTime (q_head (refills sc)) <=? wadd (ksCurTime ns) getKernelWcetTicks)
            || (rAmount (q_head (refills sc)) <? usage)) eqn:Hover.
  - (* overrun: one refill of the whole budget *)
    unfold q_budget_check in Hl; cbn zeta in Hl. rewrite Hover in Hl.
    split.
    + apply (universal_single _ _ Fr Hl); rewrite ?Fb, ?Fp; cbn [rAmount]; auto;
        try lia.
      apply Hwf.
    + apply (ideal_single _ _ Fr Hl); rewrite ?Fb, ?Fp; cbn [rAmount]; auto; lia.
  - apply orb_false_elim in Hover as [Hready Hle].
    apply negb_false_iff in Hready. apply Z.ltb_ge in Hle.
    destruct (q_budget_check_ok ns (scPeriod sc) (scBudget sc) (scRefillMax sc)
                (refills sc) usage) as [R1 R2]; auto.
    + apply Hwf.
    + rewrite count_length_refills by lia. apply Hr.
    + rewrite <- Hl, <- Fp, <- Fb in R1.
      split; [now apply q_inv_universal|now apply q_inv_ideal].
Qed.

Lemma refill_budget_check_universal (ns : node_state) (sc : sched_context_t) (usage : Z) :
  sc_wf sc -> universal_invariants sc -> no_overflow sc ->
  is_u64 usage ->
  rTime (REFILL_HEAD sc) + scPeriod sc + rAmount (REFILL_HEAD sc) < modulus ->
  universal_invariants (refill_budget_check ns sc usage).
Proof. intros. now apply refill_budget_check_invariants. Qed.

Lemma refill_unblock_check_invariants (ns : node_state) (sc : sched_context_t) :
  sc_wf sc -> universal_invariants sc -> no_overflow sc ->
  0 <= ksCurTime ns + getKernelWcetTicks ->
  ksCurTime ns + getKernelWcetTicks + scBudget sc < modulus ->
  universal_invariants (snd (refill_unblock_check ns sc))
  /\ ideal_invariants (snd (refill_unblock_check ns sc)).
Proof.
  intros Hwf Hinv Hno Ht0 Htb.
  pose proof (sc_wf_ring sc Hwf) as Hr.
  pose proof (sc_q_inv sc Hwf Hinv Hno) as Hq.
  assert (Hc1 : 1 <= scRefillCount sc) by apply Hinv.
  destruct (refill_unblock_check_refills ns sc Hr Hc1) as (Hl & Fr & Fp & Fb & Fm).
  cut (q_inv (scPeriod (snd (refill_unblock_check ns sc)))
             (scBudget (snd (refill_unblock_check ns sc)))
             (refills (snd (refill_unblock_check ns sc)))).
  { intros Hq'. split; [now apply q_inv_universal|now apply q_inv_ideal]. }
  rewrite Fp, Fb, Hl.
  destruct (isRoundRobin sc); auto.
  unfold refill_ready. rewrite REFILL_HEAD_refills by auto.
  destruct (Z.leb_spec (rTime (q_head (refills sc)))
                       (wadd (ksCurTime ns) getKernelWcetTicks)) as [Hready|]; auto.
  pose proof (q_inv_head_le_end _ _ _ Hq) as [_ Hbp].
  pose proof (q_inv_head _ _ _ Hq) as [Hht Hhd].
  pose proof (wf_budget sc Hwf) as Hb.
  rewrite wadd_small in * by fields.
  destruct Hq as [Hne Hty Hch Hmin Htot Hw He].
  destruct (refills sc) as [|h b]; [contradiction|].
  cbn [q_head hd tl] in *.
  inversion Hty as [|? ? Hh Htyb]; subst. inversion Hmin as [|? ? Hmh Hminb]; subst.
  apply q_unblock_merge_ok; auto; try fields.
  - now apply q_chain_tl in Hch.
  - intros Hb'. rewrite q_tail_cons in Hw, He by auto. fields.
Qed.

(** ** Well-formedness is preserved *)

Lemma typed_set_REFILL_INDEX (sc : sched_context_t) (index : Z) (r : refill_t) :
  (forall i, refill_typed (scRefills sc i)) -> refill_typed r ->
  forall i, refill_typed (scRefills (set_REFILL_INDEX sc index r) i).
Proof. intros Hs Hr i. sc_simpl. destruct (i =? index); auto. Qed.

Lemma typed_set_rTime (sc : sched_context_t) (index v : Z) :
  (forall i, refill_typed (scRefills sc i)) -> is_u64 v ->
  forall i, refill_typed (scRefills (set_rTime sc index v) i).
Proof.
  intros Hs Hv. apply typed_set_REFILL_INDEX; auto.
  split; [exact Hv|apply Hs].
Qed.

Lemma typed_set_rAmount (sc : sched_context_t) (index v : Z) :
  (forall i, refill_typed (scRefills sc i)) -> is_u64 v ->
  forall i, refill_typed (scRefills (set_rAmount sc index v) i).
Proof.
  intros Hs Hv. apply typed_set_REFILL_INDEX; auto.
  split; [apply Hs|exact Hv].
Qed.

Ltac typed_slots_tac :=
  repeat match goal with
    | |- forall i, refill_typed (scRefills (set_REFILL_INDEX _ _ _) i) =>
        apply typed_set_REFILL_INDEX
    | |- forall i, refill_typed (scRefills (set_rTime _ _ _) i) =>
        apply typed_set_rTime
    | |- forall i, refill_typed (scRefills (set_rAmount _ _ _) i) =>
        apply typed_set_rAmount
    | |- forall i, refill_typed (scRefills (set_scRefillCount ?s _) i) =>
        change (forall i, refill_typed (scRefills s i))
    | |- forall i, refill_typed (scRefills (snd (refill_pop_head ?s)) i) =>
        change (forall i, refill_typed (scRefills s i))
    | |- refill_typed (mk_refill _ _) => split; cbn [rTime rAmount]
    | |- is_u64 (wadd _ _) => apply wadd_range
    | |- is_u64 (wsub _ _) => apply wsub_range
    end.

Lemma typed_schedule_used (sc : sched_context_t) (new : refill_t) :
  (forall i, refill_typed (scRefills sc i)) -> refill_typed new ->
  forall i, refill_typed (scRefills (schedule_used sc new) i).
Proof.
  intros Hs Hn. unfold schedule_used, refill_add_tail.
  destr_if; typed_slots_tac; auto.
Qed.

Lemma sc_wf_budget_check (ns : node_state) (sc : sched_context_t) (usage : Z) :
  sc_wf sc -> 1 <= scRefillCount sc -> is_u64 usage ->
  sc_wf (refill_budget_check ns sc usage).
Proof.
  intros Hwf Hc1 Hu. pose proof (sc_wf_ring sc Hwf) as Hr.
  destruct (refill_budget_check_frame ns sc usage Hr Hc1)
    as ((Fm2 & Fh & Fc) & Fp & Fb & Fm).
  destruct Hwf as [Wp Wb Wm Wh Wc Ws].
  constructor; rewrite ?Fp, ?Fb; auto.
  unfold refill_budget_check; cbn zeta.
  destr_if; apply typed_schedule_used; typed_slots_tac; auto.
Qed.

Lemma typed_unblock_merge (ns : node_state) (bound : nat) :
  forall sc, (forall i, refill_typed (scRefills sc i)) ->
             forall i, refill_typed (scRefills (refill_unblock_merge ns bound sc) i).
Proof.
  induction bound as [|bound IH]; intros sc Hs; [exact Hs|].
  cbn [refill_unblock_merge].
  destr_if; auto.
  apply IH. typed_slots_tac; auto.
Qed.

Lemma sc_wf_unblock_check (ns : node_state) (sc : sched_context_t) :
  sc_wf sc -> 1 <= scRefillCount sc ->
  sc_wf (snd (refill_unblock_check ns sc)).
Proof.
  intros Hwf Hc1. pose proof (sc_wf_ring sc Hwf) as Hr.
  destruct (refill_unblock_check_refills ns sc Hr Hc1)
    as (_ & (Fm2 & Fh & Fc) & Fp & Fb & Fm).
  destruct Hwf as [Wp Wb Wm Wh Wc Ws].
  constructor; rewrite ?Fp, ?Fb; auto.
  unfold refill_unblock_check.
  destr_if; cbn [snd]; auto.
  apply typed_unblock_merge. typed_slots_tac; auto.
Qed.

(** ** The indices of the ring stay in range *)

Lemma refill_tail_index_range (sc : sched_context_t) :
  ring_bounds sc -> 1 <= scRefillCount sc ->
  0 <= refill_tail_index sc < scRefillMax sc.
Proof.
  intros (Hm & Hh & Hc) Hc1. unfold refill_tail_index; cbn zeta.
  destruct (Z.leb_spec (scRefillMax sc)
              (wsub (wadd (scRefillHead sc) (scRefillCount sc)) 1));
    wrap_lia.
Qed.

Lemma refill_pop_head_fields (sc : sched_context_t) :
  ring_bounds sc ->
  0 <= scRefillHead (snd (refill_pop_head sc)) < scRefillMax sc
  /\ scRefillCount (snd (refill_pop_head sc)) = wsub (scRefillCount sc) 1
  /\ scRefillMax (snd (refill_pop_head sc)) = scRefillMax sc.
Proof.
  intros (Hm & Hh & Hc). unfold refill_pop_head; sc_simpl.
  pose proof (refill_next_range sc (scRefillHead sc) Hm Hh). auto.
Qed.

Lemma ring_bounds_pop_head (sc : sched_context_t) :
  ring_bounds sc -> 1 <= scRefillCount sc ->
  ring_bounds (snd (refill_pop_head sc))
  /\ scRefillCount (snd (refill_pop_head sc)) = scRefillCount sc - 1
  /\ scRefillMax (snd (refill_pop_head sc)) = scRefillMax sc.
Proof.
  intros (Hm & Hh & Hc) Hc1. unfold ring_bounds, refill_pop_head; sc_simpl.
  pose proof (refill_next_range sc (scRefillHead sc) Hm Hh).
  rewrite wsub_small by fields. repeat split; auto; fields.
Qed.

Lemma ring_bounds_add_tail (sc : sched_context_t) (r : refill_t) :
  ring_bounds sc -> scRefillCount sc < scRefillMax sc ->
  ring_bounds (refill_add_tail sc r)
  /\ scRefillCount (refill_add_tail sc r) = scRefillCount sc + 1
  /\ scRefillHead (refill_add_tail sc r) = scRefillHead sc
  /\ scRefillMax (refill_add_tail sc r) = scRefillMax sc.
Proof.
  intros (Hm & Hh & Hc) Hlt. unfold ring_bounds, refill_add_tail; sc_simpl.
  rewrite wadd_small by fields. repeat split; auto; fields.
Qed.

Lemma ring_bounds_schedule_used (sc : sched_context_t) (new : refill_t) :
  ring_bounds sc -> ring_bounds (schedule_used sc new).
Proof.
  intros Hb. pose proof Hb as (Hm & Hh & Hc).
  unfold schedule_used, refill_empty, refill_full.
  destruct (Z.eqb_spec (scRefillCount sc) 0) as [E|E].
  - apply ring_bounds_add_tail; auto; lia.
  - destruct (Z.eqb_spec (scRefillCount sc) (scRefillMax sc)) as [Ef|Ef];
      rewrite ?andb_false_r, ?orb_true_r; cbn [negb andb]; auto.
    destr_if; auto; apply ring_bounds_add_tail; auto; sc_simpl; lia.
Qed.

Lemma ring_bounds_budget_check (ns : node_state) (sc : sched_context_t) (usage : Z) :
  ring_bounds sc -> 1 <= scRefillCount sc ->
  ring_bounds (refill_budget_check ns sc usage).
Proof.
  intros Hb Hc1. pose proof Hb as (Hm & Hh & Hc).
  destruct (ring_bounds_pop_head sc Hb Hc1) as (Hpop & _ & _).
  unfold refill_budget_check; cbn zeta.
  destr_if; apply ring_bounds_schedule_used; auto.
  unfold ring_bounds; sc_simpl; fields.
Qed.

Lemma ring_bounds_unblock_merge (ns : node_state) (bound : nat) :
  forall sc, ring_bounds sc -> ring_bounds (refill_unblock_merge ns bound sc).
Proof.
  induction bound as [|bound IH]; intros sc Hb; [exact Hb|].
  cbn [refill_unblock_merge]. unfold refill_size.
  destruct (Z.ltb_spec 1 (scRefillCount sc)); [|exact Hb].
  destruct (_ <=? _); [|exact Hb].
  apply IH. destruct (ring_bounds_pop_head sc Hb) as (Hpop & _ & _); [lia|].
  exact Hpop.
Qed.

Lemma ring_bounds_unblock_check (ns : node_state) (sc : sched_context_t) :
  ring_bounds sc -> ring_bounds (snd (refill_unblock_check ns sc)).
Proof.
  intros Hb. unfold refill_unblock_check.
  destruct (isRoundRobin sc); [exact Hb|].
  destruct (refill_ready ns sc); [|exact Hb].
  cbn [snd]. apply ring_bounds_unblock_merge. exact Hb.
Qed.

Lemma ring_bounds_update (ns : node_state) (sc : sched_context_t)
      (new_period new_budget new_max_refills : Z) :
  1 <= new_max_refills -> is_u64 new_max_refills ->
  ring_bounds (refill_update ns sc new_period new_budget new_max_refills).
Proof.
  intros HM1 HM2. unfold refill_update; cbn zeta.
  match goal with
  | |- context [if refill_ready ns ?s then ?a else ?b] =>
      assert (Hb : ring_bounds (if refill_ready ns s then a else b))
  end.
  { destruct (refill_ready ns _); unfold ring_bounds; sc_simpl; fields. }
  destruct (_ <=? _); [exact Hb|].
  now apply ring_bounds_schedule_used.
Qed.

Lemma ring_bounds_new (ns : node_state) (sc : sched_context_t)
      (max_refills budget period : Z) :
  1 <= max_refills -> is_u64 max_refills ->
  ring_bounds (refill_new ns sc max_refills budget period).
Proof.
  intros HM1 HM2. unfold ring_bounds, refill_new; sc_simpl. fields.
Qed.

(** ** The loops, run literally *)

Lemma run_loop_sum (sc : sched_context_t) :
  scRefillCount sc < modulus ->
  forall (n fuel : nat) (sum current seen : Z),
    0 <= seen -> seen + Z.of_nat n = scRefillCount sc -> (n < fuel)%nat ->
    run_loop fuel (sum_loop_body sc) (sum, current, seen)
    = Some (refill_sum_loop sc n current sum, n).
Proof.
  intros Hc. induction n as [|n IH]; intros fuel sum current seen Hs Hn Hf;
    (destruct fuel as [|fuel]; [lia|]); cbn [run_loop sum_loop_body refill_sum_loop].
  - destruct (Z.ltb_spec seen (scRefillCount sc)); [lia|reflexivity].
  - destruct (Z.ltb_spec seen (scRefillCount sc)); [|lia].
    rewrite (wadd_small seen 1) by lia.
    rewrite IH by lia. reflexivity.
Qed.

Lemma run_loop_print (sc : sched_context_t) :
  scRefillCount sc < modulus ->
  forall (n fuel : nat) (current seen : Z),
    0 <= seen -> seen + Z.of_nat n = scRefillCount sc -> (n < fuel)%nat ->
    run_loop fuel (print_loop_body sc) (current, seen) = Some (tt, n).
Proof.
  intros Hc. induction n as [|n IH]; intros fuel current seen Hs Hn Hf;
    (destruct fuel as [|fuel]; [lia|]); cbn [run_loop print_loop_body].
  - destruct (Z.eqb_spec seen (scRefillCount sc)); [reflexivity|lia].
  - destruct (Z.eqb_spec seen (scRefillCount sc)); [lia|]. cbn [negb].
    rewrite (wadd_small seen 1) by lia.
    rewrite IH by lia. reflexivity.
Qed.

Lemma run_loop_min_budget (sc : sched_context_t) :
  scRefillCount sc < modulus ->
  forall (n fuel : nat) (current seen : Z),
    0 <= seen -> seen + Z.of_nat n = scRefillCount sc -> (n < fuel)%nat ->
    exists k,
      run_loop fuel (min_budget_loop_body sc) (current, seen)
      = Some (refill_at_least_min_budget_loop sc n current, k)
      /\ (k <= n)%nat
      /\ (refill_at_least_min_budget_loop sc n current = true -> k = n).
Proof.
  intros Hc. induction n as [|n IH]; intros fuel current seen Hs Hn Hf;
    (destruct fuel as [|fuel]; [lia|]);
    cbn [run_loop min_budget_loop_body refill_at_least_min_budget_loop].
  - destruct (Z.ltb_spec seen (scRefillCount sc)); [lia|]. exists O. auto.
  - destruct (Z.ltb_spec seen (scRefillCount sc)); [|lia].
    destruct (negb _).
    + exists O. repeat split; [lia|discriminate].
    + rewrite (wadd_small seen 1) by lia.
      destruct (IH fuel (refill_next sc current) (seen + 1)) as (k & E & Hk & Ht);
        try lia.
      rewrite E. exists (S k). repeat split; [lia|]. intros H'. now rewrite Ht.
Qed.

Lemma run_loop_ordered (sc : sched_context_t) :
  scRefillCount sc < modulus ->
  forall (n fuel : nat) (current next seen : Z),
    0 <= seen -> seen + Z.of_nat n = Z.max seen (scRefillCount sc) -> (n < fuel)%nat ->
    exists k,
      run_loop fuel (ordered_loop_body sc) (current, next, seen)
      = Some (refill_ordered_disjoint_loop sc n current next, k)
      /\ (k <= n)%nat
      /\ (refill_ordered_disjoint_loop sc n current next = true -> k = n).
Proof.
  intros Hc. induction n as [|n IH]; intros fuel current next seen Hs Hn Hf;
    (destruct fuel as [|fuel]; [lia|]);
    cbn [run_loop ordered_loop_body refill_ordered_disjoint_loop].
  - destruct (Z.ltb_spec seen (scRefillCount sc)); [lia|]. exists O. auto.
  - destruct (Z.ltb_spec seen (scRefillCount sc)); [|lia].
    destruct (negb _).
    + exists O. repeat split; [lia|discriminate].
    + rewrite (wadd_small seen 1) by lia.
      destruct (IH fuel next (refill_next sc next) (seen + 1)) as (k & E & Hk & Ht);
        try lia.
      rewrite E. exists (S k). repeat split; [lia|]. intros H'. now rewrite Ht.
Qed.

Lemma unblock_loop_body_pops (ns : node_state) (sc s' : sched_context_t) :
  scRefillCount sc < modulus ->
  unblock_loop_body ns sc = inl s' ->
  scRefillCount s' = scRefillCount sc - 1.
Proof.
  intros Hc. unfold unblock_loop_body, refill_size.
  destruct (Z.ltb_spec 1 (scRefillCount sc)); [|discriminate].
  destruct (_ <=? _); [|discriminate].
  intros [= <-]. unfold refill_pop_head; sc_simpl. apply wsub_small. lia.
Qed.

Lemma unblock_loop_body_merge (ns : node_state) (n : nat) (sc : sched_context_t) :
  match unblock_loop_body ns sc with
  | inl s' => refill_unblock_merge ns (S n) sc = refill_unblock_merge ns n s'
  | inr r => r = sc /\ refill_unblock_merge ns (S n) sc = sc
  end.
Proof.
  unfold unblock_loop_body. cbn [refill_unblock_merge].
  destruct (1 <? refill_size sc); auto.
  destruct (_ <=? _); auto.
Qed.

Lemma unblock_loop_body_exit (ns : node_state) (sc r : sched_context_t) :
  scRefillCount sc <= 1 -> unblock_loop_body ns sc = inr sc.
Proof.
  intros Hc. unfold unblock_loop_body, refill_size.
  destruct (Z.ltb_spec 1 (scRefillCount sc)); [lia|reflexivity].
Qed.

Lemma run_loop_unblock (ns : node_state) :
  forall (n fuel : nat) (sc : sched_context_t),
    scRefillCount sc < modulus ->
    scRefillCount sc <= Z.of_nat n + 1 -> (n < fuel)%nat ->
    exists pops,
      run_loop fuel (unblock_loop_body ns) sc
      = Some (refill_unblock_merge ns n sc, pops)
      /\ Z.of_nat pops <= Z.max 0 (scRefillCount sc - 1)
      /\ scRefillCount (refill_unblock_merge ns n sc)
         = scRefillCount sc - Z.of_nat pops.
Proof.
  induction n as [|n IH]; intros fuel sc Hc Hn Hf;
    (destruct fuel as [|fuel]; [lia|]); cbn [run_loop].
  - rewrite (unblock_loop_body_exit ns sc sc) by lia.
    exists O. cbn [refill_unblock_merge]. repeat split; lia.
  - pose proof (unblock_loop_body_merge ns n sc) as Hm.
    destruct (unblock_loop_body ns sc) as [s'|r] eqn:Eb.
    + pose proof (unblock_loop_body_pops ns sc s' Hc Eb) as Hp.
      assert (1 < scRefillCount sc).
      { destruct (Z.le_gt_cases (scRefillCount sc) 1) as [Hle|]; [|lia].
        rewrite (unblock_loop_body_exit ns sc sc Hle) in Eb. discriminate. }
      destruct (IH fuel s') as (pops & E & Hk & Hcnt); try lia.
      rewrite E, Hm. exists (S pops). repeat split; lia.
    + destruct Hm as [-> Hm]. rewrite Hm. exists O. repeat split; lia.
Qed.

(** ** A refill of no ticks

    What [schedule_used] does with a refill [(t, 0)], which is what a
    charge of 0 ticks hands to it. *)

Lemma map_last_removelast (f : refill_t -> refill_t) (q : list refill_t) :
  q <> [] -> map_last f q = removelast q ++ [f (q_tail q)].
Proof.
  intros Hne. rewrite (app_removelast_last null_refill Hne) at 1.
  apply map_last_snoc.
Qed.

Lemma Forall_q_tail (P : refill_t -> Prop) (q : list refill_t) :
  q <> [] -> Forall P q -> P (q_tail q).
Proof.
  intros Hne HP. rewrite (app_removelast_last null_refill Hne) in HP.
  apply Forall_app in HP as [_ HP]. now inversion HP.
Qed.

Lemma firstn_removelast_snoc (q rest : list refill_t) :
  firstn (length q - 1) (removelast q ++ rest) = removelast q.
Proof.
  destruct q as [|h q']; [reflexivity|].
  assert (Hne : h :: q' <> []) by discriminate.
  remember (h :: q') as q eqn:Eq. clear Eq.
  assert (Hl : (length q - 1)%nat = length (removelast q)).
  { rewrite (app_removelast_last null_refill Hne) at 1.
    rewrite length_app. cbn [length]. lia. }
  rewrite Hl, <- (Nat.add_0_r (length (removelast q))), firstn_app_2.
  cbn [firstn]. apply app_nil_r.
Qed.

Lemma q_schedule_used_zero (max t : Z) (q : list refill_t) :
  q <> [] ->
  Forall refill_typed q ->
  Forall (fun r => MIN_BUDGET <= rAmount r) q ->
  0 < MIN_BUDGET ->
  rAmount (q_tail q) <= t < modulus ->
  q_schedule_used max q (mk_refill t 0)
  = if negb (Z.of_nat (length q) =? max) && (wmul 2 MIN_BUDGET <=? rAmount (q_tail q))
    then map_last (fun r => mk_refill (rTime r) (rAmount r - MIN_BUDGET)) q
         ++ [mk_refill (t - MIN_BUDGET) MIN_BUDGET]
    else map_last (fun r => mk_refill (t - rAmount r) (rAmount r)) q.
Proof.
  intros Hne Hty Hmin HMB Ht.
  pose proof MIN_BUDGET_range as HMBr.
  pose proof (Forall_q_tail _ q Hne Hty) as [_ Hta].
  pose proof (Forall_q_tail _ q Hne Hmin) as Htm. cbn beta in Htm.
  unfold is_u64 in Hta.
  unfold q_schedule_used. destruct q as [|h q']; [contradiction|].
  cbn [rAmount rTime].
  assert (Hlt : (0 <? MIN_BUDGET) = true) by now apply Z.ltb_lt.
  rewrite Hlt. cbn [andb orb].
  rewrite (wadd_small (rAmount (q_tail (h :: q'))) 0) by (unfold is_u64; lia).
  rewrite Z.add_0_r.
  rewrite (wsub_small MIN_BUDGET 0) by (unfold is_u64; lia).
  rewrite Z.sub_0_r.
  rewrite (wadd_small 0 MIN_BUDGET) by (unfold is_u64; lia).
  rewrite (wsub_small t MIN_BUDGET) by (unfold is_u64; lia).
  destruct (negb (Z.of_nat (length (h :: q')) =? max)
            && (wmul 2 MIN_BUDGET <=? rAmount (q_tail (h :: q')))).
  - cbn [Z.add]. f_equal. apply map_last_ext.
    now rewrite wsub_small by (unfold is_u64; lia).
  - apply map_last_ext.
    rewrite wsub_small, wadd_small by (unfold is_u64; lia).
    now rewrite Z.add_0_r.
Qed.

(** ** The properties of the engine *)

(** C1 (amended).  The five universal invariants (ordered and disjoint, at
    least [MIN_BUDGET] each, sum equal to the budget, all within one
    period, at most [scRefillMax] refills) and a non-empty queue are
    preserved by [refill_budget_check], for every usage, and by
    [refill_unblock_check], on a well-formed scheduling context, provided
    the 64-bit arithmetic does not overflow: no refill of the queue ends
    beyond [2^64], the head could be replenished one period later
    ([head.time + period + head.amount < 2^64]) and the whole budget could
    be spent from the next kernel entry
    ([ksCurTime + wcet + budget < 2^64]).  The invariants hold again both
    as the checks of the debug build compute them, in 64-bit arithmetic
    ([universal_invariants]), and in unbounded arithmetic
    ([ideal_invariants]), and the scheduling context is well formed
    again. *)
Theorem invariants_preserved (ns : node_state) (sc : sched_context_t) (usage : Z) :
  sc_wf sc ->
  universal_invariants sc ->
  no_overflow sc ->
  is_u64 usage ->
  rTime (REFILL_HEAD sc) + scPeriod sc + rAmount (REFILL_HEAD sc) < modulus ->
  0 <= ksCurTime ns + getKernelWcetTicks ->
  ksCurTime ns + getKernelWcetTicks + scBudget sc < modulus ->
  (sc_wf (refill_budget_check ns sc usage)
   /\ universal_invariants (refill_budget_check ns sc usage)
   /\ ideal_invariants (refill_budget_check ns sc usage))
  /\ (sc_wf (snd (refill_unblock_check ns sc))
      /\ universal_invariants (snd (refill_unblock_check ns sc))
      /\ ideal_invariants (snd (refill_unblock_check ns sc))).
Proof.
  intros Hwf Hinv Hno Hu Hrep Ht0 Htb.
  assert (Hc1 : 1 <= scRefillCount sc) by apply Hinv.
  split; split.
  - now apply sc_wf_budget_check.
  - now apply refill_budget_check_invariants.
  - now apply sc_wf_unblock_check.
  - now apply refill_unblock_check_invariants.
Qed.

(** C2.  Overrun: when the head refill is not ready or holds less than
    [usage], [refill_budget_check] leaves exactly one refill in the queue,
    of the whole budget, at the old head's time + period + usage (in the
    64-bit arithmetic of [ticks_t], which is the plain sum when that does
    not overflow). *)
Theorem budget_check_overrun (ns : node_state) (sc : sched_context_t) (usage : Z) :
  ring_bounds sc ->
  refill_ready ns sc = false \/ rAmount (REFILL_HEAD sc) < usage ->
  let sc' := refill_budget_check ns sc usage in
  let r := mk_refill (wrap (rTime (REFILL_HEAD sc) + scPeriod sc + usage))
                     (scBudget sc) in
  scRefillCount sc' = 1 /\ refills sc' = [r] /\ REFILL_HEAD sc' = r
  /\ (0 <= rTime (REFILL_HEAD sc) + scPeriod sc + usage < modulus ->
      rTime (REFILL_HEAD sc') = rTime (REFILL_HEAD sc) + scPeriod sc + usage).
Proof.
  intros (Hm & Hh & Hc0) Hover sc' r.
  assert (Hsc : sc' = set_REFILL_INDEX (set_scRefillCount sc 1) (scRefillHead sc) r).
  { unfold sc', refill_budget_check; cbn zeta.
    replace (negb (refill_ready ns sc) || (rAmount (REFILL_HEAD sc) <? usage)) with true.
    - unfold schedule_used, refill_empty; sc_simpl. cbn [Z.eqb].
      unfold refill_add_tail, refill_tail_index; sc_simpl.
      replace (wadd 0 1) with 1 by reflexivity.
      rewrite (wadd_small (scRefillHead sc) 1), wsub_small by fields.
      replace (scRefillHead sc + 1 - 1) with (scRefillHead sc) by lia.
      destruct (Z.leb_spec (scRefillMax sc) (scRefillHead sc)); [lia|].
      unfold r. do 2 f_equal. now wrap_norm.
    - destruct Hover as [-> | Hlt]; [reflexivity|].
      apply Z.ltb_lt in Hlt. rewrite Hlt. now rewrite orb_true_r. }
  assert (Hhd : REFILL_HEAD sc' = r).
  { rewrite Hsc. unfold REFILL_HEAD, REFILL_INDEX; sc_simpl. now rewrite Z.eqb_refl. }
  assert (Hc1 : scRefillCount sc' = 1) by now rewrite Hsc.
  split; [exact Hc1|]. split; [|split; [exact Hhd|]].
  - rewrite refills_unfold by lia. now rewrite Hc1, Hhd.
  - intros Hsmall. rewrite Hhd. unfold r. cbn [rTime]. now apply wrap_small.
Qed.


(** C4 (amended).  [refill_unblock_check] acts only on a head refill that
    is ready: in that case [refill_ready] and [refill_sufficient (sc, 0)]
    hold after the call; otherwise the scheduling context is left as it
    was (and is still not ready).  [refill_sufficient (sc, 0)] holds after
    the call in both cases.  The scheduling context is well formed and not
    empty, each of its refills has at least [MIN_BUDGET], and their
    amounts sum without overflow (as they do when they sum to the
    budget). *)
Theorem unblock_check_postconditions (ns : node_state) (sc : sched_context_t) :
  sc_wf sc ->
  1 <= scRefillCount sc ->
  refill_at_least_min_budget sc = true ->
  q_total (refills sc) < modulus ->
  let sc' := snd (refill_unblock_check ns sc) in
  (refill_ready ns sc = true ->
   refill_ready ns sc' = true /\ refill_sufficient sc' 0 = true)
  /\ (refill_ready ns sc = false -> sc' = sc)
  /\ refill_sufficient sc' 0 = true.
Proof.
  intros Hwf Hc1 Hmin Htot sc'.
  pose proof (sc_wf_ring sc Hwf) as Hr.
  pose proof (refills_typed sc Hwf) as Hty.
  rewrite refill_at_least_min_budget_refills in Hmin.
  apply q_at_least_min_budget_Forall in Hmin.
  pose proof (refills_nonempty sc Hc1) as Hne.
  destruct (refill_unblock_check_refills ns sc Hr Hc1) as (Hl & Fr & Fp & Fb & Fm).
  fold sc' in Hl, Fr, Fp, Fb, Fm.
  pose proof MIN_BUDGET_range as HMB.
  assert (Hsuff : forall s, 1 <= scRefillCount s ->
                    MIN_BUDGET <= rAmount (q_head (refills s)) < modulus ->
                    refill_sufficient s 0 = true).
  { intros s Hs Ha. unfold refill_sufficient, refill_capacity.
    rewrite REFILL_HEAD_refills by auto.
    destruct (Z.ltb_spec (rAmount (q_head (refills s))) 0); [lia|].
    rewrite wsub_small by fields. apply Z.leb_le. lia. }
  assert (Hkeep : refill_ready ns sc = false -> sc' = sc).
  { intros Hn. unfold sc', refill_unblock_check. rewrite Hn.
    now destruct (isRoundRobin sc). }
  assert (Hc1' : 1 <= scRefillCount sc').
  { destruct (Z.eq_dec (scRefillCount sc') 0) as [E|]; [|destruct Fr as (_ & _ & ?); lia].
    exfalso. apply refills_nil_iff in E; [|apply Fr].
    rewrite Hl in E.
    destruct (isRoundRobin sc); [contradiction|].
    destruct (refill_ready ns sc); [|contradiction].
    now apply q_unblock_merge_nonempty in E. }
  assert (Hhead : (isRoundRobin sc = false /\ refill_ready ns sc = true ->
                   rTime (q_head (refills sc')) = wadd (ksCurTime ns) getKernelWcetTicks)
                  /\ MIN_BUDGET <= rAmount (q_head (refills sc')) < modulus).
  { rewrite Hl.
    destruct (refills sc) as [|h b]; [contradiction|].
    inversion Hty as [|? ? Hh Htyb]; subst. inversion Hmin as [|? ? Hmh Hminb]; subst.
    pose proof (q_total_nonneg b Htyb) as Hnn.
    cbn [q_head hd tl q_total] in *.
    destruct (isRoundRobin sc); [split; [intros []; discriminate|fields]|].
    destruct (refill_ready ns sc); [|split; [intros []; discriminate|fields]].
    destruct (q_unblock_merge_head (wadd (ksCurTime ns) getKernelWcetTicks) b
                (mk_refill (wadd (ksCurTime ns) getKernelWcetTicks) (rAmount h)))
      as [R1 R2]; auto; try fields. }
  destruct Hhead as [Htime Hamount].
  split; [|split; auto].
  intros Hready. split; [|auto].
  destruct (isRoundRobin sc) eqn:Hrr.
  - unfold sc', refill_unblock_check. now rewrite Hrr.
  - unfold refill_ready. rewrite REFILL_HEAD_refills, Htime by auto.
    apply Z.leb_refl.
Qed.

(** C5 (amended).  [refill_budget_check (0)] is not a no-op.  On a
    well-formed scheduling context that has the invariants, whose head is
    ready, without overflow and with [MIN_BUDGET > 0], it keeps the
    invariants, the index of the head and the sum of the refills; it
    keeps the head refill when the queue has two refills or more; the
    tail is rescheduled, and the queue may grow by one refill.  What it
    leaves is what [schedule_used] makes of the queue and the refill
    [(head.time + period, 0)]: when the queue is not full and the tail
    has [2 * MIN_BUDGET] (the 64-bit product) or more, [MIN_BUDGET] ticks
    are split off the tail into a new last refill
    [(head.time + period - MIN_BUDGET, MIN_BUDGET)]; otherwise the tail
    keeps its amount and is moved to [head.time + period - tail.amount].
    In both cases the last refill ends at [head.time + period], and the
    refills before the tail are as they were. *)
Theorem budget_check_zero (ns : node_state) (sc : sched_context_t) :
  sc_wf sc ->
  universal_invariants sc ->
  no_overflow sc ->
  refill_ready ns sc = true ->
  0 < MIN_BUDGET ->
  rTime (REFILL_HEAD sc) + scPeriod sc + rAmount (REFILL_HEAD sc) < modulus ->
  let sc' := refill_budget_check ns sc 0 in
  let next := rTime (REFILL_HEAD sc) + scPeriod sc in
  universal_invariants sc'
  /\ scRefillHead sc' = scRefillHead sc
  /\ refill_sum sc' = refill_sum sc
  /\ (scRefillCount sc' = scRefillCount sc \/ scRefillCount sc' = scRefillCount sc + 1)
  /\ (2 <= scRefillCount sc -> REFILL_HEAD sc' = REFILL_HEAD sc)
  /\ refills sc' = refills (schedule_used sc (mk_refill next 0))
  /\ (refill_full sc = false ->
      wmul 2 MIN_BUDGET <= rAmount (REFILL_TAIL sc) ->
      refills sc'
      = map_last (fun t => mk_refill (rTime t) (rAmount t - MIN_BUDGET)) (refills sc)
        ++ [mk_refill (next - MIN_BUDGET) MIN_BUDGET]
      /\ scRefillCount sc' = scRefillCount sc + 1)
  /\ (refill_full sc = true \/ rAmount (REFILL_TAIL sc) < wmul 2 MIN_BUDGET ->
      refills sc'
      = map_last (fun t => mk_refill (next - rAmount t) (rAmount t)) (refills sc)
      /\ scRefillCount sc' = scRefillCount sc)
  /\ r_end (REFILL_TAIL sc') = next
  /\ firstn (length (refills sc) - 1) (refills sc') = removelast (refills sc).
Proof.
  intros Hwf Hinv Hno Hready HMB Hrep sc' next.
  pose proof (sc_wf_ring sc Hwf) as Hr.
  pose proof (sc_q_inv sc Hwf Hinv Hno) as Hq.
  assert (Hc1 : 1 <= scRefillCount sc) by apply Hinv.
  assert (Hinv' : universal_invariants sc').
  { apply refill_budget_check_universal; auto. unfold is_u64. pose proof modulus_pos. lia. }
  destruct (refill_budget_check_frame ns sc 0 Hr Hc1) as (Fr & Fp & Fb & Fm).
  fold sc' in Fr, Fp, Fb, Fm.
  pose proof (q_inv_head _ _ _ Hq) as [[Hh1 Hh2] Hhd].
  rewrite <- REFILL_HEAD_refills in Hh1, Hh2, Hhd by auto.
  (* the branch taken *)
  assert (Hb1 : negb (refill_ready ns sc) || (rAmount (REFILL_HEAD sc) <? 0) = false).
  { rewrite Hready. cbn [negb orb]. apply Z.ltb_ge. fields. }
  assert (Hb2 : (0 =? rAmount (REFILL_HEAD sc)) = false) by (apply Z.eqb_neq; lia).
  assert (Hb3 : (MIN_BUDGET <=? wsub (rAmount (REFILL_HEAD sc)) 0) = true).
  { rewrite wsub_small by fields. apply Z.leb_le. lia. }
  assert (Hl : refills sc'
               = q_schedule_used (scRefillMax sc) (refills sc)
                   (mk_refill (wadd (rTime (REFILL_HEAD sc)) (scPeriod sc)) 0)).
  { unfold sc'. rewrite refill_budget_check_refills by auto.
    unfold q_budget_check; cbn zeta.
    rewrite <- REFILL_HEAD_refills by auto. unfold refill_ready in Hb1.
    rewrite Hb1, Hb2, Hb3.
    rewrite wsub_small, wadd_small by fields.
    rewrite Z.sub_0_r, Z.add_0_r. f_equal.
    rewrite (REFILL_HEAD_refills sc) by auto.
    destruct (refills sc) as [|[] ?]; reflexivity. }
  assert (Hhead : scRefillHead sc' = scRefillHead sc).
  { unfold sc', refill_budget_check; cbn zeta. rewrite Hb1, Hb2, Hb3.
    match goal with
    | |- scRefillHead (schedule_used ?s ?u) = _ =>
        destruct (schedule_used_frame s u) as (_ & _ & _ & ->)
    end. reflexivity. }
  assert (Hne : refills sc <> []) by now apply refills_nonempty.
  (* the refill handed to [schedule_used], and what becomes of it *)
  pose proof (qi_typed _ _ _ Hq) as Hty.
  pose proof (qi_min _ _ _ Hq) as Hmin.
  pose proof (Forall_q_tail _ _ Hne Hty) as [Htt Hta].
  pose proof (qi_window _ _ _ Hq) as Hwin.
  rewrite <- REFILL_HEAD_refills in Hwin by auto.
  unfold r_end, is_u64 in Hwin, Htt, Hta.
  assert (Hnext : wadd (rTime (REFILL_HEAD sc)) (scPeriod sc) = next).
  { apply wadd_small. pose proof (wf_period sc Hwf). fields. }
  rewrite Hnext in Hl.
  assert (Hzero := q_schedule_used_zero (scRefillMax sc) next (refills sc)
                     Hne Hty Hmin HMB).
  rewrite <- Hl in Hzero.
  rewrite <- REFILL_TAIL_refills in Hzero by auto.
  assert (Hfull : (Z.of_nat (length (refills sc)) =? scRefillMax sc) = refill_full sc).
  { unfold refill_full. rewrite length_refills. f_equal. lia. }
  rewrite Hfull in Hzero.
  assert (Hrange : rAmount (REFILL_TAIL sc) <= next < modulus).
  { rewrite (REFILL_TAIL_refills sc) by auto. subst next. fields. }
  specialize (Hzero Hrange).
  assert (Hcount : forall n : nat,
             length (refills sc') = n -> scRefillCount sc' = Z.of_nat n).
  { intros n <-. rewrite length_refills. destruct Fr as (_ & _ & ?). lia. }
  assert (Hsplit : refill_full sc = false ->
                   wmul 2 MIN_BUDGET <= rAmount (REFILL_TAIL sc) ->
                   refills sc'
                   = map_last (fun t => mk_refill (rTime t) (rAmount t - MIN_BUDGET))
                       (refills sc)
                     ++ [mk_refill (next - MIN_BUDGET) MIN_BUDGET]).
  { intros Hf Hle. rewrite Hzero, Hf. apply Z.leb_le in Hle. now rewrite Hle. }
  assert (Hmerge : refill_full sc = true \/ rAmount (REFILL_TAIL sc) < wmul 2 MIN_BUDGET ->
                   refills sc'
                   = map_last (fun t => mk_refill (next - rAmount t) (rAmount t))
                       (refills sc)).
  { intros [Hf|Hlt]; rewrite Hzero.
    - now rewrite Hf.
    - apply Z.leb_gt in Hlt. rewrite Hlt. now rewrite andb_false_r. }
  assert (Hcases : (refill_full sc = false
                    /\ wmul 2 MIN_BUDGET <= rAmount (REFILL_TAIL sc))
                   \/ (refill_full sc = true
                       \/ rAmount (REFILL_TAIL sc) < wmul 2 MIN_BUDGET)).
  { destruct (refill_full sc); [right; now left|].
    destruct (Z_le_gt_dec (wmul 2 MIN_BUDGET) (rAmount (REFILL_TAIL sc)));
      [left; now split|right; right; lia]. }
  split; [exact Hinv'|]. split; [exact Hhead|]. split; [|split; [|split]].
  - destruct Hinv as (_ & _ & S1 & _). destruct Hinv' as (_ & _ & S2 & _).
    unfold refill_sum_to_budget in *. apply Z.eqb_eq in S1, S2. lia.
  - rewrite <- (count_length_refills sc'), <- (count_length_refills sc)
      by (try apply Fr; lia).
    rewrite Hl.
    destruct (q_schedule_used_length (scRefillMax sc) (refills sc)
                (mk_refill next 0) Hne)
      as [-> | ->]; lia.
  - intros Hc2. rewrite !REFILL_HEAD_refills by (auto; apply Hinv').
    rewrite Hl. apply q_schedule_used_head.
    rewrite length_refills. lia.
  - split; [now rewrite schedule_used_refills by auto|].
    split; [|split; [|split]].
    + intros Hf Hle. split; [now apply Hsplit|].
      rewrite (Hcount (S (length (refills sc)))).
      * rewrite length_refills. lia.
      * rewrite Hsplit by auto.
        rewrite length_app, length_map_last. cbn [length]. lia.
    + intros Hc. split; [now apply Hmerge|].
      rewrite (Hcount (length (refills sc))).
      * rewrite length_refills. lia.
      * rewrite Hmerge by auto. apply length_map_last.
    + rewrite REFILL_TAIL_refills by (try apply Fr; apply Hinv').
      unfold r_end. destruct Hcases as [[Hf Hle]|Hc].
      * rewrite Hsplit by auto. rewrite q_tail_snoc. cbn [rTime rAmount]. lia.
      * rewrite Hmerge by auto.
        rewrite (map_last_removelast _ _ Hne), q_tail_snoc.
        cbn [rTime rAmount]. lia.
    + destruct Hcases as [[Hf Hle]|Hc].
      * rewrite Hsplit by auto.
        rewrite (map_last_removelast _ _ Hne), <- app_assoc.
        apply firstn_removelast_snoc.
      * rewrite Hmerge by auto.
        rewrite (map_last_removelast _ _ Hne).
        apply firstn_removelast_snoc.
Qed.

(** C6 (amended).  The split case of [schedule_used]: on a non-empty queue
    that is not full, for a refill [new] that starts after the tail has
    ended, with [new.amount < MIN_BUDGET] and
    [tail.amount + new.amount >= 2 * MIN_BUDGET], provided neither
    [tail.time + tail.amount] nor [tail.amount + new.amount] overflows 64
    bits: [remainder = MIN_BUDGET - new.amount] ticks move from the tail
    to [new], which is pushed as the new tail; both refills have at least
    [MIN_BUDGET], are ordered and disjoint, and their total is unchanged. *)
Theorem schedule_used_split (sc : sched_context_t) (new : refill_t) :
  sc_wf sc ->
  1 <= scRefillCount sc ->
  refill_typed new ->
  r_end (REFILL_TAIL sc) <= rTime new ->
  rAmount new < MIN_BUDGET ->
  refill_full sc = false ->
  2 * MIN_BUDGET <= rAmount (REFILL_TAIL sc) + rAmount new < modulus ->
  let remainder := MIN_BUDGET - rAmount new in
  let tail' := mk_refill (rTime (REFILL_TAIL sc))
                         (rAmount (REFILL_TAIL sc) - remainder) in
  let new' := mk_refill (rTime new - remainder) MIN_BUDGET in
  let sc' := schedule_used sc new in
  refills sc' = map_last (fun _ => tail') (refills sc) ++ [new']
  /\ scRefillCount sc' = scRefillCount sc + 1
  /\ REFILL_TAIL sc' = new'
  /\ MIN_BUDGET <= rAmount tail'
  /\ MIN_BUDGET <= rAmount new'
  /\ r_end tail' <= rTime new'
  /\ r_end new' = r_end new
  /\ rAmount tail' + rAmount new' = rAmount (REFILL_TAIL sc) + rAmount new
  /\ q_total (refills sc') = q_total (refills sc) + rAmount new.
Proof.
  intros Hwf Hc1 [Hn1 Hn2] Hend Hlt Hfull Hsp remainder tail' new' sc'.
  pose proof (sc_wf_ring sc Hwf) as Hr.
  pose proof MIN_BUDGET_range as HMB.
  assert (Htl : refill_typed (REFILL_TAIL sc)) by apply Hwf.
  destruct Htl as [Ht1 Ht2].
  assert (Hq : refills sc' = map_last (fun _ => tail') (refills sc) ++ [new']).
  { unfold sc'. rewrite schedule_used_refills by auto.
    unfold q_schedule_used, refill_full in *.
    destruct (refills sc) as [|h q0] eqn:Eq; [now apply refills_nonempty in Eq|].
    rewrite <- Eq. rewrite count_length_refills, Hfull by lia.
    rewrite <- REFILL_TAIL_refills by auto.
    destruct (Z.ltb_spec (rAmount new) MIN_BUDGET); [|lia].
    unfold wmul. rewrite (wrap_small (2 * MIN_BUDGET)) by fields.
    rewrite (wadd_small (rAmount (REFILL_TAIL sc)) (rAmount new)) by fields.
    destruct (Z.leb_spec (2 * MIN_BUDGET) (rAmount (REFILL_TAIL sc) + rAmount new));
      [|lia].
    cbn [andb negb].
    rewrite (wsub_small MIN_BUDGET) by fields.
    rewrite wsub_small, wadd_small by fields.
    f_equal.
    - apply map_last_ext. rewrite <- REFILL_TAIL_refills by auto.
      rewrite wsub_small by fields. reflexivity.
    - unfold new', remainder. do 2 f_equal. lia. }
  assert (Hr' : ring_wf sc') by now apply schedule_used_ring_wf.
  assert (Hc' : scRefillCount sc' = scRefillCount sc + 1).
  { rewrite <- (count_length_refills sc'), <- (count_length_refills sc)
      by (try apply Hr'; lia).
    rewrite Hq, length_app, length_map_last. cbn [length]. lia. }
  split; [exact Hq|]. split; [exact Hc'|]. split.
  { rewrite REFILL_TAIL_refills by (auto; lia). now rewrite Hq, q_tail_snoc. }
  unfold tail', new', remainder, r_end in *; cbn [rTime rAmount].
  repeat split; try fields.
  rewrite Hq.
  destruct (q_nonempty_last (refills sc) (refills_nonempty sc Hc1)) as (p & t & E).
  pose proof (REFILL_TAIL_refills sc Hr Hc1) as Et.
  rewrite E, q_tail_snoc in Et. subst t.
  rewrite E, map_last_snoc, !q_total_app. cbn [q_total rAmount]. lia.
Qed.

(** C7 (amended).  [refill_new] sets the period, the budget and the
    capacity, [head = 0], [count = 1] and the single refill
    [(ksCurTime, budget)].  [refill_ready] then holds exactly when
    [ksCurTime <= ksCurTime + wcet] in 64-bit arithmetic, hence whenever
    [ksCurTime + wcet] does not overflow; and [refill_sufficient (sc, 0)]
    holds if and only if [budget >= MIN_BUDGET]. *)
Theorem refill_new_post (ns : node_state) (sc : sched_context_t)
        (max_refills budget period : Z) :
  is_u64 budget ->
  let sc' := refill_new ns sc max_refills budget period in
  scPeriod sc' = period
  /\ scBudget sc' = budget
  /\ scRefillMax sc' = max_refills
  /\ scRefillHead sc' = 0
  /\ scRefillCount sc' = 1
  /\ refills sc' = [mk_refill (ksCurTime ns) budget]
  /\ refill_ready ns sc' = (ksCurTime ns <=? wadd (ksCurTime ns) getKernelWcetTicks)
  /\ (is_u64 (ksCurTime ns) -> 0 <= getKernelWcetTicks ->
      ksCurTime ns + getKernelWcetTicks < modulus ->
      refill_ready ns sc' = true)
  /\ (refill_sufficient sc' 0 = true <-> MIN_BUDGET <= budget).
Proof.
  intros Hb sc'.
  assert (Hh : REFILL_HEAD sc' = mk_refill (ksCurTime ns) budget).
  { unfold sc', refill_new, REFILL_HEAD, REFILL_INDEX; sc_simpl.
    now rewrite !Z.eqb_refl. }
  assert (Hready : refill_ready ns sc'
                   = (ksCurTime ns <=? wadd (ksCurTime ns) getKernelWcetTicks)).
  { unfold refill_ready. now rewrite Hh. }
  do 5 (split; [reflexivity|]).
  split.
  { rewrite refills_unfold by (unfold sc', refill_new; sc_simpl; lia).
    now rewrite Hh. }
  split; [exact Hready|]. split.
  { intros Hn Hw Hov. rewrite Hready, wadd_small by fields.
    apply Z.leb_le. lia. }
  unfold refill_sufficient, refill_capacity. rewrite Hh; cbn [rAmount].
  destruct (Z.ltb_spec budget 0); [fields|].
  rewrite wsub_small, Z.sub_0_r by fields. apply Z.leb_le.
Qed.

(** C8.  [refill_capacity (sc, usage)] is [max (0, head.amount - usage)],
    without unsigned underflow: it is 0 whenever [usage > head.amount];
    and [refill_sufficient (sc, usage)] holds if and only if that capacity
    is at least [MIN_BUDGET].  Both queries are functions of the
    scheduling context and return a value only: they do not change it. *)
Theorem refill_capacity_sufficient (sc : sched_context_t) (usage : Z) :
  refill_typed (REFILL_HEAD sc) ->
  is_u64 usage ->
  refill_capacity sc usage = Z.max 0 (rAmount (REFILL_HEAD sc) - usage)
  /\ (rAmount (REFILL_HEAD sc) < usage -> refill_capacity sc usage = 0)
  /\ (refill_sufficient sc usage = true <-> MIN_BUDGET <= refill_capacity sc usage).
Proof.
  intros [Ht Ha] Hu. unfold refill_sufficient, refill_capacity.
  destruct (Z.ltb_spec (rAmount (REFILL_HEAD sc)) usage) as [Hlt|Hge].
  - repeat split; try lia; intros H; now apply Z.leb_le.
  - rewrite wsub_small by fields.
    repeat split; try lia; intros H; now apply Z.leb_le.
Qed.

(** C9 (amended).  Every loop of the engine terminates, within
    [scRefillCount] iterations, hence within [scRefillMax] ones.  The
    coalescing loop of [refill_unblock_check] pops one refill on each
    iteration that does not break and runs at most [count - 1] times; the
    loops of [refill_sum] and [refill_print] run exactly [count] times;
    the loop of [refill_at_least_min_budget] runs at most [count] times,
    and exactly [count] times when the check succeeds; the loop of
    [refill_ordered_disjoint] starts at [seen = 1] and runs at most
    [count - 1] times, and exactly [count - 1] times when the check
    succeeds.  ([fuel] bounds the iterations of [run_loop]; any fuel
    above [count] suffices.) *)
Theorem loops_terminate (ns : node_state) (sc : sched_context_t) (fuel : nat) :
  1 <= scRefillCount sc <= scRefillMax sc ->
  is_u64 (scRefillMax sc) ->
  (Z.to_nat (scRefillCount sc) < fuel)%nat ->
  (forall s', unblock_loop_body ns sc = inl s' ->
              scRefillCount s' = scRefillCount sc - 1)
  /\ (exists pops,
        run_loop fuel (unblock_loop_body ns) sc
        = Some (refill_unblock_merge ns (Z.to_nat (refill_size sc)) sc, pops)
        /\ Z.of_nat pops <= scRefillCount sc - 1 <= scRefillMax sc - 1
        /\ scRefillCount (refill_unblock_merge ns (Z.to_nat (refill_size sc)) sc)
           = scRefillCount sc - Z.of_nat pops)
  /\ run_loop fuel (sum_loop_body sc) (0, scRefillHead sc, 0)
     = Some (refill_sum sc, Z.to_nat (scRefillCount sc))
  /\ run_loop fuel (print_loop_body sc) (scRefillHead sc, 0)
     = Some (tt, Z.to_nat (scRefillCount sc))
  /\ (exists n,
        run_loop fuel (min_budget_loop_body sc) (scRefillHead sc, 0)
        = Some (refill_at_least_min_budget sc, n)
        /\ Z.of_nat n <= scRefillCount sc <= scRefillMax sc
        /\ (refill_at_least_min_budget sc = true -> Z.of_nat n = scRefillCount sc))
  /\ (exists n,
        run_loop fuel (ordered_loop_body sc)
                 (scRefillHead sc, refill_next sc (scRefillHead sc), 1)
        = Some (refill_ordered_disjoint sc, n)
        /\ Z.of_nat n <= scRefillCount sc - 1 <= scRefillMax sc - 1
        /\ (refill_ordered_disjoint sc = true -> Z.of_nat n = scRefillCount sc - 1)).
Proof.
  intros Hc Hm Hf. unfold is_u64 in Hm.
  assert (Hcm : scRefillCount sc < modulus) by lia.
  split; [intros s'; now apply unblock_loop_body_pops|].
  split.
  { destruct (run_loop_unblock ns (Z.to_nat (refill_size sc)) fuel sc)
      as (pops & E & Hk & Hcnt); unfold refill_size; try lia.
    exists pops. repeat split; auto; lia. }
  split.
  { apply run_loop_sum; auto; lia. }
  split.
  { apply run_loop_print; auto; lia. }
  split.
  { destruct (run_loop_min_budget sc Hcm (Z.to_nat (scRefillCount sc)) fuel
                (scRefillHead sc) 0) as (k & E & Hk & Ht); try lia.
    exists k. repeat split; auto; try lia.
    intros H'. rewrite Ht by exact H'. lia. }
  destruct (run_loop_ordered sc Hcm (Z.to_nat (scRefillCount sc - 1)) fuel
              (scRefillHead sc) (refill_next sc (scRefillHead sc)) 1)
    as (k & E & Hk & Ht); try lia.
  exists k. repeat split; auto; try lia.
  intros H'. rewrite Ht by exact H'. lia.
Qed.

(** C10.  On a scheduling context with [head] in [[0, max_refills)] and
    [count] in [[0, max_refills]], every slot index that the engine
    computes is in range: [refill_next] of an index below [max_refills]
    is below [max_refills]; [refill_tail_index] is below [max_refills]
    when the queue is not empty; [refill_pop_head] keeps the head below
    [max_refills] and takes exactly 1 from the count (as a [word_t]; the
    count of a non-empty queue does not wrap); [refill_add_tail] (on a
    queue that is not full) adds exactly 1 to the count and writes a slot
    below [max_refills].  These bounds are
    kept by [schedule_used], [refill_budget_check],
    [refill_unblock_check], [refill_update] and [refill_new], whose slot
    accesses are all at the head, at the tail index, at the index next to
    the head or at index 0. *)
Theorem ring_indices_in_range (ns : node_state) (sc : sched_context_t) :
  ring_bounds sc ->
  (forall i, 0 <= i < scRefillMax sc -> 0 <= refill_next sc i < scRefillMax sc)
  /\ (1 <= scRefillCount sc -> 0 <= refill_tail_index sc < scRefillMax sc)
  /\ (0 <= scRefillHead (snd (refill_pop_head sc)) < scRefillMax sc
      /\ scRefillCount (snd (refill_pop_head sc)) = wsub (scRefillCount sc) 1
      /\ scRefillMax (snd (refill_pop_head sc)) = scRefillMax sc
      /\ (1 <= scRefillCount sc ->
          scRefillCount (snd (refill_pop_head sc)) = scRefillCount sc - 1))
  /\ (scRefillCount sc < scRefillMax sc ->
      forall r,
        scRefillCount (refill_add_tail sc r) = scRefillCount sc + 1
        /\ scRefillHead (refill_add_tail sc r) = scRefillHead sc
        /\ scRefillMax (refill_add_tail sc r) = scRefillMax sc
        /\ 0 <= refill_tail_index (refill_add_tail sc r) < scRefillMax sc)
  /\ (forall new, ring_bounds (schedule_used sc new))
  /\ (1 <= scRefillCount sc ->
      forall usage, ring_bounds (refill_budget_check ns sc usage))
  /\ ring_bounds (snd (refill_unblock_check ns sc))
  /\ (forall new_period new_budget new_max_refills,
        1 <= new_max_refills -> is_u64 new_max_refills ->
        ring_bounds (refill_update ns sc new_period new_budget new_max_refills)
        /\ ring_bounds (refill_new ns sc new_max_refills new_budget new_period)).
Proof.
  intros Hb. pose proof Hb as (Hm & Hh & Hc).
  split; [intros i Hi; now apply refill_next_range|].
  split; [now apply refill_tail_index_range|].
  split.
  { destruct (refill_pop_head_fields sc Hb) as (Hh' & Hc' & Hm').
    do 3 (split; auto).
    intros Hc1. now destruct (ring_bounds_pop_head sc Hb Hc1) as (_ & ? & _). }
  split.
  { intros Hlt r. destruct (ring_bounds_add_tail sc r Hb Hlt) as (Hb' & Hc' & Hh' & Hm').
    do 3 (split; auto).
    rewrite <- Hm'. apply refill_tail_index_range; auto. lia. }
  split; [intros new; now apply ring_bounds_schedule_used|].
  split; [intros Hc1 usage; now apply ring_bounds_budget_check|].
  split; [now apply ring_bounds_unblock_check|].
  intros P B M HM1 HM2. split.
  - now apply ring_bounds_update.
  - now apply ring_bounds_new.
Qed.

(** ** Further properties of the queue operations *)

(** *** Sums in 64-bit arithmetic *)

Lemma q_sum_wrap (q : list refill_t) :
  q <> [] -> forall sum, q_sum q sum = wrap (sum + q_total q).
Proof.
  induction q as [|r q IH]; [contradiction|]. intros _ sum.
  cbn [q_sum q_total]. destruct q as [|n q].
  - cbn [q_sum q_total]. unfold wadd. f_equal. lia.
  - rewrite IH by discriminate. unfold wadd. rewrite wrap_add_l. f_equal. lia.
Qed.

Lemma refill_sum_wrap (sc : sched_context_t) :
  refill_sum sc = wrap (q_total (refills sc)).
Proof.
  rewrite refill_sum_refills. destruct (refills sc) as [|r q] eqn:E; [reflexivity|].
  now rewrite q_sum_wrap by discriminate.
Qed.

Lemma q_total_map_last (f : refill_t -> refill_t) (q : list refill_t) :
  q <> [] ->
  q_total (map_last f q) = q_total q - rAmount (q_tail q) + rAmount (f (q_tail q)).
Proof.
  induction q as [|r q' _] using rev_ind; [contradiction|]. intros _.
  rewrite map_last_snoc, q_tail_snoc, !q_total_app. cbn [q_total]. lia.
Qed.

Lemma q_tail_map_last (f : refill_t -> refill_t) (q : list refill_t) :
  q <> [] -> q_tail (map_last f q) = f (q_tail q).
Proof.
  induction q as [|r q' _] using rev_ind; [contradiction|]. intros _.
  now rewrite map_last_snoc, !q_tail_snoc.
Qed.

Lemma wrap_eq_mod (a b : Z) : (a - b) mod modulus = 0 -> wrap a = wrap b.
Proof.
  intros H. unfold wrap. rewrite modulus_eq in *.
  Z.div_mod_to_equations. lia.
Qed.

Lemma q_schedule_used_total (max : Z) (q : list refill_t) (new : refill_t) :
  wrap (q_total (q_schedule_used max q new)) = wrap (q_total q + rAmount new).
Proof.
  unfold q_schedule_used. destruct q as [|h q0].
  - cbn [q_total]. f_equal. lia.
  - assert (Hne : h :: q0 <> []) by discriminate.
    generalize dependent (h :: q0). clear h q0. intros q Hne.
    destr_if.
    + rewrite q_total_app, q_total_map_last by auto. cbn [q_total rAmount].
      apply wrap_eq_mod. wrap_lia.
    + rewrite q_total_map_last by auto. cbn [rAmount].
      apply wrap_eq_mod. wrap_lia.
    + rewrite q_total_app. cbn [q_total]. f_equal. lia.
Qed.

Lemma q_schedule_used_end (max : Z) (q : list refill_t) (new : refill_t) :
  wadd (rTime (q_tail (q_schedule_used max q new)))
       (rAmount (q_tail (q_schedule_used max q new)))
  = wadd (rTime new) (rAmount new).
Proof.
  unfold q_schedule_used. destruct q as [|h q0]; [reflexivity|].
  assert (Hne : h :: q0 <> []) by discriminate.
  generalize dependent (h :: q0). clear h q0. intros q Hne.
  destr_if.
  - rewrite q_tail_snoc. cbn [rTime rAmount]. unfold wadd. apply wrap_eq_mod. wrap_lia.
  - rewrite q_tail_map_last by auto. cbn [rTime rAmount].
    unfold wadd. apply wrap_eq_mod. wrap_lia.
  - now rewrite q_tail_snoc.
Qed.

Lemma q_schedule_used_nonempty (max : Z) (q : list refill_t) (new : refill_t) :
  q_schedule_used max q new <> [].
Proof.
  unfold q_schedule_used. destruct q as [|h q0]; [discriminate|].
  destr_if; intros E; apply (f_equal (@length _)) in E;
    rewrite ?length_app, ?length_map_last in E; cbn [length] in E; lia.
Qed.

Lemma schedule_used_count (sc : sched_context_t) (new : refill_t) :
  ring_wf sc ->
  1 <= scRefillCount (schedule_used sc new) <= scRefillMax sc
  /\ (scRefillCount (schedule_used sc new) = scRefillCount sc
      \/ scRefillCount (schedule_used sc new) = scRefillCount sc + 1).
Proof.
  intros Hwf. pose proof Hwf as (Hm & Hh & Hc).
  unfold schedule_used, refill_empty, refill_full, refill_add_tail.
  destruct (Z.eqb_spec (scRefillCount sc) 0) as [E|E].
  - sc_simpl. rewrite wadd_small by lia. lia.
  - destruct (Z.eqb_spec (scRefillCount sc) (scRefillMax sc)) as [Ef|Ef];
      rewrite ?andb_false_r, ?orb_true_r; cbn [negb andb].
    + sc_simpl. lia.
    + destr_if; sc_simpl; rewrite ?wadd_small by lia; lia.
Qed.

(** X1.  [schedule_used] adds exactly the amount of [new] to the sum of
    the queue (in the 64-bit arithmetic of [refill_sum]), whatever branch
    it takes; the last refill of the result ends when [new] ends; the
    queue is not empty afterwards, has grown by one refill at most and
    does not exceed its capacity; and the head index is not moved. *)
Theorem schedule_used_sum_end (sc : sched_context_t) (new : refill_t) :
  ring_wf sc ->
  let sc' := schedule_used sc new in
  refill_sum sc' = wadd (refill_sum sc) (rAmount new)
  /\ wadd (rTime (REFILL_TAIL sc')) (rAmount (REFILL_TAIL sc'))
     = wadd (rTime new) (rAmount new)
  /\ 1 <= scRefillCount sc' <= scRefillMax sc
  /\ (scRefillCount sc' = scRefillCount sc
      \/ scRefillCount sc' = scRefillCount sc + 1)
  /\ scRefillHead sc' = scRefillHead sc.
Proof.
  intros Hwf sc'.
  pose proof (schedule_used_count sc new Hwf) as (Hc1 & Hc2).
  pose proof (schedule_used_ring_wf sc new Hwf) as Hwf'.
  pose proof (schedule_used_refills sc new Hwf) as Hq.
  fold sc' in Hc1, Hc2, Hwf', Hq.
  split; [|split; [|split; [exact Hc1|split; [exact Hc2|]]]].
  - rewrite !refill_sum_wrap, Hq, q_schedule_used_total.
    unfold wadd. now rewrite wrap_add_l.
  - rewrite REFILL_TAIL_refills by (auto; lia). rewrite Hq.
    apply q_schedule_used_end.
  - apply schedule_used_frame.
Qed.

(** X2.  The merge case of [schedule_used]: when the queue is full, or
    when [new] is undersized and the tail cannot spare enough for a split
    ([tail.amount + new.amount < 2 * MIN_BUDGET] in 64-bit arithmetic),
    [new] is merged into the tail: the tail gets the amount of both and is
    moved to [new.time - tail.amount], so that it ends when [new] would
    have ended; no refill is added and the others are not touched. *)
Theorem schedule_used_merge (sc : sched_context_t) (new : refill_t) :
  ring_wf sc ->
  1 <= scRefillCount sc ->
  refill_full sc = true
  \/ (rAmount new < MIN_BUDGET
      /\ wadd (rAmount (REFILL_TAIL sc)) (rAmount new) < wmul 2 MIN_BUDGET) ->
  let sc' := schedule_used sc new in
  let tail' := mk_refill (wsub (rTime new) (rAmount (REFILL_TAIL sc)))
                         (wadd (rAmount (REFILL_TAIL sc)) (rAmount new)) in
  refills sc' = map_last (fun _ => tail') (refills sc)
  /\ REFILL_TAIL sc' = tail'
  /\ scRefillCount sc' = scRefillCount sc
  /\ wadd (rTime tail') (rAmount tail') = wadd (rTime new) (rAmount new).
Proof.
  clear isRoundRobin.
  intros Hwf Hc1 Hcase sc' tail'.
  pose proof (schedule_used_ring_wf sc new Hwf) as Hwf'.
  pose proof (schedule_used_refills sc new Hwf) as Hq.
  assert (Hne : refills sc <> []) by now apply refills_nonempty.
  assert (Hl : Z.of_nat (length (refills sc)) = scRefillCount sc)
    by (apply count_length_refills; lia).
  assert (Hq' : refills sc' = map_last (fun _ => tail') (refills sc)).
  { unfold sc'. rewrite Hq. unfold q_schedule_used, tail'.
    rewrite REFILL_TAIL_refills by auto.
    destruct (refills sc) as [|h q0] eqn:Eq; [contradiction|]. rewrite <- Eq in *.
    rewrite Hl. fold (refill_full sc).
    destruct Hcase as [Hfull|[Hlt Hsp]].
    - rewrite Hfull, andb_false_r, orb_true_r. cbn [negb andb].
      now apply map_last_ext.
    - rewrite REFILL_TAIL_refills in Hsp by auto.
      apply Z.ltb_lt in Hlt. rewrite Hlt.
      apply Z.leb_gt in Hsp. rewrite Hsp, andb_false_r. cbn [orb].
      now apply map_last_ext. }
  assert (Hcnt : scRefillCount sc' = scRefillCount sc).
  { rewrite <- (count_length_refills sc') by apply Hwf'.
    rewrite Hq', length_map_last. exact Hl. }
  split; [exact Hq'|]. split; [|split; [exact Hcnt|]].
  - rewrite REFILL_TAIL_refills by (auto; lia).
    rewrite Hq'. now apply q_tail_map_last.
  - unfold tail'. cbn [rTime rAmount]. unfold wadd. apply wrap_eq_mod. wrap_lia.
Qed.

(** X3.  The push case of [schedule_used]: on a queue that is not full, a
    refill of at least [MIN_BUDGET] is appended as it is, behind the
    refills of the queue, which are not touched; on an empty queue this
    holds for a refill of any amount. *)
Theorem schedule_used_push (sc : sched_context_t) (new : refill_t) :
  ring_wf sc ->
  refill_full sc = false ->
  MIN_BUDGET <= rAmount new \/ scRefillCount sc = 0 ->
  let sc' := schedule_used sc new in
  refills sc' = refills sc ++ [new]
  /\ REFILL_TAIL sc' = new
  /\ scRefillCount sc' = scRefillCount sc + 1.
Proof.
  intros Hwf Hfull Hcase sc'.
  pose proof Hwf as (Hm & Hh & Hc).
  pose proof (schedule_used_ring_wf sc new Hwf) as Hwf'.
  pose proof (schedule_used_refills sc new Hwf) as Hq.
  assert (Hl : Z.of_nat (length (refills sc)) = scRefillCount sc)
    by (apply count_length_refills; lia).
  assert (Hq' : refills sc' = refills sc ++ [new]).
  { unfold sc'. rewrite Hq. unfold q_schedule_used.
    destruct (refills sc) as [|h q0] eqn:Eq; [reflexivity|]. rewrite <- Eq in *.
    destruct Hcase as [Hge|H0].
    - rewrite Hl. fold (refill_full sc). rewrite Hfull.
      apply Z.ltb_ge in Hge. rewrite Hge. reflexivity.
    - apply refills_nil_iff in H0; [|lia]. rewrite H0 in Eq. discriminate. }
  assert (Hcnt : scRefillCount sc' = scRefillCount sc + 1).
  { rewrite <- (count_length_refills sc') by apply Hwf'.
    rewrite Hq', length_app. cbn [length]. lia. }
  split; [exact Hq'|]. split; [|exact Hcnt].
  rewrite REFILL_TAIL_refills by (auto; lia).
  rewrite Hq'. apply q_tail_snoc.
Qed.

(** *** [refill_budget_check] without overrun *)

Lemma q_schedule_used_length_le (max : Z) (q : list refill_t) (new : refill_t) :
  (1 <= length (q_schedule_used max q new) <= S (length q))%nat.
Proof.
  destruct q as [|h q0]; [cbn; lia|].
  destruct (q_schedule_used_length max (h :: q0) new) as [E|E];
    [discriminate| |]; rewrite E; cbn [length]; lia.
Qed.

Lemma q_budget_check_charged (ns : node_state) (period budget max : Z)
      (q : list refill_t) (usage : Z) :
  q <> [] ->
  (rTime (q_head q) <=? wadd (ksCurTime ns) getKernelWcetTicks) = true ->
  usage <= rAmount (q_head q) ->
  let q' := q_budget_check ns period budget max q usage in
  wrap (q_total q') = wrap (q_total q)
  /\ wadd (rTime (q_tail q')) (rAmount (q_tail q'))
     = wrap (rTime (q_head q) + period + usage)
  /\ (1 <= length q' <= S (length q))%nat.
Proof.
  intros Hne Hready Hle q'. subst q'.
  destruct q as [|h b]; [contradiction|]. clear Hne.
  cbn [q_head hd] in *.
  unfold q_budget_check; cbn zeta. cbn [q_head hd tl rTime rAmount].
  rewrite Hready. cbn [negb orb].
  destruct (Z.ltb_spec (rAmount h) usage) as [|_]; [lia|].
  destruct (Z.eqb_spec usage (rAmount h)) as [Hex|Hnex].
  - (* exact consumption *)
    rewrite q_schedule_used_total, q_schedule_used_end. cbn [q_total rTime rAmount].
    pose proof (q_schedule_used_length_le max b
                  (mk_refill (wadd (rTime h) period) usage)).
    cbn [length]. repeat split; try lia.
    + f_equal. lia.
    + unfold wadd. now rewrite wrap_add_l.
  - destruct (MIN_BUDGET <=? wsub (rAmount h) usage).
    + rewrite q_schedule_used_total, q_schedule_used_end.
      cbn [map_head q_total rTime rAmount].
      pose proof (q_schedule_used_length_le max
                    (mk_refill (wadd (rTime h) usage) (wsub (rAmount h) usage) :: b)
                    (mk_refill (wadd (rTime h) period) usage)) as Hl.
      cbn [length] in *. repeat split; try lia.
      * apply wrap_eq_mod. wrap_lia.
      * unfold wadd. now rewrite wrap_add_l.
    + destruct b as [|n b'].
      * cbn [q_total q_tail last rTime rAmount length]. repeat split; try lia.
        -- apply wrap_eq_mod. wrap_lia.
        -- unfold wadd. apply wrap_eq_mod. wrap_lia.
      * rewrite q_schedule_used_total, q_schedule_used_end.
        cbn [map_head q_total rTime rAmount].
        match goal with
        | |- context [q_schedule_used max ?X ?u] =>
            pose proof (q_schedule_used_length_le max X u) as Hl
        end.
        cbn [length] in *. repeat split; try lia.
        -- apply wrap_eq_mod. wrap_lia.
        -- unfold wadd. now rewrite wrap_add_l.
Qed.

(** X4.  A charge that is not an overrun (the head is ready and holds at
    least [usage]) conserves the budget: the sum of the refills is the same
    before and after [refill_budget_check], in the 64-bit arithmetic of
    [refill_sum] and whatever branch is taken.  The used time is
    replenished one period after the head: the last refill of the queue
    ends at [head.time + period + usage].  The queue keeps at least one
    refill and grows by one at most. *)
Theorem budget_check_conserves (ns : node_state) (sc : sched_context_t) (usage : Z) :
  ring_wf sc ->
  1 <= scRefillCount sc ->
  refill_ready ns sc = true ->
  usage <= rAmount (REFILL_HEAD sc) ->
  let sc' := refill_budget_check ns sc usage in
  refill_sum sc' = refill_sum sc
  /\ wadd (rTime (REFILL_TAIL sc')) (rAmount (REFILL_TAIL sc'))
     = wrap (rTime (REFILL_HEAD sc) + scPeriod sc + usage)
  /\ 1 <= scRefillCount sc' <= scRefillCount sc + 1.
Proof.
  intros Hwf Hc1 Hready Hle sc'.
  destruct (refill_budget_check_frame ns sc usage Hwf Hc1) as (Hwf' & _).
  pose proof (refill_budget_check_refills ns sc usage Hwf Hc1) as Hq.
  fold sc' in Hwf', Hq.
  unfold refill_ready in Hready.
  rewrite REFILL_HEAD_refills in * by auto.
  destruct (q_budget_check_charged ns (scPeriod sc) (scBudget sc) (scRefillMax sc)
              (refills sc) usage) as (R1 & R2 & R3); auto.
  { now apply refills_nonempty. }
  rewrite <- Hq in R1, R2, R3.
  assert (Hcnt : 1 <= scRefillCount sc' <= scRefillCount sc + 1).
  { rewrite <- (count_length_refills sc') by apply Hwf'.
    rewrite <- (count_length_refills sc) by lia. lia. }
  split; [|split; [|exact Hcnt]].
  - now rewrite !refill_sum_wrap.
  - rewrite REFILL_TAIL_refills by (auto; lia). exact R2.
Qed.

Lemma budget_check_conserves_count (ns : node_state) (sc : sched_context_t) (usage : Z) :
  ring_wf sc -> 1 <= scRefillCount sc ->
  refill_ready ns sc = true -> usage <= rAmount (REFILL_HEAD sc) ->
  1 <= scRefillCount (refill_budget_check ns sc usage).
Proof.
  intros Hwf Hc1 Hready Hle.
  destruct (refill_budget_check_frame ns sc usage Hwf Hc1) as (Hwf' & _).
  pose proof (refill_budget_check_refills ns sc usage Hwf Hc1) as Hq.
  unfold refill_ready in Hready.
  rewrite REFILL_HEAD_refills in * by auto.
  destruct (q_budget_check_charged ns (scPeriod sc) (scBudget sc) (scRefillMax sc)
              (refills sc) usage) as (_ & _ & R3); auto.
  { now apply refills_nonempty. }
  rewrite <- Hq in R3.
  rewrite <- (count_length_refills (refill_budget_check ns sc usage)) by apply Hwf'.
  lia.
Qed.

(** *** [refill_unblock_check] *)

Lemma q_unblock_merge_total (t : Z) :
  forall (rest : list refill_t) (h : refill_t),
    wrap (q_total (q_unblock_merge t h rest)) = wrap (rAmount h + q_total rest).
Proof.
  induction rest as [|n rest' IH]; intros h; cbn [q_unblock_merge q_total].
  - reflexivity.
  - destruct (_ <=? _); [|reflexivity].
    rewrite IH. cbn [rAmount]. apply wrap_eq_mod. wrap_lia.
Qed.

Lemma q_unblock_merge_length (t : Z) :
  forall (rest : list refill_t) (h : refill_t),
    (1 <= length (q_unblock_merge t h rest) <= S (length rest))%nat.
Proof.
  induction rest as [|n rest' IH]; intros h; cbn [q_unblock_merge length].
  - lia.
  - destruct (_ <=? _); [|cbn [length]; lia].
    specialize (IH (mk_refill t (wadd (rAmount n) (rAmount h)))). lia.
Qed.

(** The merged queue starts at [t], and its head ends before the next
    refill starts. *)
Lemma q_unblock_merge_exit (t : Z) :
  forall (rest : list refill_t) (h : refill_t),
    rTime h = t ->
    let q' := q_unblock_merge t h rest in
    rTime (q_head q') = t
    /\ (tl q' = []
        \/ (rTime (q_head (tl q')) <=? wadd (rTime (q_head q')) (rAmount (q_head q')))
           = false).
Proof.
  induction rest as [|n rest' IH]; intros h Hh; cbn [q_unblock_merge].
  - cbn [q_head hd tl]. auto.
  - destruct (rTime n <=? wadd (rTime h) (rAmount h)) eqn:E.
    + now apply IH.
    + cbn [q_head hd tl]. auto.
Qed.

Lemma unblock_check_head (ns : node_state) (sc : sched_context_t) :
  ring_wf sc -> 1 <= scRefillCount sc ->
  isRoundRobin sc = false -> refill_ready ns sc = true ->
  let sc' := snd (refill_unblock_check ns sc) in
  1 <= scRefillCount sc'
  /\ rTime (REFILL_HEAD sc') = wadd (ksCurTime ns) getKernelWcetTicks
  /\ (scRefillCount sc' = 1
      \/ (2 <= scRefillCount sc'
          /\ wadd (rTime (REFILL_HEAD sc')) (rAmount (REFILL_HEAD sc'))
             < rTime (REFILL_INDEX sc' (refill_next sc' (scRefillHead sc'))))).
Proof.
  intros Hwf Hc1 Hrr Hready sc'.
  destruct (refill_unblock_check_refills ns sc Hwf Hc1) as (Hq & Hwf' & _).
  fold sc' in Hq, Hwf'. rewrite Hrr, Hready in Hq.
  pose proof (q_unblock_merge_length (wadd (ksCurTime ns) getKernelWcetTicks)
                (tl (refills sc))
                (mk_refill (wadd (ksCurTime ns) getKernelWcetTicks)
                           (rAmount (q_head (refills sc))))) as Hl.
  destruct (q_unblock_merge_exit (wadd (ksCurTime ns) getKernelWcetTicks)
              (tl (refills sc))
              (mk_refill (wadd (ksCurTime ns) getKernelWcetTicks)
                         (rAmount (q_head (refills sc)))) eq_refl) as (E1 & E2).
  rewrite <- Hq in Hl, E1, E2.
  assert (Hcnt : 1 <= scRefillCount sc').
  { rewrite <- (count_length_refills sc') by apply Hwf'. lia. }
  split; [exact Hcnt|]. split.
  - now rewrite REFILL_HEAD_refills.
  - destruct (Z.eq_dec (scRefillCount sc') 1) as [|Hn1]; [now left|right].
    assert (Hc2 : 2 <= scRefillCount sc') by lia.
    split; [exact Hc2|].
    rewrite REFILL_HEAD_refills, REFILL_next_refills by auto.
    destruct E2 as [E2|E2].
    + exfalso. apply (f_equal (@length _)) in E2. cbn [length] in E2.
      assert (Hlen : Z.of_nat (length (refills sc')) = scRefillCount sc')
        by (apply count_length_refills; lia).
      destruct (refills sc') as [|? [|? ?]]; cbn [length tl] in *; lia.
    + now apply Z.leb_gt in E2.
Qed.

(** X5.  [refill_unblock_check] conserves the budget: the sum of the
    refills is the same before and after the call (in the 64-bit
    arithmetic of [refill_sum]); refills are only ever merged, so the queue
    does not grow, and it keeps at least one refill; period, budget and
    capacity are not touched, and the kernel time is not changed. *)
Theorem unblock_check_conserves (ns : node_state) (sc : sched_context_t) :
  ring_wf sc ->
  1 <= scRefillCount sc ->
  let ns' := fst (refill_unblock_check ns sc) in
  let sc' := snd (refill_unblock_check ns sc) in
  refill_sum sc' = refill_sum sc
  /\ 1 <= scRefillCount sc' <= scRefillCount sc
  /\ scPeriod sc' = scPeriod sc
  /\ scBudget sc' = scBudget sc
  /\ scRefillMax sc' = scRefillMax sc
  /\ ksCurTime ns' = ksCurTime ns.
Proof.
  intros Hwf Hc1 ns' sc'.
  destruct (refill_unblock_check_refills ns sc Hwf Hc1) as (Hq & Hwf' & Fp & Fb & Fm).
  fold sc' in Hq, Hwf', Fp, Fb, Fm.
  assert (Hshape : refills sc = q_head (refills sc) :: tl (refills sc)).
  { destruct (refills sc) eqn:E; [|reflexivity].
    apply refills_nil_iff in E; lia. }
  assert (Hl : Z.of_nat (length (refills sc)) = scRefillCount sc)
    by (apply count_length_refills; lia).
  assert (Hl' : Z.of_nat (length (refills sc')) = scRefillCount sc')
    by (apply count_length_refills; apply Hwf').
  assert (Hns : ksCurTime ns' = ksCurTime ns).
  { unfold ns', refill_unblock_check. destr_if; reflexivity. }
  split; [|split; [|auto]].
  - rewrite !refill_sum_wrap, Hq.
    destruct (isRoundRobin sc); [reflexivity|].
    destruct (refill_ready ns sc); [|reflexivity].
    rewrite q_unblock_merge_total. cbn [rAmount].
    rewrite Hshape at 3. reflexivity.
  - rewrite <- Hl, <- Hl', Hq.
    destruct (isRoundRobin sc); [lia|].
    destruct (refill_ready ns sc); [|lia].
    match goal with
    | |- context [q_unblock_merge ?t ?h ?r] =>
        pose proof (q_unblock_merge_length t r h) as Hm
    end.
    assert (Hls : length (refills sc) = S (length (tl (refills sc))))
      by (rewrite Hshape; reflexivity).
    lia.
Qed.

Lemma refill_unblock_merge_stop (ns : node_state) (bound : nat) (sc : sched_context_t) :
  scRefillCount sc <= 1
  \/ wadd (rTime (REFILL_HEAD sc)) (rAmount (REFILL_HEAD sc))
     < rTime (REFILL_INDEX sc (refill_next sc (scRefillHead sc))) ->
  refill_unblock_merge ns bound sc = sc.
Proof.
  intros H. destruct bound as [|bound]; [reflexivity|].
  cbn [refill_unblock_merge]. unfold refill_size.
  destruct (Z.ltb_spec 1 (scRefillCount sc)) as [Hc|Hc]; [|reflexivity].
  destruct H as [H|H]; [lia|].
  apply Z.leb_gt in H. now rewrite H.
Qed.

Lemma refills_from_pointwise (sc sc' : sched_context_t) :
  (forall i, scRefills sc' i = scRefills sc i) ->
  scRefillMax sc' = scRefillMax sc ->
  forall (n : nat) (i : Z), refills_from sc' n i = refills_from sc n i.
Proof.
  intros Hs Hm. induction n as [|n IH]; intros i; [reflexivity|].
  cbn [refills_from]. unfold REFILL_INDEX, refill_next.
  rewrite Hs, Hm. f_equal. apply IH.
Qed.

(** X6.  After [refill_unblock_check] has run on a scheduling context that
    is ready and not round-robin, the head refill starts at
    [ksCurTime + getKernelWcetTicks ()] and no refill is left that it
    could be merged with: either it is the only refill, or it ends (in
    64-bit arithmetic) before the next one starts.  So a second call at
    the same time changes nothing: the node state, the period, the budget
    and the indices of the ring are the same, and so is every slot of the
    buffer. *)
Theorem unblock_check_idempotent (ns : node_state) (sc : sched_context_t) :
  ring_wf sc ->
  1 <= scRefillCount sc ->
  let ns1 := fst (refill_unblock_check ns sc) in
  let sc1 := snd (refill_unblock_check ns sc) in
  let ns2 := fst (refill_unblock_check ns1 sc1) in
  let sc2 := snd (refill_unblock_check ns1 sc1) in
  (isRoundRobin sc = false -> refill_ready ns sc = true ->
   rTime (REFILL_HEAD sc1) = wadd (ksCurTime ns) getKernelWcetTicks
   /\ (scRefillCount sc1 = 1
       \/ wadd (rTime (REFILL_HEAD sc1)) (rAmount (REFILL_HEAD sc1))
          < rTime (REFILL_INDEX sc1 (refill_next sc1 (scRefillHead sc1)))))
  /\ ns2 = ns1
  /\ scPeriod sc2 = scPeriod sc1
  /\ scBudget sc2 = scBudget sc1
  /\ scRefillMax sc2 = scRefillMax sc1
  /\ scRefillHead sc2 = scRefillHead sc1
  /\ scRefillCount sc2 = scRefillCount sc1
  /\ (forall i, scRefills sc2 i = scRefills sc1 i)
  /\ refills sc2 = refills sc1.
Proof.
  intros Hwf Hc1 ns1 sc1 ns2 sc2.
  split.
  { intros Hrr Hready.
    destruct (unblock_check_head ns sc Hwf Hc1 Hrr Hready) as (_ & H2 & H3).
    fold sc1 in H2, H3. split; [exact H2|]. destruct H3 as [H3|[_ H3]]; auto. }
  assert (Hsame : refill_unblock_check ns1 sc1 = (ns1, sc1)
                  \/ (isRoundRobin sc = false /\ refill_ready ns sc = true
                      /\ isRoundRobin sc1 = false /\ refill_ready ns1 sc1 = true)).
  { destruct (isRoundRobin sc) eqn:Hrr.
    { left. unfold ns1, sc1, refill_unblock_check. rewrite Hrr. cbn [fst snd].
      now rewrite Hrr. }
    destruct (refill_ready ns sc) eqn:Hready.
    - destruct (isRoundRobin sc1) eqn:Hrr1.
      { left. unfold refill_unblock_check. now rewrite Hrr1. }
      destruct (refill_ready ns1 sc1) eqn:Hready1.
      + right. auto.
      + left. unfold refill_unblock_check. now rewrite Hrr1, Hready1.
    - left. unfold ns1, sc1, refill_unblock_check. rewrite Hrr, Hready. cbn [fst snd].
      now rewrite Hrr, Hready. }
  destruct Hsame as [Hsame|(Hrr & Hready & Hrr1 & Hready1)].
  { unfold ns2, sc2. rewrite Hsame. cbn [fst snd]. repeat split; reflexivity. }
  destruct (refill_unblock_check_refills ns sc Hwf Hc1) as (_ & Hwf1 & _).
  fold sc1 in Hwf1.
  destruct (unblock_check_head ns sc Hwf Hc1 Hrr Hready) as (Hcnt1 & Hh1 & Hex1).
  fold sc1 in Hcnt1, Hh1, Hex1.
  assert (Hns1 : ns1 = mk_ns (ksCurTime ns) true).
  { unfold ns1, refill_unblock_check. now rewrite Hrr, Hready. }
  assert (Hhead : mk_refill (wadd (ksCurTime ns) getKernelWcetTicks)
                            (rAmount (REFILL_HEAD sc1)) = REFILL_HEAD sc1).
  { rewrite <- Hh1. now destruct (REFILL_HEAD sc1). }
  assert (Hslots : forall i,
             scRefills (set_rTime sc1 (scRefillHead sc1)
                                  (wadd (ksCurTime ns) getKernelWcetTicks)) i
             = scRefills sc1 i).
  { intros i. unfold set_rTime; sc_simpl.
    destruct (Z.eqb_spec i (scRefillHead sc1)) as [->|]; [|reflexivity].
    exact Hhead. }
  assert (E2 : refill_unblock_check ns1 sc1
               = (ns1, set_rTime sc1 (scRefillHead sc1)
                                 (wadd (ksCurTime ns) getKernelWcetTicks))).
  { assert (Ht1 : ksCurTime ns1 = ksCurTime ns) by now rewrite Hns1.
    unfold refill_unblock_check at 1. rewrite Hrr1, Hready1.
    cbn [ksCurTime]. rewrite !Ht1, <- Hns1.
    rewrite refill_unblock_merge_stop; [reflexivity|].
    destruct Hex1 as [Hex1|[Hc2 Hex1]]; [left; sc_simpl; lia|right].
    pose proof Hwf1 as (Hm1 & Hhd1 & Hcc1).
    unfold REFILL_HEAD, REFILL_INDEX in *. rewrite !Hslots.
    unfold refill_next in *. sc_simpl. exact Hex1. }
  unfold ns2, sc2. rewrite E2. cbn [fst snd].
  split; [reflexivity|]. do 5 (split; [reflexivity|]).
  split; [exact Hslots|].
  unfold refills. sc_simpl.
  apply refills_from_pointwise; [exact Hslots|reflexivity].
Qed.

(** *** The queries and the charge *)

Lemma refill_sufficient_0 (sc : sched_context_t) :
  is_u64 (rAmount (REFILL_HEAD sc)) ->
  refill_sufficient sc 0 = (MIN_BUDGET <=? rAmount (REFILL_HEAD sc)).
Proof.
  intros Ha. unfold refill_sufficient, refill_capacity, is_u64 in *.
  destruct (Z.ltb_spec (rAmount (REFILL_HEAD sc)) 0); [lia|].
  rewrite wsub_small by lia. now rewrite Z.sub_0_r.
Qed.

(** X7.  [refill_sufficient] predicts the charge: when the head is ready
    and [refill_sufficient (sc, usage)] holds, [refill_budget_check (usage)]
    is not an overrun and leaves a head refill of at least [MIN_BUDGET], so
    that [refill_sufficient (sc, 0)] holds afterwards; in a queue of two or
    more refills the head is exactly what is left of it,
    [(head.time + usage, head.amount - usage)]. *)
Theorem sufficient_budget_check (ns : node_state) (sc : sched_context_t) (usage : Z) :
  ring_wf sc ->
  1 <= scRefillCount sc ->
  refill_typed (REFILL_HEAD sc) ->
  is_u64 usage ->
  0 < MIN_BUDGET ->
  2 * MIN_BUDGET < modulus ->
  refill_ready ns sc = true ->
  refill_sufficient sc usage = true ->
  let sc' := refill_budget_check ns sc usage in
  refill_sufficient sc' 0 = true
  /\ MIN_BUDGET <= rAmount (REFILL_HEAD sc') < modulus
  /\ (2 <= scRefillCount sc ->
      REFILL_HEAD sc'
      = mk_refill (wadd (rTime (REFILL_HEAD sc)) usage)
                  (rAmount (REFILL_HEAD sc) - usage)).
Proof.
  intros Hwf Hc1 [Hht Hha] Hu HMB HMB2 Hready Hsuff sc'.
  destruct (refill_budget_check_frame ns sc usage Hwf Hc1) as (Hwf' & _).
  pose proof (refill_budget_check_refills ns sc usage Hwf Hc1) as Hq.
  fold sc' in Hwf', Hq.
  assert (Hc1' : 1 <= scRefillCount sc').
  { assert (Hle : usage <= rAmount (REFILL_HEAD sc)).
    { unfold refill_sufficient, refill_capacity in Hsuff.
      destruct (Z.ltb_spec (rAmount (REFILL_HEAD sc)) usage); [|lia].
      apply Z.leb_le in Hsuff. lia. }
    apply (budget_check_conserves_count ns sc usage); auto. }
  assert (Hl : Z.of_nat (length (refills sc)) = scRefillCount sc)
    by (apply count_length_refills; lia).
  unfold refill_ready, refill_sufficient, refill_capacity in Hready, Hsuff.
  rewrite REFILL_HEAD_refills in * by auto.
  unfold q_budget_check in Hq; cbn zeta in Hq.
  destruct (refills sc) as [|h b] eqn:Eq; [cbn in Hl; lia|].
  cbn [q_head hd tl] in *.
  unfold is_u64 in *.
  destruct (Z.ltb_spec (rAmount h) usage) as [|Hle]; [apply Z.leb_le in Hsuff; lia|].
  apply Z.leb_le in Hsuff. rewrite wsub_small in Hsuff by lia.
  rewrite Hready in Hq. cbn [negb orb] in Hq.
  destruct (Z.eqb_spec usage (rAmount h)) as [|_]; [lia|].
  rewrite (wsub_small (rAmount h) usage) in Hq by lia.
  destruct (Z.leb_spec MIN_BUDGET (rAmount h - usage)) as [_|]; [|lia].
  cbn [map_head] in Hq.
  assert (Hhead : MIN_BUDGET <= rAmount (q_head (refills sc')) < modulus
                  /\ (b <> [] ->
                      q_head (refills sc')
                      = mk_refill (wadd (rTime h) usage) (rAmount h - usage))).
  { rewrite Hq. destruct b as [|n b'].
    - split; [|contradiction].
      unfold q_schedule_used. cbn [length Z.of_nat q_tail last rAmount rTime].
      unfold wmul. rewrite (wrap_small (2 * MIN_BUDGET)) by lia.
      rewrite (wadd_small (rAmount h - usage) usage) by lia.
      replace (rAmount h - usage + usage) with (rAmount h) by lia.
      destr_if; cbn [map_last app q_head hd rAmount];
        repeat match goal with
          | H : (_ && _)%bool = true |- _ => apply andb_prop in H as [? ?]
          | H : (_ <? _) = true |- _ => apply Z.ltb_lt in H
          | H : (_ <? _) = false |- _ => apply Z.ltb_ge in H
          | H : (_ <=? _) = true |- _ => apply Z.leb_le in H
          end.
      + rewrite (wsub_small MIN_BUDGET usage) by lia.
        rewrite wsub_small by lia. lia.
      + rewrite wadd_small by lia. lia.
      + lia.
    - split.
      + rewrite q_schedule_used_head by (cbn [length]; lia).
        cbn [q_head hd rAmount]. lia.
      + intros _. now rewrite q_schedule_used_head by (cbn [length]; lia). }
  destruct Hhead as [Hh1 Hh2].
  split; [|split; [exact Hh1|]].
  - rewrite refill_sufficient_0;
      rewrite REFILL_HEAD_refills by auto; [apply Z.leb_le|unfold is_u64]; lia.
  - intros Hc2. rewrite (REFILL_HEAD_refills sc), Eq by auto. cbn [q_head hd].
    apply Hh2. intros ->. cbn [length] in Hl. lia.
Qed.

(** X8.  Charging more never leaves more: [refill_capacity] is antitone
    in [usage], and [refill_sufficient] for a usage implies
    [refill_sufficient] for every smaller usage. *)
Theorem refill_capacity_antitone (sc : sched_context_t) (usage usage' : Z) :
  refill_typed (REFILL_HEAD sc) ->
  0 <= usage <= usage' ->
  0 <= refill_capacity sc usage' <= refill_capacity sc usage
  /\ refill_capacity sc usage <= rAmount (REFILL_HEAD sc)
  /\ (refill_sufficient sc usage' = true -> refill_sufficient sc usage = true).
Proof.
  intros [Hht Hha] Hu. unfold refill_sufficient, refill_capacity, is_u64 in *.
  assert (Hcap : 0 <= (if rAmount (REFILL_HEAD sc) <? usage' then 0
                       else wsub (rAmount (REFILL_HEAD sc)) usage')
                 <= (if rAmount (REFILL_HEAD sc) <? usage then 0
                     else wsub (rAmount (REFILL_HEAD sc)) usage)
                 /\ (if rAmount (REFILL_HEAD sc) <? usage then 0
                     else wsub (rAmount (REFILL_HEAD sc)) usage)
                    <= rAmount (REFILL_HEAD sc)).
  { destruct (Z.ltb_spec (rAmount (REFILL_HEAD sc)) usage');
      destruct (Z.ltb_spec (rAmount (REFILL_HEAD sc)) usage);
      rewrite ?wsub_small by lia; lia. }
  split; [apply Hcap|]. split; [apply Hcap|].
  intros H. apply Z.leb_le in H. apply Z.leb_le. lia.
Qed.

(** *** The ring buffer as a queue *)

(** X9.  The ring buffer is a first-in first-out queue: [refill_add_tail]
    appends the refill behind the others, [refill_pop_head] returns the
    first refill and leaves the rest, neither touches the other refills;
    so a refill added to an empty queue is the one popped next. *)
Theorem ring_fifo (sc : sched_context_t) (r : refill_t) :
  ring_wf sc ->
  (scRefillCount sc < scRefillMax sc ->
   refills (refill_add_tail sc r) = refills sc ++ [r]
   /\ fst (refill_pop_head (refill_add_tail sc r)) = q_head (refills sc ++ [r])
   /\ refills (snd (refill_pop_head (refill_add_tail sc r))) = tl (refills sc ++ [r]))
  /\ (1 <= scRefillCount sc ->
      fst (refill_pop_head sc) = q_head (refills sc)
      /\ refills (snd (refill_pop_head sc)) = tl (refills sc))
  /\ (scRefillCount sc = 0 ->
      fst (refill_pop_head (refill_add_tail sc r)) = r
      /\ refills (snd (refill_pop_head (refill_add_tail sc r))) = []).
Proof.
  intros Hwf. pose proof Hwf as (Hm & Hh & Hc).
  assert (Hpop : forall s, ring_wf s -> 1 <= scRefillCount s ->
                           fst (refill_pop_head s) = q_head (refills s)
                           /\ refills (snd (refill_pop_head s)) = tl (refills s)).
  { intros s Hs Hs1. split.
    - cbn [refill_pop_head fst]. now apply REFILL_HEAD_refills.
    - apply refills_pop_head. destruct Hs as (? & ? & ?). lia. }
  assert (Hadd : scRefillCount sc < scRefillMax sc ->
                 refills (refill_add_tail sc r) = refills sc ++ [r]
                 /\ fst (refill_pop_head (refill_add_tail sc r))
                    = q_head (refills sc ++ [r])
                 /\ refills (snd (refill_pop_head (refill_add_tail sc r)))
                    = tl (refills sc ++ [r])).
  { intros Hlt.
    pose proof (refills_add_tail sc r Hwf Hlt) as Ha.
    pose proof (ring_wf_add_tail sc r Hwf Hlt) as Hwa.
    assert (Hca : 1 <= scRefillCount (refill_add_tail sc r)).
    { unfold refill_add_tail; sc_simpl. rewrite wadd_small; lia. }
    destruct (Hpop _ Hwa Hca) as [P1 P2]. rewrite Ha in P1, P2. auto. }
  split; [exact Hadd|]. split; [now apply Hpop|].
  intros H0. destruct Hadd as (_ & A2 & A3); [lia|].
  rewrite (refills_empty sc) in A2, A3 by lia. auto.
Qed.

(** *** Used budget is not available again before it is replenished *)

Lemma q_budget_check_head_later (ns : node_state) (period budget max : Z)
      (q : list refill_t) (usage : Z) :
  q_inv period budget q ->
  is_u64 period -> is_u64 usage ->
  Z.of_nat (length q) <= max ->
  rTime (q_head q) + period + rAmount (q_head q) < modulus ->
  rTime (q_head q) + period + usage < modulus ->
  rTime (q_head q) + usage
  <= rTime (q_head (q_budget_check ns period budget max q usage)).
Proof.
  intros Hinv Hp Hu Hlen Hrep Hrepu.
  pose proof MIN_BUDGET_range as HMBr.
  pose proof (q_inv_head_le_end _ _ _ Hinv) as [Hspan Hbp].
  pose proof (q_chain_ends q (qi_typed _ _ _ Hinv) (qi_chain _ _ _ Hinv)
                (qi_end _ _ _ Hinv)) as Hends.
  destruct Hinv as [Hne Ht Hc Hm Htot Hw He].
  destruct q as [|h b]; [contradiction|]. clear Hne.
  cbn [q_head hd] in *.
  inversion Ht as [|? ? [Hh1 Hh2] Htb]; subst.
  inversion Hm as [|? ? Hmh Hmb]; subst.
  inversion Hends as [|? ? Heh Heb]; subst.
  pose proof (q_total_nonneg b Htb) as Hnnb.
  cbn [q_total] in *.
  assert (HMB2 : 2 * MIN_BUDGET < modulus) by fields.
  unfold q_budget_check; cbn zeta. cbn [q_head hd tl rTime rAmount].
  rewrite (wadd_small (rTime h) period) by fields.
  destruct (negb _ || (rAmount h <? usage)) eqn:Hover.
  { cbn [q_head hd rTime]. rewrite wadd_small by fields. fields. }
  apply orb_false_elim in Hover as [_ Hle]. apply Z.ltb_ge in Hle.
  assert (Hused : refill_typed (mk_refill (rTime h + period) usage)) by fields.
  assert (Huse : r_end (mk_refill (rTime h + period) usage) < modulus) by fields.
  destruct (Z.eqb_spec usage (rAmount h)) as [Hex|Hnex].
  - (* exact consumption *)
    destruct b as [|n b'].
    + cbn [q_schedule_used q_head hd rTime]. fields.
    + pose proof (q_chain_second _ _ _ Hc) as H2.
      rewrite q_tail_cons in Hw, He by discriminate.
      assert (A1 : n :: b' <> []) by discriminate.
      assert (A3 : q_chain (n :: b')) by now apply q_chain_tl in Hc.
      assert (A5 : r_end (q_tail (n :: b')) <= rTime (mk_refill (rTime h + period) usage))
        by fields.
      assert (A7 : Z.of_nat (length (n :: b')) <= max) by (cbn [length] in *; lia).
      destruct (q_schedule_used_ok max _ _ A1 Htb A3 Hmb Hused A5 Huse HMB2 A7)
        as (R1 & R2 & R3 & R4 & R5 & R6 & R7 & R8).
      cbn [q_head hd] in R7. fields.
  - rewrite (wsub_small (rAmount h) usage) by fields.
    destruct (Z.leb_spec MIN_BUDGET (rAmount h - usage)) as [Hrem|Hrem].
    + (* the head keeps a viable remnant *)
      rewrite (wadd_small (rTime h) usage) by fields.
      cbn [map_head].
      assert (A1 : mk_refill (rTime h + usage) (rAmount h - usage) :: b <> [])
        by discriminate.
      assert (A2 : Forall refill_typed
                     (mk_refill (rTime h + usage) (rAmount h - usage) :: b))
        by (constructor; [fields|auto]).
      assert (A3 : q_chain (mk_refill (rTime h + usage) (rAmount h - usage) :: b))
        by (apply (q_chain_head h); [auto|fields]).
      assert (A4 : Forall (fun r => MIN_BUDGET <= rAmount r)
                     (mk_refill (rTime h + usage) (rAmount h - usage) :: b))
        by (constructor; [fields|auto]).
      assert (A5 : r_end (q_tail (mk_refill (rTime h + usage) (rAmount h - usage) :: b))
                   <= rTime (mk_refill (rTime h + period) usage)).
      { destruct b as [|n b'].
        - cbn [q_tail last]. fields.
        - rewrite q_tail_cons in Hw, He by discriminate.
          rewrite q_tail_cons by discriminate. fields. }
      destruct (q_schedule_used_ok max _ _ A1 A2 A3 A4 Hused A5 Huse HMB2 Hlen)
        as (R1 & R2 & R3 & R4 & R5 & R6 & R7 & R8).
      cbn [q_head hd rTime] in R7. exact R7.
    + (* the remnant goes to what follows *)
      destruct b as [|n b'].
      * rewrite wsub_small, wadd_small by fields.
        cbn [q_head hd rTime]. fields.
      * pose proof (q_chain_second _ _ _ Hc) as H2.
        inversion Htb as [|? ? [Hn1 Hn2] Htb']; subst.
        inversion Hmb as [|? ? Hmn Hmb']; subst.
        inversion Heb as [|? ? Hen Heb']; subst.
        rewrite q_tail_cons in Hw, He by discriminate.
        cbn [map_head].
        rewrite wsub_small, wadd_small by fields.
        assert (A1 : mk_refill (rTime n - (rAmount h - usage))
                               (rAmount n + (rAmount h - usage)) :: b' <> [])
          by discriminate.
        assert (A2 : Forall refill_typed
                       (mk_refill (rTime n - (rAmount h - usage))
                                  (rAmount n + (rAmount h - usage)) :: b'))
          by (constructor; [fields|auto]).
        assert (A3 : q_chain (mk_refill (rTime n - (rAmount h - usage))
                                        (rAmount n + (rAmount h - usage)) :: b')).
        { apply q_chain_tl in Hc. apply (q_chain_head n); [auto|fields]. }
        assert (A4 : Forall (fun r => MIN_BUDGET <= rAmount r)
                       (mk_refill (rTime n - (rAmount h - usage))
                                  (rAmount n + (rAmount h - usage)) :: b'))
          by (constructor; [fields|auto]).
        assert (A5 : r_end (q_tail (mk_refill (rTime n - (rAmount h - usage))
                                              (rAmount n + (rAmount h - usage)) :: b'))
                     <= rTime (mk_refill (rTime h + period) usage)).
        { destruct b' as [|m b''].
          - cbn [q_tail last] in *. fields.
          - rewrite q_tail_cons in Hw, He by discriminate.
            rewrite q_tail_cons by discriminate. fields. }
        assert (A7 : Z.of_nat (length (mk_refill (rTime n - (rAmount h - usage))
                                                 (rAmount n + (rAmount h - usage)) :: b'))
                     <= max) by (cbn [length] in *; lia).
        destruct (q_schedule_used_ok max _ _ A1 A2 A3 A4 Hused A5 Huse HMB2 A7)
          as (R1 & R2 & R3 & R4 & R5 & R6 & R7 & R8).
        cbn [q_head hd rTime] in R7. fields.
Qed.

(** X10.  Budget that has been used is not available again before it is
    replenished: on a well-formed scheduling context that has the
    invariants, after [refill_budget_check (usage)] the head refill starts
    at [head.time + usage] at the earliest, whatever branch is taken,
    provided the 64-bit arithmetic does not overflow. *)
Theorem budget_check_head_later (ns : node_state) (sc : sched_context_t) (usage : Z) :
  sc_wf sc ->
  universal_invariants sc ->
  no_overflow sc ->
  is_u64 usage ->
  rTime (REFILL_HEAD sc) + scPeriod sc + rAmount (REFILL_HEAD sc) < modulus ->
  rTime (REFILL_HEAD sc) + scPeriod sc + usage < modulus ->
  rTime (REFILL_HEAD sc) + usage
  <= rTime (REFILL_HEAD (refill_budget_check ns sc usage)).
Proof.
  intros Hwf Hinv Hno Hu Hrep Hrepu.
  pose proof (sc_wf_ring sc Hwf) as Hr.
  pose proof (sc_q_inv sc Hwf Hinv Hno) as Hq.
  assert (Hc1 : 1 <= scRefillCount sc) by apply Hinv.
  destruct (refill_budget_check_invariants ns sc usage Hwf Hinv Hno Hu Hrep)
    as [(_ & _ & _ & _ & _ & Hc1') _].
  pose proof (refill_budget_check_refills ns sc usage Hr Hc1) as Hl.
  rewrite (REFILL_HEAD_refills (refill_budget_check ns sc usage)) by auto.
  rewrite REFILL_HEAD_refills in * by auto.
  rewrite Hl. apply q_budget_check_head_later; auto.
  - apply Hwf.
  - rewrite count_length_refills by lia. apply Hr.
Qed.

(** ** The slots in use *)

Lemma index_valid_slot_of (sc : sched_context_t) (k : Z) :
  ring_wf sc -> 0 <= k < scRefillCount sc -> index_valid sc (slot_of sc k) = true.
Proof.
  intros (Hm & Hh & Hc) Hk. unfold index_valid, slot_of; cbn zeta.
  rewrite (wadd_small (scRefillHead sc) (scRefillCount sc)) by lia.
  destruct (Z.ltb_spec (scRefillHead sc + k) (scRefillMax sc));
    destruct (Z.ltb_spec (scRefillMax sc) (scRefillHead sc + scRefillCount sc));
    rewrite ?wsub_small by lia; destr_cmp; lia.
Qed.

Lemma refills_from_nth (sc : sched_context_t) :
  ring_wf sc ->
  forall (n : nat) (k : Z) (j : nat),
    0 <= k -> k + Z.of_nat n <= scRefillMax sc -> (j < n)%nat ->
    nth j (refills_from sc n (slot_of sc k)) null_refill
    = REFILL_INDEX sc (slot_of sc (k + Z.of_nat j)).
Proof.
  intros Hwf. induction n as [|n IH]; intros k j Hk Hn Hj; [lia|].
  cbn [refills_from]. destruct j as [|j]; cbn [nth].
  - now rewrite Z.add_0_r.
  - rewrite refill_next_slot_of by (auto; lia).
    rewrite IH by lia. f_equal. f_equal. lia.
Qed.

(** X11.  [index_valid] accepts every slot in use: the slot of the [k]-th
    refill of the queue, [k < scRefillCount], which is
    [scRefillHead + k] modulo the capacity.  Among the indices of the
    buffer it accepts one more: the slot [scRefillHead + scRefillCount]
    just behind the tail, when the queue does not reach the end of the
    buffer. *)
Theorem index_valid_in_use (sc : sched_context_t) (index : Z) :
  ring_wf sc ->
  0 <= index < scRefillMax sc ->
  (index_valid sc index = true
   <-> (exists k, 0 <= k < scRefillCount sc /\ index = slot_of sc k)
       \/ index = scRefillHead sc + scRefillCount sc)
  /\ (forall k, 0 <= k < scRefillCount sc ->
                nth (Z.to_nat k) (refills sc) null_refill
                = REFILL_INDEX sc (slot_of sc k)).
Proof.
  intros Hwf Hi. pose proof Hwf as (Hm & Hh & Hc). split.
  - split.
    + unfold index_valid.
      rewrite (wadd_small (scRefillHead sc) (scRefillCount sc)) by lia.
      destruct (Z.ltb_spec (scRefillMax sc) (scRefillHead sc + scRefillCount sc)).
      * rewrite wsub_small by lia.
        destruct (Z.ltb_spec index
                    (scRefillHead sc + scRefillCount sc - scRefillMax sc)).
        -- intros _. left. exists (index + scRefillMax sc - scRefillHead sc).
           unfold slot_of; cbn zeta. destr_cmp; lia.
        -- destruct (Z.leb_spec (scRefillHead sc) index); [|discriminate].
           intros _. left. exists (index - scRefillHead sc).
           unfold slot_of; cbn zeta. destr_cmp; lia.
      * destruct (Z.ltb_spec index (scRefillHead sc)); [discriminate|].
        destruct (Z.ltb_spec (scRefillHead sc + scRefillCount sc) index);
          [discriminate|].
        intros _.
        destruct (Z.eq_dec index (scRefillHead sc + scRefillCount sc));
          [now right|left].
        exists (index - scRefillHead sc).
        unfold slot_of; cbn zeta. destr_cmp; lia.
    + intros [(k & Hk & ->) | ->].
      * now apply index_valid_slot_of.
      * unfold index_valid.
        rewrite (wadd_small (scRefillHead sc) (scRefillCount sc)) by lia.
        destr_cmp; lia.
  - intros k Hk. unfold refills. rewrite <- (slot_of_0 sc) by auto.
    rewrite refills_from_nth by (auto; lia).
    f_equal. f_equal. lia.
Qed.

(** X12.  [refill_absolute_max]: for an object of [2 ^ bits] bytes that
    holds the [sched_context_t] itself, the number returned is the largest
    number of [refill_t]s that fit behind it in the object; when a
    [refill_t] takes two bytes or more, twice that number is still a
    [word_t]. *)
Theorem refill_absolute_max_fits (cap_t : Type)
        (cap_sched_context_cap_get_capSCSizeBits : cap_t -> Z)
        (sizeof_sched_context_t sizeof_refill_t : Z) (sc_cap : cap_t) :
  0 <= cap_sched_context_cap_get_capSCSizeBits sc_cap < 64 ->
  0 < sizeof_refill_t ->
  0 <= sizeof_sched_context_t <= 2 ^ cap_sched_context_cap_get_capSCSizeBits sc_cap ->
  let max := refill_absolute_max cap_t cap_sched_context_cap_get_capSCSizeBits
               sizeof_sched_context_t sizeof_refill_t sc_cap in
  0 <= max
  /\ sizeof_sched_context_t + max * sizeof_refill_t
     <= 2 ^ cap_sched_context_cap_get_capSCSizeBits sc_cap
  /\ 2 ^ cap_sched_context_cap_get_capSCSizeBits sc_cap
     < sizeof_sched_context_t + (max + 1) * sizeof_refill_t
  /\ (2 <= sizeof_refill_t -> 2 * max <= modulus).
Proof.
  intros Hb Hr Hs max. subst max. unfold refill_absolute_max, BIT.
  set (bits := cap_sched_context_cap_get_capSCSizeBits sc_cap) in *.
  rewrite Z.shiftl_1_l.
  assert (Hp : 0 < 2 ^ bits < modulus).
  { split; [apply Z.pow_pos_nonneg; lia|].
    unfold modulus. apply Z.pow_lt_mono_r; lia. }
  rewrite (wrap_small (2 ^ bits)) by lia.
  rewrite wsub_small by lia.
  pose proof (Z.mul_div_le (2 ^ bits - sizeof_sched_context_t) sizeof_refill_t Hr).
  pose proof (Z.mul_succ_div_gt (2 ^ bits - sizeof_sched_context_t) sizeof_refill_t Hr).
  assert (0 <= (2 ^ bits - sizeof_sched_context_t) / sizeof_refill_t)
    by (apply Z.div_pos; lia).
  repeat split; try nia.
Qed.

(** ** The debug build runs the assertions *)

Lemma bind_assert {B : Type} (b : bool) (k : unit -> option B) :
  b = true -> bind (assert b) k = k tt.
Proof. now intros ->. Qed.

Lemma leb_true (a b : Z) : a <= b -> (a <=? b) = true.
Proof. apply Z.leb_le. Qed.

Lemma ltb_true (a b : Z) : a < b -> (a <? b) = true.
Proof. apply Z.ltb_lt. Qed.

Lemma refill_empty_false (sc : sched_context_t) :
  1 <= scRefillCount sc -> refill_empty sc = false.
Proof. intros H. unfold refill_empty. apply Z.eqb_neq. lia. Qed.

Lemma refill_tail_index_dbg_ok (sc : sched_context_t) :
  ring_wf sc -> 1 <= scRefillCount sc ->
  refill_tail_index_dbg sc = Some (refill_tail_index sc).
Proof.
  intros Hwf Hc1. pose proof Hwf as (Hm & Hh & Hc).
  pose proof (refill_tail_index_slot_of sc Hwf Hc1) as Ht.
  pose proof (slot_of_range sc (scRefillCount sc - 1) Hwf) as Hr.
  unfold refill_tail_index_dbg.
  rewrite !bind_assert by (apply leb_true; lia).
  cbn zeta. fold (refill_tail_index sc).
  rewrite bind_assert; [reflexivity|].
  apply ltb_true. rewrite Ht. lia.
Qed.

Lemma index_valid_dbg_ok (sc : sched_context_t) (index : Z) :
  ring_wf sc -> index_valid_dbg sc index = Some (index_valid sc index).
Proof.
  intros (Hm & Hh & Hc). unfold index_valid_dbg.
  now rewrite !bind_assert by (apply leb_true; lia).
Qed.

Lemma refill_index_dbg_ok (sc : sched_context_t) (index : Z) :
  ring_wf sc -> 1 <= scRefillCount sc -> index < scRefillMax sc ->
  index_valid sc index = true ->
  refill_index_dbg sc index = Some index.
Proof.
  intros Hwf Hc1 Hi Hv. unfold refill_index_dbg.
  rewrite refill_empty_false by auto. cbn [negb].
  rewrite bind_assert by reflexivity.
  rewrite bind_assert by now apply ltb_true.
  rewrite index_valid_dbg_ok by auto. cbn [bind]. now rewrite Hv.
Qed.

Lemma refill_index_dbg_slot (sc : sched_context_t) (k : Z) :
  ring_wf sc -> 0 <= k < scRefillCount sc ->
  refill_index_dbg sc (slot_of sc k) = Some (slot_of sc k).
Proof.
  intros Hwf Hk. pose proof Hwf as (Hm & Hh & Hc).
  apply refill_index_dbg_ok; auto; try lia.
  - pose proof (slot_of_range sc k Hwf). lia.
  - now apply index_valid_slot_of.
Qed.

Lemma REFILL_INDEX_dbg_slot (sc : sched_context_t) (k : Z) :
  ring_wf sc -> 0 <= k < scRefillCount sc ->
  REFILL_INDEX_dbg sc (slot_of sc k) = Some (REFILL_INDEX sc (slot_of sc k)).
Proof.
  intros Hwf Hk. unfold REFILL_INDEX_dbg. now rewrite refill_index_dbg_slot.
Qed.

Lemma REFILL_HEAD_ref_ok (sc : sched_context_t) :
  ring_wf sc -> 1 <= scRefillCount sc ->
  REFILL_HEAD_ref sc = Some (scRefillHead sc).
Proof.
  intros Hwf Hc1. unfold REFILL_HEAD_ref.
  rewrite <- (slot_of_0 sc) by auto. apply refill_index_dbg_slot; auto; lia.
Qed.

Lemma REFILL_TAIL_ref_ok (sc : sched_context_t) :
  ring_wf sc -> 1 <= scRefillCount sc ->
  REFILL_TAIL_ref sc = Some (refill_tail_index sc).
Proof.
  intros Hwf Hc1. unfold REFILL_TAIL_ref.
  rewrite refill_tail_index_dbg_ok by auto. cbn [bind].
  rewrite refill_tail_index_slot_of by auto.
  apply refill_index_dbg_slot; auto; lia.
Qed.

Lemma REFILL_HEAD_dbg_ok (sc : sched_context_t) :
  ring_wf sc -> 1 <= scRefillCount sc ->
  REFILL_HEAD_dbg sc = Some (REFILL_HEAD sc).
Proof.
  intros Hwf Hc1. unfold REFILL_HEAD_dbg. now rewrite REFILL_HEAD_ref_ok.
Qed.

Lemma REFILL_TAIL_dbg_ok (sc : sched_context_t) :
  ring_wf sc -> 1 <= scRefillCount sc ->
  REFILL_TAIL_dbg sc = Some (REFILL_TAIL sc).
Proof.
  intros Hwf Hc1. unfold REFILL_TAIL_dbg. now rewrite REFILL_TAIL_ref_ok.
Qed.

Lemma REFILL_next_dbg_ok (sc : sched_context_t) :
  ring_wf sc -> 2 <= scRefillCount sc ->
  REFILL_INDEX_dbg sc (refill_next sc (scRefillHead sc))
  = Some (REFILL_INDEX sc (refill_next sc (scRefillHead sc))).
Proof.
  intros Hwf Hc2. pose proof Hwf as (Hm & Hh & Hc).
  rewrite <- (slot_of_0 sc), refill_next_slot_of by (auto; lia).
  apply REFILL_INDEX_dbg_slot; auto; lia.
Qed.

(** The accesses of the debug build fail on an empty queue. *)
Lemma refill_index_dbg_empty (sc : sched_context_t) (index : Z) :
  scRefillCount sc = 0 -> refill_index_dbg sc index = None.
Proof.
  intros H. unfold refill_index_dbg, refill_empty. now rewrite H.
Qed.

(** The queries. *)
Lemma refill_ready_dbg_ok (ns : node_state) (sc : sched_context_t) :
  ring_wf sc -> 1 <= scRefillCount sc ->
  refill_ready_dbg ns sc = Some (refill_ready ns sc).
Proof.
  intros Hwf Hc1. unfold refill_ready_dbg.
  rewrite refill_empty_false, REFILL_HEAD_dbg_ok by auto. reflexivity.
Qed.

Lemma refill_capacity_dbg_ok (sc : sched_context_t) (usage : Z) :
  ring_wf sc -> 1 <= scRefillCount sc ->
  refill_capacity_dbg sc usage = Some (refill_capacity sc usage).
Proof.
  intros Hwf Hc1. unfold refill_capacity_dbg, refill_capacity.
  rewrite refill_empty_false, REFILL_HEAD_dbg_ok by auto. cbn [negb assert bind].
  destruct (_ <? _); reflexivity.
Qed.

Lemma refill_sufficient_dbg_ok (sc : sched_context_t) (usage : Z) :
  ring_wf sc -> 1 <= scRefillCount sc ->
  refill_sufficient_dbg sc usage = Some (refill_sufficient sc usage).
Proof.
  intros Hwf Hc1. unfold refill_sufficient_dbg.
  rewrite refill_empty_false, refill_capacity_dbg_ok by auto. reflexivity.
Qed.

(** The traversals. *)
Lemma refill_print_loop_dbg_ok (sc : sched_context_t) :
  ring_wf sc ->
  forall (n : nat) (k : Z),
    0 <= k -> k + Z.of_nat n <= scRefillCount sc ->
    refill_print_loop_dbg sc n (slot_of sc k) = Some tt.
Proof.
  intros Hwf. pose proof Hwf as (Hm & Hh & Hc).
  induction n as [|n IH]; intros k Hk Hn; [reflexivity|].
  cbn [refill_print_loop_dbg]. unfold print_index_dbg.
  rewrite REFILL_INDEX_dbg_slot by (auto; lia). cbn [bind].
  rewrite refill_next_slot_of by (auto; lia). apply IH; lia.
Qed.

Lemma refill_print_dbg_ok (sc : sched_context_t) :
  ring_wf sc -> refill_print_dbg sc = Some tt.
Proof.
  intros Hwf. pose proof Hwf as (Hm & Hh & Hc). unfold refill_print_dbg.
  rewrite <- (slot_of_0 sc) by auto. apply refill_print_loop_dbg_ok; auto; lia.
Qed.

Lemma refill_sum_loop_dbg_ok (sc : sched_context_t) :
  ring_wf sc ->
  forall (n : nat) (k sum : Z),
    0 <= k -> k + Z.of_nat n <= scRefillCount sc ->
    refill_sum_loop_dbg sc n (slot_of sc k) sum
    = Some (refill_sum_loop sc n (slot_of sc k) sum).
Proof.
  intros Hwf. pose proof Hwf as (Hm & Hh & Hc).
  induction n as [|n IH]; intros k sum Hk Hn; [reflexivity|].
  cbn [refill_sum_loop_dbg refill_sum_loop].
  rewrite REFILL_INDEX_dbg_slot by (auto; lia). cbn [bind].
  rewrite refill_next_slot_of by (auto; lia). apply IH; lia.
Qed.

Lemma refill_sum_dbg_ok (sc : sched_context_t) :
  ring_wf sc -> refill_sum_dbg sc = Some (refill_sum sc).
Proof.
  intros Hwf. pose proof Hwf as (Hm & Hh & Hc). unfold refill_sum_dbg, refill_sum.
  rewrite <- (slot_of_0 sc) by auto. apply refill_sum_loop_dbg_ok; auto; lia.
Qed.

Lemma refill_at_least_min_budget_loop_dbg_ok (sc : sched_context_t) :
  ring_wf sc ->
  forall (n : nat) (k : Z),
    0 <= k -> k + Z.of_nat n <= scRefillCount sc ->
    refill_at_least_min_budget_loop_dbg sc n (slot_of sc k)
    = Some (refill_at_least_min_budget_loop sc n (slot_of sc k)).
Proof.
  intros Hwf. pose proof Hwf as (Hm & Hh & Hc).
  induction n as [|n IH]; intros k Hk Hn; [reflexivity|].
  cbn [refill_at_least_min_budget_loop_dbg refill_at_least_min_budget_loop].
  rewrite REFILL_INDEX_dbg_slot by (auto; lia). cbn [bind].
  destruct (negb _).
  - now rewrite refill_print_dbg_ok.
  - rewrite refill_next_slot_of by (auto; lia). apply IH; lia.
Qed.

Lemma refill_at_least_min_budget_dbg_ok (sc : sched_context_t) :
  ring_wf sc ->
  refill_at_least_min_budget_dbg sc = Some (refill_at_least_min_budget sc).
Proof.
  intros Hwf. pose proof Hwf as (Hm & Hh & Hc).
  unfold refill_at_least_min_budget_dbg, refill_at_least_min_budget.
  rewrite <- (slot_of_0 sc) by auto.
  apply refill_at_least_min_budget_loop_dbg_ok; auto; lia.
Qed.

Lemma refill_ordered_disjoint_loop_dbg_ok (sc : sched_context_t) :
  ring_wf sc ->
  forall (n : nat) (k : Z),
    0 <= k -> k + 1 + Z.of_nat n <= scRefillCount sc ->
    refill_ordered_disjoint_loop_dbg sc n (slot_of sc k) (slot_of sc (k + 1))
    = Some (refill_ordered_disjoint_loop sc n (slot_of sc k) (slot_of sc (k + 1))).
Proof.
  intros Hwf. pose proof Hwf as (Hm & Hh & Hc).
  induction n as [|n IH]; intros k Hk Hn; [reflexivity|].
  cbn [refill_ordered_disjoint_loop_dbg refill_ordered_disjoint_loop].
  rewrite !REFILL_INDEX_dbg_slot by (auto; lia). cbn [bind].
  destruct (negb _).
  - now rewrite refill_print_dbg_ok.
  - rewrite refill_next_slot_of by (auto; lia). apply IH; lia.
Qed.

Lemma refill_ordered_disjoint_dbg_ok (sc : sched_context_t) :
  ring_wf sc ->
  refill_ordered_disjoint_dbg sc = Some (refill_ordered_disjoint sc).
Proof.
  intros Hwf. pose proof Hwf as (Hm & Hh & Hc).
  unfold refill_ordered_disjoint_dbg, refill_ordered_disjoint.
  destruct (Z.le_gt_cases 1 (scRefillCount sc)) as [Hc1|Hc0].
  - rewrite <- (slot_of_0 sc), refill_next_slot_of by (auto; lia).
    apply refill_ordered_disjoint_loop_dbg_ok; auto; lia.
  - now replace (Z.to_nat (scRefillCount sc - 1)) with O by lia.
Qed.

Lemma refill_sum_to_budget_dbg_ok (sc : sched_context_t) :
  ring_wf sc -> refill_sum_to_budget_dbg sc = Some (refill_sum_to_budget sc).
Proof.
  intros Hwf. unfold refill_sum_to_budget_dbg, refill_sum_to_budget.
  rewrite refill_sum_dbg_ok by auto. cbn [bind].
  destruct (_ =? _); cbn [negb]; [reflexivity|].
  now rewrite refill_print_dbg_ok.
Qed.

Lemma refill_all_within_period_dbg_ok (sc : sched_context_t) :
  ring_wf sc -> 1 <= scRefillCount sc ->
  refill_all_within_period_dbg sc = Some (refill_all_within_period sc).
Proof.
  intros Hwf Hc1. unfold refill_all_within_period_dbg, refill_all_within_period.
  rewrite REFILL_TAIL_dbg_ok, REFILL_HEAD_dbg_ok by auto. cbn [bind].
  destruct (_ <=? _); cbn [negb]; [reflexivity|].
  now rewrite refill_print_dbg_ok.
Qed.

(** [sched_invariants] of the debug build asserts the conjunction of the
    checks. *)
Lemma sched_invariants_dbg_ok (sc : sched_context_t) :
  ring_wf sc -> sched_invariants_dbg sc = assert (sched_invariants sc).
Proof.
  intros Hwf. unfold sched_invariants_dbg, sched_invariants.
  destruct (refill_empty sc) eqn:He; [reflexivity|]. cbn [negb assert bind andb].
  assert (Hc1 : 1 <= scRefillCount sc).
  { unfold refill_empty in He. apply Z.eqb_neq in He.
    destruct Hwf as (_ & _ & ?). lia. }
  destruct (MIN_SC_BUDGET <=? scBudget sc); [|reflexivity]. cbn [assert bind andb].
  rewrite refill_ordered_disjoint_dbg_ok by auto. cbn [bind].
  destruct (refill_ordered_disjoint sc); [|reflexivity]. cbn [assert bind andb].
  rewrite refill_at_least_min_budget_dbg_ok by auto. cbn [bind].
  destruct (refill_at_least_min_budget sc); [|reflexivity]. cbn [assert bind andb].
  rewrite refill_all_within_period_dbg_ok by auto. cbn [bind].
  destruct (refill_all_within_period sc); [|reflexivity]. cbn [assert bind andb].
  rewrite refill_sum_to_budget_dbg_ok by auto. reflexivity.
Qed.

Lemma REFILL_SANITY_START_ok (sc : sched_context_t) :
  ring_wf sc -> sched_invariants sc = true ->
  REFILL_SANITY_START sc = Some (refill_sum sc).
Proof.
  intros Hwf Hinv. unfold REFILL_SANITY_START.
  rewrite refill_sum_dbg_ok, sched_invariants_dbg_ok, Hinv by auto. reflexivity.
Qed.

Lemma REFILL_SANITY_CHECK_ok (sc : sched_context_t) (budget : Z) :
  ring_wf sc ->
  REFILL_SANITY_CHECK sc budget
  = assert ((refill_sum sc =? budget) && sched_invariants sc).
Proof.
  intros Hwf. unfold REFILL_SANITY_CHECK.
  rewrite refill_sum_dbg_ok, sched_invariants_dbg_ok by auto. cbn [bind].
  destruct (_ =? _); reflexivity.
Qed.

(** The two queue primitives. *)
Lemma refill_pop_head_dbg_ok (sc : sched_context_t) :
  ring_wf sc -> 1 <= scRefillCount sc ->
  refill_pop_head_dbg sc = Some (refill_pop_head sc).
Proof.
  intros Hwf Hc1. pose proof Hwf as (Hm & Hh & Hc).
  unfold refill_pop_head_dbg, refill_pop_head, refill_size.
  rewrite bind_assert by (apply ltb_true; lia).
  rewrite REFILL_HEAD_dbg_ok by auto. cbn [bind]. sc_simpl.
  rewrite bind_assert.
  - pose proof (refill_next_range sc (scRefillHead sc)) as Hn.
    unfold is_u64 in Hn.
    rewrite bind_assert; [reflexivity|]. apply ltb_true. lia.
  - apply Z.eqb_eq. rewrite wsub_small, wadd_small by lia. lia.
Qed.

Lemma refill_add_tail_dbg_ok (sc : sched_context_t) (r : refill_t) :
  ring_wf sc -> scRefillCount sc < scRefillMax sc ->
  refill_add_tail_dbg sc r = Some (refill_add_tail sc r).
Proof.
  intros Hwf Hlt. pose proof Hwf as (Hm & Hh & Hc).
  unfold refill_add_tail_dbg, refill_add_tail, refill_size.
  rewrite bind_assert by now apply ltb_true.
  rewrite REFILL_TAIL_ref_ok; [reflexivity| |].
  - unfold ring_wf; sc_simpl. rewrite wadd_small by lia. lia.
  - sc_simpl. rewrite wadd_small by lia. lia.
Qed.

(** Run the accesses of the debug build on a queue that is in order. *)
Ltac dbg_side := first [assumption | lia | (sc_simpl; lia)].

Ltac dbg_run :=
  repeat first
    [ rewrite REFILL_TAIL_dbg_ok by dbg_side
    | rewrite REFILL_HEAD_dbg_ok by dbg_side
    | rewrite REFILL_TAIL_ref_ok by dbg_side
    | rewrite REFILL_HEAD_ref_ok by dbg_side
    | rewrite REFILL_next_dbg_ok by dbg_side
    | rewrite refill_ready_dbg_ok by dbg_side
    | rewrite refill_sufficient_dbg_ok by dbg_side
    | rewrite refill_pop_head_dbg_ok by dbg_side
    | rewrite refill_add_tail_dbg_ok by dbg_side
    | progress cbn [bind assert negb] ].

(** [schedule_used] of the debug build checks that the queue is empty and
    [new] has at least [MIN_BUDGET], or that [new] starts when the tail
    has ended; then it does what the release build does. *)
Lemma schedule_used_dbg_ok (sc : sched_context_t) (new : refill_t) :
  ring_wf sc ->
  schedule_used_dbg sc new
  = if schedule_used_asserts sc new then Some (schedule_used sc new) else None.
Proof.
  intros Hwf. pose proof Hwf as (Hm & Hh & Hc). unfold schedule_used_asserts.
  pose proof (schedule_used_count sc new Hwf) as [Hcnt _].
  assert (Hne : refill_empty (schedule_used sc new) = false)
    by (apply refill_empty_false; lia).
  unfold schedule_used_dbg.
  match goal with
  | |- bind ?inner _ = if ?cond then _ else _ =>
      assert (Hin : inner = if cond then Some (schedule_used sc new) else None)
  end.
  { unfold schedule_used.
    destruct (refill_empty sc) eqn:He.
    - unfold refill_empty in He. apply Z.eqb_eq in He.
      destruct (MIN_BUDGET <=? rAmount new); [|reflexivity].
      dbg_run. reflexivity.
    - unfold refill_empty in He. apply Z.eqb_neq in He.
      assert (Hc1 : 1 <= scRefillCount sc) by lia.
      dbg_run.
      destruct (wadd (rTime (REFILL_TAIL sc)) (rAmount (REFILL_TAIL sc)) <=? rTime new);
        [|reflexivity].
      dbg_run.
      destruct (rAmount new <? MIN_BUDGET) eqn:E1;
        destruct (refill_full sc) eqn:E2; cbn [negb andb orb]; dbg_run;
        try reflexivity.
      + unfold refill_full in E2. apply Z.eqb_neq in E2.
        destruct (wmul 2 MIN_BUDGET <=? _); dbg_run; reflexivity.
      + unfold refill_full in E2. apply Z.eqb_neq in E2. dbg_run. reflexivity. }
  rewrite Hin. clear Hin.
  match goal with
  | |- bind (if ?c then _ else _) _ = _ => destruct c
  end; [|reflexivity].
  cbn [bind]. now rewrite Hne.
Qed.

(** ** [refill_new] and [refill_update] establish the invariants *)

Lemma universal_sched_invariants (sc : sched_context_t) :
  universal_invariants sc -> MIN_SC_BUDGET <= scBudget sc ->
  sched_invariants sc = true.
Proof.
  intros (H1 & H2 & H3 & H4 & H5 & H6) Hb. unfold sched_invariants.
  rewrite H1, H2, H3, H4, refill_empty_false by lia.
  apply Z.leb_le in Hb. now rewrite Hb.
Qed.

Lemma sched_invariants_universal (sc : sched_context_t) :
  scRefillCount sc <= scRefillMax sc -> 0 <= scRefillCount sc ->
  sched_invariants sc = true ->
  universal_invariants sc /\ MIN_SC_BUDGET <= scBudget sc.
Proof.
  intros Hc Hc0 H. unfold sched_invariants in H.
  repeat match goal with
         | H : (_ && _)%bool = true |- _ => apply andb_prop in H as [? ?]
         end.
  assert (1 <= scRefillCount sc).
  { unfold refill_empty in *.
    destruct (Z.eqb_spec (scRefillCount sc) 0); [discriminate|lia]. }
  split; [unfold universal_invariants; auto 10|]. now apply Z.leb_le.
Qed.

Lemma refill_new_refills (ns : node_state) (sc : sched_context_t)
      (max_refills budget period : Z) :
  refills (refill_new ns sc max_refills budget period)
  = [mk_refill (ksCurTime ns) budget].
Proof.
  rewrite refills_unfold by (unfold refill_new; sc_simpl; lia).
  unfold refill_new, REFILL_HEAD, REFILL_INDEX; sc_simpl.
  now rewrite !Z.eqb_refl.
Qed.

Lemma refill_new_ring_wf (ns : node_state) (sc : sched_context_t)
      (max_refills budget period : Z) :
  1 <= max_refills -> 2 * max_refills <= modulus ->
  ring_wf (refill_new ns sc max_refills budget period).
Proof. intros H1 H2. unfold ring_wf, refill_new; sc_simpl. lia. Qed.

Lemma refill_new_checks (ns : node_state) (sc : sched_context_t)
      (max_refills budget period : Z) :
  is_u64 (ksCurTime ns) -> is_u64 budget ->
  1 <= max_refills -> 2 * max_refills <= modulus ->
  let sc' := refill_new ns sc max_refills budget period in
  refill_sum sc' = budget
  /\ refill_ordered_disjoint sc' = true
  /\ refill_at_least_min_budget sc' = (MIN_BUDGET <=? budget)
  /\ refill_all_within_period sc' = (budget <=? period)
  /\ refill_sum_to_budget sc' = true.
Proof.
  intros Hn Hb Hm1 Hm2 sc'.
  pose proof (refill_new_ring_wf ns sc max_refills budget period Hm1 Hm2) as Hwf.
  pose proof (refill_new_refills ns sc max_refills budget period) as Hq.
  fold sc' in Hwf, Hq.
  assert (Hc : scRefillCount sc' = 1) by reflexivity.
  assert (Hs : refill_sum sc' = budget).
  { rewrite refill_sum_refills, Hq. cbn [q_sum rAmount]. apply wadd_small. fields. }
  split; [exact Hs|].
  unfold refill_sum_to_budget.
  rewrite refill_ordered_disjoint_refills, refill_at_least_min_budget_refills,
    refill_all_within_period_refills by (auto; lia).
  rewrite Hs, Hq. change (scBudget sc') with budget. change (scPeriod sc') with period.
  cbn [q_ordered_disjoint q_at_least_min_budget q_tail q_head last hd rTime rAmount].
  rewrite Z.eqb_refl.
  replace (wsub (wadd (ksCurTime ns) budget) (ksCurTime ns)) with budget.
  - destruct (MIN_BUDGET <=? budget); auto.
  - symmetry. unfold wsub, wadd. rewrite wrap_sub_l.
    replace (ksCurTime ns + budget - ksCurTime ns) with budget by lia.
    apply wrap_small. exact Hb.
Qed.

Lemma refill_new_sched_invariants (ns : node_state) (sc : sched_context_t)
      (max_refills budget period : Z) :
  is_u64 (ksCurTime ns) -> is_u64 budget ->
  1 <= max_refills -> 2 * max_refills <= modulus ->
  sched_invariants (refill_new ns sc max_refills budget period)
  = (MIN_SC_BUDGET <=? budget) && (MIN_BUDGET <=? budget) && (budget <=? period).
Proof.
  intros Hn Hb Hm1 Hm2.
  destruct (refill_new_checks ns sc max_refills budget period Hn Hb Hm1 Hm2)
    as (Hs & H1 & H2 & H3 & H4).
  unfold sched_invariants. rewrite H1, H2, H3, H4.
  rewrite refill_empty_false by (cbn; lia).
  change (scBudget (refill_new ns sc max_refills budget period)) with budget.
  cbn [negb andb]. now rewrite !andb_true_r.
Qed.

(** X13.  [refill_new] establishes the invariants that the debug build
    checks exactly when the budget is at least [MIN_SC_BUDGET] and
    [MIN_BUDGET] and does not exceed the period: then the single refill
    passes [sched_invariants], whatever [ksCurTime] is, and in every case
    the refills sum to the budget. *)
Theorem refill_new_invariants (ns : node_state) (sc : sched_context_t)
        (max_refills budget period : Z) :
  is_u64 (ksCurTime ns) ->
  is_u64 budget ->
  1 <= max_refills ->
  2 * max_refills <= modulus ->
  let sc' := refill_new ns sc max_refills budget period in
  refill_sum sc' = budget
  /\ (sched_invariants sc' = true
      <-> MIN_SC_BUDGET <= budget /\ MIN_BUDGET <= budget /\ budget <= period)
  /\ (MIN_BUDGET <= budget -> budget <= period -> universal_invariants sc').
Proof.
  clear isRoundRobin.
  intros Hn Hb Hm1 Hm2 sc'.
  destruct (refill_new_checks ns sc max_refills budget period Hn Hb Hm1 Hm2)
    as (Hs & H1 & H2 & H3 & H4).
  pose proof (refill_new_sched_invariants ns sc max_refills budget period
                Hn Hb Hm1 Hm2) as Hi.
  fold sc' in Hs, H1, H2, H3, H4, Hi.
  split; [exact Hs|]. split.
  - rewrite Hi, !andb_true_iff, !Z.leb_le. tauto.
  - intros Hmin Hper. unfold universal_invariants.
    rewrite H1, H2, H3, H4.
    change (scRefillCount sc') with 1. change (scRefillMax sc') with max_refills.
    repeat split; try lia; now apply Z.leb_le.
Qed.

(** X14.  In the debug build [refill_new] runs to its end exactly when
    [budget > MIN_BUDGET], [budget >= MIN_SC_BUDGET] and
    [budget <= period]; otherwise an assertion fails.  When it runs to its
    end, it leaves the scheduling context that the release build leaves. *)
Theorem refill_new_dbg_checks (ns : node_state) (sc : sched_context_t)
        (max_refills budget period : Z) :
  is_u64 (ksCurTime ns) ->
  is_u64 budget ->
  1 <= max_refills ->
  2 * max_refills <= modulus ->
  refill_new_dbg ns sc max_refills budget period
  = if (MIN_BUDGET <? budget) && (MIN_SC_BUDGET <=? budget) && (budget <=? period)
    then Some (refill_new ns sc max_refills budget period)
    else None.
Proof.
  intros Hn Hb Hm1 Hm2.
  destruct (refill_new_checks ns sc max_refills budget period Hn Hb Hm1 Hm2)
    as (Hs & _).
  pose proof (refill_new_sched_invariants ns sc max_refills budget period
                Hn Hb Hm1 Hm2) as Hi.
  pose proof (refill_new_ring_wf ns sc max_refills budget period Hm1 Hm2) as Hwf.
  unfold refill_new_dbg.
  destruct (Z.ltb_spec MIN_BUDGET budget) as [Hlt|Hge]; [|reflexivity].
  cbn [assert bind andb].
  rewrite REFILL_HEAD_ref_ok by (unfold ring_wf; sc_simpl; lia).
  cbn [bind].
  rewrite REFILL_HEAD_ref_ok by (unfold ring_wf; sc_simpl; lia).
  cbn [bind].
  change (set_rTime _ _ (ksCurTime ns))
    with (refill_new ns sc max_refills budget period).
  rewrite REFILL_SANITY_CHECK_ok by exact Hwf.
  rewrite Hs, Hi, Z.eqb_refl. cbn [andb].
  destruct (Z.leb_spec MIN_BUDGET budget); [|lia]. rewrite andb_true_r.
  destruct ((MIN_SC_BUDGET <=? budget) && (budget <=? period)); reflexivity.
Qed.

(** [refill_update] on the list: the head refill alone is kept, moved to
    [ksCurTime] when it is ready, then trimmed to the new budget or
    followed by what the new budget adds. *)
Lemma refill_update_refills (ns : node_state) (sc : sched_context_t)
      (new_period new_budget new_max_refills : Z) :
  1 <= new_max_refills -> 2 * new_max_refills <= modulus ->
  let t := if refill_ready ns sc then ksCurTime ns else rTime (REFILL_HEAD sc) in
  let amount := rAmount (REFILL_HEAD sc) in
  let unused := wsub new_budget amount in
  let sc' := refill_update ns sc new_period new_budget new_max_refills in
  ring_wf sc'
  /\ scPeriod sc' = new_period
  /\ scBudget sc' = new_budget
  /\ scRefillMax sc' = new_max_refills
  /\ scRefillHead sc' = 0
  /\ refills sc'
     = if new_budget <=? amount then [mk_refill t new_budget]
       else q_schedule_used new_max_refills [mk_refill t amount]
              (mk_refill (wsub (wadd t new_period) unused) unused).
Proof.
  intros HM1 HM2 t amount unused sc'.
  unfold refill_update in sc'; cbn zeta in sc'.
  set (sc1 := set_scBudget _ new_budget) in sc'.
  assert (Hh1 : REFILL_HEAD sc1 = REFILL_HEAD sc).
  { unfold sc1, REFILL_HEAD, REFILL_INDEX; sc_simpl. now rewrite Z.eqb_refl. }
  assert (Hready : refill_ready ns sc1 = refill_ready ns sc).
  { unfold refill_ready. now rewrite Hh1. }
  set (sc2 := if refill_ready ns sc1 then _ else sc1) in sc'.
  assert (F2 : scPeriod sc2 = new_period /\ scBudget sc2 = new_budget
               /\ scRefillMax sc2 = new_max_refills /\ scRefillHead sc2 = 0
               /\ scRefillCount sc2 = 1).
  { unfold sc2. destruct (refill_ready ns sc1); unfold sc1; sc_simpl; auto. }
  destruct F2 as (F2p & F2b & F2m & F2h & F2c).
  assert (Hr2 : ring_wf sc2) by (unfold ring_wf; rewrite F2m, F2h, F2c; lia).
  assert (Hh2 : REFILL_HEAD sc2 = mk_refill t amount).
  { unfold sc2, t, amount. rewrite <- Hready. destruct (refill_ready ns sc1).
    - rewrite <- Hh1. unfold REFILL_HEAD, REFILL_INDEX, set_rTime; sc_simpl.
      now rewrite Z.eqb_refl.
    - rewrite Hh1. now destruct (REFILL_HEAD sc). }
  assert (Hq2 : refills sc2 = [mk_refill t amount]).
  { rewrite refills_unfold by lia. now rewrite F2c, Hh2. }
  unfold sc'. rewrite Hh2. cbn [rTime rAmount]. fold unused.
  destruct (new_budget <=? amount).
  - split; [exact Hr2|]. do 4 (split; [assumption|]).
    etransitivity.
    { apply (refills_set_rAmount_head sc2 (fun _ => new_budget)); auto. lia. }
    now rewrite Hq2.
  - destruct (schedule_used_frame sc2
                (mk_refill (wsub (wadd t new_period) unused) unused))
      as (Fp & Fb & Fm & Fh).
    rewrite Fp, Fb, Fm, Fh. split; [now apply schedule_used_ring_wf|].
    do 4 (split; [assumption|]).
    now rewrite schedule_used_refills, Hq2, F2m by auto.
Qed.

Lemma refill_update_q_inv (ns : node_state) (sc : sched_context_t)
      (new_period new_budget new_max_refills : Z) :
  refill_typed (REFILL_HEAD sc) ->
  MIN_BUDGET <= rAmount (REFILL_HEAD sc) ->
  is_u64 (ksCurTime ns) ->
  is_u64 new_period ->
  MIN_BUDGET <= new_budget <= new_period ->
  2 * MIN_BUDGET < modulus ->
  1 <= new_max_refills -> 2 * new_max_refills <= modulus ->
  ksCurTime ns + new_period < modulus ->
  rTime (REFILL_HEAD sc) + new_period < modulus ->
  let sc' := refill_update ns sc new_period new_budget new_max_refills in
  q_inv new_period new_budget (refills sc').
Proof.
  intros [Hht Hha] Hmin Hn HP HB HMB HM1 HM2 Hov1 Hov2 sc'.
  destruct (refill_update_refills ns sc new_period new_budget new_max_refills HM1 HM2)
    as (Hwf & Fp & Fb & Fm & _ & Hq).
  fold sc' in Hwf, Fp, Fb, Fm, Hq. rewrite Hq. clear Hq.
  pose proof MIN_BUDGET_range as HMBr.
  set (t := if refill_ready ns sc then ksCurTime ns else rTime (REFILL_HEAD sc)).
  assert (Ht : 0 <= t /\ t + new_period < modulus).
  { unfold t, is_u64 in *. destruct (refill_ready ns sc); lia. }
  unfold is_u64 in *.
  destruct (Z.leb_spec new_budget (rAmount (REFILL_HEAD sc))) as [Htrim|Hmore].
  - apply q_inv_single; fields.
  - rewrite (wsub_small new_budget) by lia.
    rewrite (wadd_small t new_period) by lia.
    rewrite wsub_small by lia.
    set (h := mk_refill t (rAmount (REFILL_HEAD sc))).
    set (new := mk_refill (t + new_period - (new_budget - rAmount (REFILL_HEAD sc)))
                          (new_budget - rAmount (REFILL_HEAD sc))).
    assert (A1 : [h] <> []) by discriminate.
    assert (A2 : Forall refill_typed [h]) by (constructor; [unfold h; fields|auto]).
    assert (A3 : q_chain [h]) by exact I.
    assert (A4 : Forall (fun r => MIN_BUDGET <= rAmount r) [h])
      by (constructor; [unfold h; fields|auto]).
    assert (A5 : refill_typed new) by (unfold new; fields).
    assert (A6 : r_end (q_tail [h]) <= rTime new)
      by (unfold new, h; cbn [q_tail last]; fields).
    assert (A7 : r_end new < modulus) by (unfold new; fields).
    assert (A8 : Z.of_nat (length [h]) <= new_max_refills) by (cbn [length]; lia).
    destruct (q_schedule_used_ok new_max_refills [h] new A1 A2 A3 A4 A5 A6 A7 HMB A8)
      as (R1 & R2 & R3 & R4 & R5 & R6 & R7 & R8).
    apply mk_q_inv; auto.
    + rewrite R5. unfold h, new. cbn [q_total rAmount]. lia.
    + rewrite R6. unfold new, h, r_end in *. cbn [q_head hd rTime rAmount] in *. lia.
    + rewrite R6. unfold new, r_end. cbn [rTime rAmount]. lia.
Qed.

Lemma refill_update_checks (ns : node_state) (sc : sched_context_t)
        (new_period new_budget new_max_refills : Z) :
  refill_typed (REFILL_HEAD sc) ->
  MIN_BUDGET <= rAmount (REFILL_HEAD sc) ->
  is_u64 (ksCurTime ns) ->
  is_u64 new_period ->
  MIN_SC_BUDGET <= new_budget <= new_period ->
  2 * MIN_BUDGET < modulus ->
  1 <= new_max_refills ->
  2 * new_max_refills <= modulus ->
  ksCurTime ns + new_period < modulus ->
  rTime (REFILL_HEAD sc) + new_period < modulus ->
  let sc' := refill_update ns sc new_period new_budget new_max_refills in
  sched_invariants sc' = true
  /\ universal_invariants sc'
  /\ ideal_invariants sc'
  /\ refill_sum sc' = new_budget
  /\ scRefillHead sc' = 0
  /\ 1 <= scRefillCount sc' <= 2.
Proof.
  intros Hty Hmin Hn HP HB HMB HM1 HM2 Hov1 Hov2 sc'.
  pose proof MIN_BUDGET_range as HMBr.
  assert (HSC : MIN_SC_BUDGET = 2 * MIN_BUDGET).
  { unfold MIN_SC_BUDGET, wmul. apply wrap_small. lia. }
  assert (HB' : MIN_BUDGET <= new_budget <= new_period) by lia.
  pose proof (refill_update_q_inv ns sc new_period new_budget new_max_refills
                Hty Hmin Hn HP HB' HMB HM1 HM2 Hov1 Hov2) as Hq.
  destruct (refill_update_refills ns sc new_period new_budget new_max_refills HM1 HM2)
    as (Hwf & Fp & Fb & Fm & Fh & Hl).
  fold sc' in Hq, Hwf, Fp, Fb, Fm, Fh, Hl.
  rewrite <- Fp, <- Fb in Hq.
  pose proof (q_inv_universal sc' Hwf Hq) as Hu.
  pose proof (q_inv_ideal sc' Hwf Hq) as Hi.
  split; [apply universal_sched_invariants; [exact Hu|rewrite Fb; lia]|].
  split; [exact Hu|]. split; [exact Hi|].
  split; [|split].
  - destruct Hu as (_ & _ & H3 & _). unfold refill_sum_to_budget in H3.
    apply Z.eqb_eq in H3. now rewrite H3.
  - exact Fh.
  - rewrite <- (count_length_refills sc') by apply Hwf. rewrite Hl.
    destruct (new_budget <=? _); [cbn [length]; lia|].
    match goal with
    | |- context [q_schedule_used ?m ?q ?n] =>
        pose proof (q_schedule_used_length_le m q n) as Hlen
    end.
    cbn [length] in Hlen. lia.
Qed.

(** X15.  [refill_update] establishes the invariants: on a scheduling
    context whose head refill has at least [MIN_BUDGET], for a new budget
    of at least [MIN_SC_BUDGET] that does not exceed the new period, the
    result passes all the checks of [sched_invariants], its refills sum to
    the new budget, and it has one or two refills, in order and disjoint,
    starting in slot 0; provided the new period can be added to
    [ksCurTime] and to the time of the head without overflow. *)
Theorem refill_update_invariants (ns : node_state) (sc : sched_context_t)
        (new_period new_budget new_max_refills : Z) :
  refill_typed (REFILL_HEAD sc) ->
  MIN_BUDGET <= rAmount (REFILL_HEAD sc) ->
  is_u64 (ksCurTime ns) ->
  is_u64 new_period ->
  MIN_SC_BUDGET <= new_budget <= new_period ->
  2 * MIN_BUDGET < modulus ->
  1 <= new_max_refills ->
  2 * new_max_refills <= modulus ->
  ksCurTime ns + new_period < modulus ->
  rTime (REFILL_HEAD sc) + new_period < modulus ->
  let sc' := refill_update ns sc new_period new_budget new_max_refills in
  sched_invariants sc' = true
  /\ universal_invariants sc'
  /\ ideal_invariants sc'
  /\ refill_sum sc' = new_budget
  /\ scRefillHead sc' = 0
  /\ 1 <= scRefillCount sc' <= 2.
Proof.
  intros Hty Hmin Hn HP HB HMB HM1 HM2 Hov1 Hov2.
  now apply refill_update_checks.
Qed.

Lemma refill_tail_index_single (sc : sched_context_t) :
  ring_wf sc -> scRefillCount sc = 1 -> refill_tail_index sc = scRefillHead sc.
Proof.
  intros Hwf Hc. rewrite refill_tail_index_slot_of by (auto; lia).
  rewrite Hc. apply slot_of_0. exact Hwf.
Qed.

(** [refill_update] in the debug build: the accesses are checked, then the
    check of [schedule_used] when the budget grows, then the invariants. *)
Lemma refill_update_dbg_run (ns : node_state) (sc : sched_context_t)
      (new_period new_budget new_max_refills : Z) :
  ring_wf sc -> 1 <= scRefillCount sc -> index_valid sc 0 = true ->
  1 <= new_max_refills -> 2 * new_max_refills <= modulus ->
  let t := if refill_ready ns sc then ksCurTime ns else rTime (REFILL_HEAD sc) in
  let amount := rAmount (REFILL_HEAD sc) in
  let unused := wsub new_budget amount in
  let sc' := refill_update ns sc new_period new_budget new_max_refills in
  refill_update_dbg ns sc new_period new_budget new_max_refills
  = if (new_budget <=? amount)
       || (wadd t amount <=? wsub (wadd t new_period) unused)
    then if (refill_sum sc' =? new_budget) && sched_invariants sc'
         then Some sc' else None
    else None.
Proof.
  intros Hwf Hc1 Hv0 HM1 HM2 t amount unused sc'.
  pose proof Hwf as (Hm & Hh & Hc).
  destruct (refill_update_refills ns sc new_period new_budget new_max_refills HM1 HM2)
    as (Hwf' & _).
  fold sc' in Hwf'.
  unfold refill_update_dbg.
  rewrite bind_assert by (apply ltb_true; lia).
  rewrite refill_index_dbg_ok by (auto; lia). cbn [bind].
  rewrite REFILL_HEAD_dbg_ok by auto. cbn [bind].
  unfold refill_update in sc'; cbn zeta in sc'.
  set (sc1 := set_scBudget _ new_budget) in *.
  assert (Hwf1 : ring_wf sc1) by (unfold ring_wf, sc1; sc_simpl; lia).
  assert (Hc11 : scRefillCount sc1 = 1) by reflexivity.
  assert (Hh1 : REFILL_HEAD sc1 = REFILL_HEAD sc).
  { unfold sc1, REFILL_HEAD, REFILL_INDEX; sc_simpl. now rewrite Z.eqb_refl. }
  assert (Hready : refill_ready ns sc1 = refill_ready ns sc).
  { unfold refill_ready. now rewrite Hh1. }
  rewrite refill_ready_dbg_ok by (auto; lia). cbn [bind].
  set (sc2 := if refill_ready ns sc1 then _ else sc1) in sc'.
  assert (E2 : (if refill_ready ns sc1
                then i <- REFILL_HEAD_ref sc1 ;; Some (set_rTime sc1 i (ksCurTime ns))
                else Some sc1) = Some sc2).
  { unfold sc2. destruct (refill_ready ns sc1); [|reflexivity].
    now rewrite REFILL_HEAD_ref_ok by (auto; lia). }
  rewrite E2. cbn [bind].
  assert (F2 : scRefillMax sc2 = new_max_refills /\ scRefillHead sc2 = 0
               /\ scRefillCount sc2 = 1).
  { unfold sc2. destruct (refill_ready ns sc1); unfold sc1; sc_simpl; auto. }
  destruct F2 as (F2m & F2h & F2c).
  assert (Hwf2 : ring_wf sc2) by (unfold ring_wf; rewrite F2m, F2h, F2c; lia).
  assert (Hh2 : REFILL_HEAD sc2 = mk_refill t amount).
  { unfold sc2, t, amount. rewrite <- Hready. destruct (refill_ready ns sc1).
    - rewrite <- Hh1. unfold REFILL_HEAD, REFILL_INDEX, set_rTime; sc_simpl.
      now rewrite Z.eqb_refl.
    - rewrite Hh1. now destruct (REFILL_HEAD sc). }
  assert (Ht2 : REFILL_TAIL sc2 = mk_refill t amount).
  { unfold REFILL_TAIL. rewrite refill_tail_index_single by auto. exact Hh2. }
  rewrite !REFILL_HEAD_dbg_ok by (auto; lia). cbn [bind].
  fold sc2 in sc'. unfold sc'. rewrite Hh2. cbn [rTime rAmount]. fold unused.
  destruct (new_budget <=? amount); cbn [orb].
  - rewrite REFILL_HEAD_ref_ok by (auto; lia). cbn [bind].
    rewrite REFILL_SANITY_CHECK_ok by exact Hwf2.
    destruct (_ && _); reflexivity.
  - rewrite schedule_used_dbg_ok by auto.
    unfold schedule_used_asserts.
    rewrite refill_empty_false, Ht2 by lia. cbn [rTime rAmount].
    destruct (wadd t amount <=? _); [|reflexivity]. cbn [bind].
    rewrite REFILL_SANITY_CHECK_ok by now apply schedule_used_ring_wf.
    destruct (_ && _); reflexivity.
Qed.

(** X16.  In the debug build [refill_update] runs to its end without a
    failed assertion, and leaves the scheduling context that the release
    build leaves, on a queue in which slot 0 is in use (as it is when the
    head is in slot 0), whose head refill has at least [MIN_BUDGET], for
    a new budget of at least [MIN_SC_BUDGET] that does not exceed the new
    period, provided the new period can be added to [ksCurTime] and to the
    time of the head without overflow. *)
Theorem refill_update_dbg_ok (ns : node_state) (sc : sched_context_t)
        (new_period new_budget new_max_refills : Z) :
  ring_wf sc ->
  1 <= scRefillCount sc ->
  index_valid sc 0 = true ->
  refill_typed (REFILL_HEAD sc) ->
  MIN_BUDGET <= rAmount (REFILL_HEAD sc) ->
  is_u64 (ksCurTime ns) ->
  is_u64 new_period ->
  MIN_SC_BUDGET <= new_budget <= new_period ->
  2 * MIN_BUDGET < modulus ->
  1 <= new_max_refills ->
  2 * new_max_refills <= modulus ->
  ksCurTime ns + new_period < modulus ->
  rTime (REFILL_HEAD sc) + new_period < modulus ->
  refill_update_dbg ns sc new_period new_budget new_max_refills
  = Some (refill_update ns sc new_period new_budget new_max_refills).
Proof.
  intros Hwf Hc1 Hv0 Hty Hmin Hn HP HB HMB HM1 HM2 Hov1 Hov2.
  destruct (refill_update_checks ns sc new_period new_budget new_max_refills
              Hty Hmin Hn HP HB HMB HM1 HM2 Hov1 Hov2) as (Hi & _ & _ & Hs & _).
  rewrite refill_update_dbg_run by auto. cbn zeta.
  rewrite Hi, Hs, Z.eqb_refl. cbn [andb].
  replace (_ || _) with true; [reflexivity|]. symmetry.
  destruct Hty as [Hht Hha]. unfold is_u64 in *.
  pose proof MIN_BUDGET_range as HMBr.
  destruct (Z.leb_spec new_budget (rAmount (REFILL_HEAD sc))); [reflexivity|].
  cbn [orb]. apply Z.leb_le.
  set (t := if refill_ready ns sc then ksCurTime ns else rTime (REFILL_HEAD sc)).
  assert (Ht : 0 <= t /\ t + new_period < modulus).
  { unfold t. destruct (refill_ready ns sc); lia. }
  rewrite (wsub_small new_budget) by lia.
  rewrite (wadd_small t new_period) by lia.
  rewrite wadd_small, wsub_small by lia. lia.
Qed.

(** X17.  In the debug build [refill_update] stops at its first statement,
    [REFILL_INDEX (sc, 0) = REFILL_HEAD (sc)], when the head of the queue
    is not in slot 0 and the queue does not wrap around the end of the
    buffer: [refill_index] asserts [index_valid (sc, 0)], and slot 0 is not
    in use. *)
Theorem refill_update_dbg_slot_0 (ns : node_state) (sc : sched_context_t)
        (new_period new_budget new_max_refills : Z) :
  ring_wf sc ->
  0 < scRefillHead sc ->
  scRefillHead sc + scRefillCount sc <= scRefillMax sc ->
  index_valid sc 0 = false
  /\ refill_update_dbg ns sc new_period new_budget new_max_refills = None.
Proof.
  intros Hwf Hh0 Hcont. pose proof Hwf as (Hm & Hh & Hc).
  assert (Hv : index_valid sc 0 = false).
  { unfold index_valid.
    rewrite (wadd_small (scRefillHead sc) (scRefillCount sc)) by lia.
    destr_cmp; lia. }
  split; [exact Hv|].
  unfold refill_update_dbg.
  rewrite bind_assert by (apply ltb_true; lia).
  unfold refill_index_dbg.
  destruct (refill_empty sc); [reflexivity|]. cbn [negb assert bind].
  rewrite bind_assert by (apply ltb_true; lia).
  rewrite index_valid_dbg_ok, Hv by auto. reflexivity.
Qed.

(** ** [refill_budget_check] in the debug build *)

Lemma refill_budget_check_charge_eq (ns : node_state) (sc : sched_context_t)
      (usage : Z) :
  refill_budget_check ns sc usage
  = schedule_used (fst (refill_budget_check_charge ns sc usage))
                  (snd (refill_budget_check_charge ns sc usage)).
Proof.
  unfold refill_budget_check, refill_budget_check_charge; cbn zeta.
  destr_if; reflexivity.
Qed.

Lemma refill_budget_check_charge_refills (ns : node_state) (sc : sched_context_t)
      (usage : Z) :
  ring_wf sc -> 1 <= scRefillCount sc ->
  let c := refill_budget_check_charge ns sc usage in
  let qc := q_budget_check_charge ns (scPeriod sc) (scBudget sc) (refills sc) usage in
  ring_wf (fst c) /\ refills (fst c) = fst qc /\ snd c = snd qc.
Proof.
  intros Hwf Hc1 c qc. pose proof Hwf as (Hm & Hh & Hc). subst c qc.
  assert (Hpop : ring_wf (snd (refill_pop_head sc))) by (apply ring_wf_pop_head; auto).
  assert (Hpopq : refills (snd (refill_pop_head sc)) = tl (refills sc))
    by (apply refills_pop_head; lia).
  unfold refill_budget_check_charge, q_budget_check_charge, refill_ready; cbn zeta.
  rewrite <- (REFILL_HEAD_refills sc) by auto.
  destruct (negb _ || _) eqn:Hover; cbn [fst snd].
  - split; [unfold ring_wf; sc_simpl; lia|].
    split; [|reflexivity]. now rewrite refills_empty by (sc_simpl; lia).
  - destruct (usage =? rAmount (REFILL_HEAD sc)) eqn:Hexact; cbn [fst snd].
    + auto.
    + destruct (MIN_BUDGET <=? wsub (rAmount (REFILL_HEAD sc)) usage) eqn:Hrem;
        cbn [fst snd].
      * split; [exact Hwf|]. split; [|reflexivity]. sc_simpl.
        etransitivity.
        { apply (refills_set_rTime_head
                   (set_rAmount sc (scRefillHead sc) (wsub (rAmount (REFILL_HEAD sc)) usage))
                   (fun t => wadd (rTime t) usage)); auto. }
        etransitivity.
        { apply f_equal.
          apply (refills_set_rAmount_head sc
                   (fun t => wsub (rAmount t) usage)); auto. }
        rewrite map_head_map_head. rewrite (REFILL_HEAD_refills sc) by auto.
        destruct (refills sc); reflexivity.
      * unfold refill_empty.
        assert (Hcp : scRefillCount (snd (refill_pop_head sc)) = scRefillCount sc - 1).
        { unfold refill_pop_head; sc_simpl. apply wsub_small. lia. }
        destruct (Z.eqb_spec (scRefillCount (snd (refill_pop_head sc))) 0) as [E|E];
          cbn [fst snd].
        -- split; [exact Hpop|]. rewrite <- Hpopq.
           rewrite refills_empty by lia. auto.
        -- split; [exact Hpop|]. rewrite <- Hpopq.
           destruct (refills (snd (refill_pop_head sc))) as [|n q'] eqn:Eq.
           { apply refills_nil_iff in Eq; lia. }
           rewrite <- Eq. cbn [fst snd]. split; [|reflexivity].
           set (sc1 := snd (refill_pop_head sc)) in *.
           etransitivity.
           { apply (refills_set_rAmount_head
                      (set_rTime sc1 (scRefillHead sc1)
                         (wsub (rTime (REFILL_HEAD sc1)) (wsub (rAmount (REFILL_HEAD sc)) usage)))
                      (fun t => wadd (rAmount t) (wsub (rAmount (REFILL_HEAD sc)) usage)));
               auto. sc_simpl. lia. }
           etransitivity.
           { apply f_equal.
             apply (refills_set_rTime_head sc1
                      (fun t => wsub (rTime t) (wsub (rAmount (REFILL_HEAD sc)) usage)));
               auto. lia. }
           now rewrite map_head_map_head.
Qed.

(** On a queue that has the invariants, what [refill_budget_check] hands
    to [schedule_used] is what [schedule_used] asserts: a refill of at
    least [MIN_BUDGET] for an empty queue, and otherwise a refill that
    starts when the tail has ended. *)
Lemma q_budget_check_charge_asserts (ns : node_state) (period budget : Z)
      (q : list refill_t) (usage : Z) :
  q_inv period budget q ->
  is_u64 period -> is_u64 usage ->
  rTime (q_head q) + period + rAmount (q_head q) < modulus ->
  let qc := q_budget_check_charge ns period budget q usage in
  match fst qc with
  | [] => MIN_BUDGET <= rAmount (snd qc)
  | _ :: _ =>
      wadd (rTime (q_tail (fst qc))) (rAmount (q_tail (fst qc))) <= rTime (snd qc)
  end.
Proof.
  intros Hinv Hp Hu Hrep qc. subst qc.
  pose proof MIN_BUDGET_range as HMBr.
  pose proof (q_inv_head_le_end _ _ _ Hinv) as [Hspan Hbp].
  pose proof (q_inv_head _ _ _ Hinv) as [_ Hhb].
  pose proof (q_chain_ends q (qi_typed _ _ _ Hinv) (qi_chain _ _ _ Hinv)
                (qi_end _ _ _ Hinv)) as Hends.
  destruct Hinv as [Hne Ht Hc Hm Htot Hw He].
  destruct q as [|h b]; [contradiction|]. clear Hne.
  cbn [q_head hd] in *.
  inversion Ht as [|? ? [Hh1 Hh2] Htb]; subst.
  inversion Hm as [|? ? Hmh Hmb]; subst.
  inversion Hends as [|? ? Heh Heb]; subst.
  pose proof (q_total_nonneg b Htb) as Hnnb.
  cbn [q_total] in *.
  unfold q_budget_check_charge; cbn zeta. cbn [q_head hd tl rTime rAmount].
  destruct (negb _ || _) eqn:Hover; cbn [fst snd rAmount]; [lia|].
  apply orb_false_elim in Hover as [_ Hle]. apply Z.ltb_ge in Hle.
  rewrite (wadd_small (rTime h) period) by fields.
  destruct (Z.eqb_spec usage (rAmount h)) as [Hex|Hnex]; cbn [fst snd rTime rAmount].
  - destruct b as [|n b']; [lia|].
    rewrite q_tail_cons in Hw, He by discriminate.
    assert (Htl : refill_typed (q_tail (n :: b'))).
    { destruct (q_nonempty_last (n :: b')) as (p & t & E); [discriminate|].
      rewrite E, q_tail_snoc. rewrite E in Htb. now apply Forall_snoc_inv in Htb. }
    rewrite wadd_small by fields. fields.
  - rewrite (wsub_small (rAmount h) usage) by fields.
    destruct (Z.leb_spec MIN_BUDGET (rAmount h - usage)) as [Hrem|Hrem];
      cbn [fst snd map_head rTime rAmount].
    + rewrite (wadd_small (rTime h) usage) by fields.
      destruct b as [|n b'].
      * cbn [q_tail last rTime rAmount]. rewrite wadd_small by fields. fields.
      * rewrite q_tail_cons in Hw, He by discriminate.
        rewrite q_tail_cons by discriminate.
        assert (Htl : refill_typed (q_tail (n :: b'))).
        { destruct (q_nonempty_last (n :: b')) as (p & t & E); [discriminate|].
          rewrite E, q_tail_snoc. rewrite E in Htb. now apply Forall_snoc_inv in Htb. }
        rewrite wadd_small by fields. fields.
    + destruct b as [|n b']; cbn [fst snd map_head rTime rAmount].
      * rewrite wadd_small by fields. fields.
      * pose proof (q_chain_second _ _ _ Hc) as H2.
        inversion Htb as [|? ? [Hn1 Hn2] Htb']; subst.
        inversion Heb as [|? ? Hen Heb']; subst.
        rewrite q_tail_cons in Hw, He by discriminate.
        destruct b' as [|m b''].
        -- cbn [q_tail last rTime rAmount] in *.
           rewrite wsub_small, (wadd_small (rAmount n)) by fields.
           rewrite wadd_small by fields. fields.
        -- rewrite q_tail_cons in Hw, He by discriminate.
           rewrite q_tail_cons by discriminate.
           assert (Htl : refill_typed (q_tail (m :: b''))).
           { destruct (q_nonempty_last (m :: b'')) as (p & t & E); [discriminate|].
             rewrite E, q_tail_snoc. rewrite E in Htb'.
             now apply Forall_snoc_inv in Htb'. }
           rewrite wadd_small by fields. fields.
Qed.

Lemma refill_budget_check_charge_asserts (ns : node_state) (sc : sched_context_t)
      (usage : Z) :
  sc_wf sc -> universal_invariants sc -> no_overflow sc ->
  is_u64 usage ->
  rTime (REFILL_HEAD sc) + scPeriod sc + rAmount (REFILL_HEAD sc) < modulus ->
  schedule_used_asserts (fst (refill_budget_check_charge ns sc usage))
                        (snd (refill_budget_check_charge ns sc usage)) = true.
Proof.
  intros Hwf Hinv Hno Hu Hrep.
  pose proof (sc_wf_ring sc Hwf) as Hr.
  pose proof (sc_q_inv sc Hwf Hinv Hno) as Hq.
  assert (Hc1 : 1 <= scRefillCount sc) by apply Hinv.
  destruct (refill_budget_check_charge_refills ns sc usage Hr Hc1) as (Hr' & Hl & Hu').
  rewrite REFILL_HEAD_refills in Hrep by auto.
  pose proof (q_budget_check_charge_asserts ns (scPeriod sc) (scBudget sc)
                (refills sc) usage Hq (wf_period sc Hwf) Hu Hrep) as Ha.
  cbn zeta in Ha. rewrite <- Hl, <- Hu' in Ha.
  unfold schedule_used_asserts, refill_empty.
  set (c := refill_budget_check_charge ns sc usage) in *.
  pose proof Hr' as (_ & _ & Hcc).
  destruct (refills (fst c)) as [|r q'] eqn:Eq.
  - apply refills_nil_iff in Eq; [|lia]. rewrite Eq. cbn [Z.eqb]. now apply Z.leb_le.
  - assert (Hc1' : 1 <= scRefillCount (fst c)).
    { rewrite <- (count_length_refills (fst c)) by lia. rewrite Eq. cbn [length]. lia. }
    destruct (Z.eqb_spec (scRefillCount (fst c)) 0); [lia|].
    rewrite REFILL_TAIL_refills, Eq by auto. now apply Z.leb_le.
Qed.

Lemma refill_budget_check_dbg_run (ns : node_state) (sc : sched_context_t)
      (usage : Z) :
  ring_wf sc -> 1 <= scRefillCount sc ->
  isRoundRobin sc = false -> sched_invariants sc = true ->
  let c := refill_budget_check_charge ns sc usage in
  let sc' := refill_budget_check ns sc usage in
  refill_budget_check_dbg ns sc usage
  = if schedule_used_asserts (fst c) (snd c)
    then if (refill_sum sc' =? refill_sum sc) && sched_invariants sc'
         then Some sc' else None
    else None.
Proof.
  intros Hwf Hc1 Hrr Hinv c sc'. pose proof Hwf as (Hm & Hh & Hc).
  destruct (refill_budget_check_charge_refills ns sc usage Hwf Hc1) as (Hwfc & _).
  fold c in Hwfc.
  unfold refill_budget_check_dbg. rewrite Hrr. cbn [negb assert bind].
  rewrite REFILL_SANITY_START_ok by auto. cbn [bind].
  dbg_run.
  assert (Hover : (if negb (refill_ready ns sc) then Some true
                   else Some (rAmount (REFILL_HEAD sc) <? usage))
                  = Some (negb (refill_ready ns sc)
                          || (rAmount (REFILL_HEAD sc) <? usage))).
  { destruct (refill_ready ns sc); reflexivity. }
  rewrite Hover. clear Hover. cbn [bind].
  match goal with
  | |- bind ?m _ = _ => assert (Hcharged : m = Some c)
  end.
  { unfold c, refill_budget_check_charge; cbn zeta.
    assert (Hpop : ring_wf (snd (refill_pop_head sc)))
      by (apply ring_wf_pop_head; auto).
    assert (Hcp : scRefillCount (snd (refill_pop_head sc)) = scRefillCount sc - 1).
    { unfold refill_pop_head; sc_simpl. apply wsub_small. lia. }
    destruct (negb _ || _); [reflexivity|].
    dbg_run.
    destruct (usage =? rAmount (REFILL_HEAD sc)); dbg_run; [reflexivity|].
    destruct (MIN_BUDGET <=? _); dbg_run; [reflexivity|].
    destruct (refill_empty (snd (refill_pop_head sc))) eqn:He; [reflexivity|].
    unfold refill_empty in He. apply Z.eqb_neq in He.
    dbg_run. reflexivity. }
  rewrite Hcharged. clear Hcharged. cbn [bind].
  rewrite schedule_used_dbg_ok by auto.
  destruct (schedule_used_asserts (fst c) (snd c)); [|reflexivity]. cbn [bind].
  unfold sc'. rewrite (refill_budget_check_charge_eq ns sc usage). fold c.
  rewrite REFILL_SANITY_CHECK_ok by now apply schedule_used_ring_wf.
  destruct (_ && _); reflexivity.
Qed.

Lemma sum_to_budget (sc : sched_context_t) :
  universal_invariants sc -> refill_sum sc = scBudget sc.
Proof.
  intros (_ & _ & H & _). unfold refill_sum_to_budget in H. now apply Z.eqb_eq.
Qed.

(** X18.  In the debug build [refill_budget_check] runs to its end without
    a failed assertion, and leaves the scheduling context that the release
    build leaves, on a well-formed scheduling context that is not
    round-robin and passes [sched_invariants], for every usage, provided
    the 64-bit arithmetic does not overflow: this covers the checks of
    every access to the buffer, the assertion of [schedule_used] on what
    it is given, and [REFILL_SANITY_START] and [REFILL_SANITY_END]. *)
Theorem refill_budget_check_dbg_ok (ns : node_state) (sc : sched_context_t)
        (usage : Z) :
  sc_wf sc ->
  isRoundRobin sc = false ->
  sched_invariants sc = true ->
  no_overflow sc ->
  is_u64 usage ->
  rTime (REFILL_HEAD sc) + scPeriod sc + rAmount (REFILL_HEAD sc) < modulus ->
  refill_budget_check_dbg ns sc usage = Some (refill_budget_check ns sc usage).
Proof.
  intros Hwf Hrr Hsi Hno Hu Hrep.
  pose proof (sc_wf_ring sc Hwf) as Hr.
  destruct (sched_invariants_universal sc) as [Hinv Hmsb]; auto;
    try apply (wf_count sc Hwf).
  assert (Hc1 : 1 <= scRefillCount sc) by apply Hinv.
  pose proof (refill_budget_check_universal ns sc usage Hwf Hinv Hno Hu Hrep) as Hinv'.
  destruct (refill_budget_check_frame ns sc usage Hr Hc1) as (_ & _ & Fb & _).
  rewrite refill_budget_check_dbg_run by auto. cbn zeta.
  rewrite refill_budget_check_charge_asserts by auto.
  rewrite (sum_to_budget _ Hinv'), (sum_to_budget _ Hinv), Fb, Z.eqb_refl.
  rewrite universal_sched_invariants; [reflexivity|exact Hinv'|now rewrite Fb].
Qed.

(** ** [refill_unblock_check] in the debug build *)

Lemma refill_unblock_merge_dbg_ok (ns : node_state) :
  forall (bound : nat) (sc : sched_context_t),
    ring_wf sc -> 1 <= scRefillCount sc ->
    refill_unblock_merge_dbg ns bound sc = Some (refill_unblock_merge ns bound sc).
Proof.
  induction bound as [|bound IH]; intros sc Hwf Hc1; [reflexivity|].
  pose proof Hwf as (Hm & Hh & Hc).
  cbn [refill_unblock_merge_dbg refill_unblock_merge]. unfold refill_size.
  destruct (Z.ltb_spec 1 (scRefillCount sc)) as [Hc2|]; [|reflexivity].
  dbg_run.
  destruct (_ <=? _); [|reflexivity].
  assert (Hpop : ring_wf (snd (refill_pop_head sc)))
    by (apply ring_wf_pop_head; auto).
  assert (Hcp : scRefillCount (snd (refill_pop_head sc)) = scRefillCount sc - 1).
  { unfold refill_pop_head; sc_simpl. apply wsub_small. lia. }
  dbg_run. apply IH; [exact Hpop|sc_simpl; lia].
Qed.

Lemma min_budget_head (sc : sched_context_t) :
  1 <= scRefillCount sc -> refill_at_least_min_budget sc = true ->
  MIN_BUDGET <= rAmount (REFILL_HEAD sc).
Proof.
  intros Hc1 H. rewrite refill_at_least_min_budget_refills in H.
  apply q_at_least_min_budget_Forall in H.
  rewrite REFILL_HEAD_refills by auto.
  rewrite refills_unfold in * by auto. now inversion H.
Qed.

Lemma unblock_check_nonempty (ns : node_state) (sc : sched_context_t) :
  ring_wf sc -> 1 <= scRefillCount sc ->
  1 <= scRefillCount (snd (refill_unblock_check ns sc)).
Proof.
  intros Hwf Hc1.
  destruct (isRoundRobin sc) eqn:Hrr.
  { unfold refill_unblock_check. now rewrite Hrr. }
  destruct (refill_ready ns sc) eqn:Hready.
  - now apply unblock_check_head.
  - unfold refill_unblock_check. now rewrite Hrr, Hready.
Qed.

Lemma refill_unblock_check_dbg_run (ns : node_state) (sc : sched_context_t) :
  ring_wf sc -> 1 <= scRefillCount sc ->
  isRoundRobin sc = false -> sched_invariants sc = true ->
  let ns' := fst (refill_unblock_check ns sc) in
  let sc' := snd (refill_unblock_check ns sc) in
  refill_unblock_check_dbg ns sc
  = if (negb (refill_ready ns sc)
        || (refill_ready ns' sc' && refill_sufficient sc' 0))
       && (refill_sum sc' =? refill_sum sc) && sched_invariants sc'
    then Some (ns', sc') else None.
Proof.
  intros Hwf Hc1 Hrr Hinv. cbn zeta. pose proof Hwf as (Hm & Hh & Hc).
  destruct (refill_unblock_check_refills ns sc Hwf Hc1) as (_ & Hwf' & _).
  pose proof (unblock_check_nonempty ns sc Hwf Hc1) as Hc1'.
  unfold refill_unblock_check_dbg. rewrite Hrr.
  rewrite REFILL_SANITY_START_ok by auto. cbn [bind].
  dbg_run.
  unfold refill_unblock_check in *. rewrite Hrr in *.
  destruct (refill_ready ns sc); cbn [fst snd negb orb andb] in *.
  - rewrite refill_unblock_merge_dbg_ok by (auto; sc_simpl; lia). cbn [bind].
    dbg_run.
    destruct (refill_ready _ _); cbn [assert bind andb]; [|reflexivity].
    destruct (refill_sufficient _ 0); cbn [assert bind andb]; [|reflexivity].
    rewrite REFILL_SANITY_CHECK_ok by exact Hwf'.
    destruct (_ && _); reflexivity.
  - cbn [bind snd]. rewrite REFILL_SANITY_CHECK_ok by exact Hwf.
    destruct (_ && _); reflexivity.
Qed.

(** X19.  In the debug build [refill_unblock_check] runs to its end
    without a failed assertion, and gives the node state and the
    scheduling context that the release build gives, on a well-formed
    scheduling context that passes [sched_invariants] (or is
    round-robin), provided the 64-bit arithmetic does not overflow: this
    covers the checks of every access to the buffer in the merging loop,
    the assertions [refill_ready (sc)] and [refill_sufficient (sc, 0)]
    that follow it, and [REFILL_SANITY_START] and [REFILL_SANITY_END]. *)
Theorem refill_unblock_check_dbg_ok (ns : node_state) (sc : sched_context_t) :
  sc_wf sc ->
  isRoundRobin sc = true \/ sched_invariants sc = true ->
  no_overflow sc ->
  0 <= ksCurTime ns + getKernelWcetTicks ->
  ksCurTime ns + getKernelWcetTicks + scBudget sc < modulus ->
  refill_unblock_check_dbg ns sc = Some (refill_unblock_check ns sc).
Proof.
  intros Hwf Hcase Hno Ht0 Htb.
  destruct (isRoundRobin sc) eqn:Hrr.
  { unfold refill_unblock_check_dbg, refill_unblock_check. now rewrite Hrr. }
  destruct Hcase as [|Hsi]; [discriminate|].
  pose proof (sc_wf_ring sc Hwf) as Hr.
  destruct (sched_invariants_universal sc) as [Hinv Hmsb]; auto;
    try apply (wf_count sc Hwf).
  assert (Hc1 : 1 <= scRefillCount sc) by apply Hinv.
  destruct (refill_unblock_check_invariants ns sc Hwf Hinv Hno Ht0 Htb) as [Hinv' _].
  pose proof (sc_wf_unblock_check ns sc Hwf Hc1) as Hwf'.
  destruct (refill_unblock_check_refills ns sc Hr Hc1) as (_ & _ & _ & Fb & _).
  rewrite refill_unblock_check_dbg_run by auto. cbn zeta.
  rewrite (sum_to_budget _ Hinv'), (sum_to_budget _ Hinv), Fb, Z.eqb_refl.
  rewrite universal_sched_invariants; [|exact Hinv'|now rewrite Fb].
  rewrite !andb_true_r.
  replace (_ || _) with true; [now destruct (refill_unblock_check ns sc)|].
  symmetry. destruct (refill_ready ns sc) eqn:Hready; [|reflexivity]. cbn [negb orb].
  destruct (unblock_check_head ns sc Hr Hc1 Hrr Hready) as (Hc1' & Hh' & _).
  apply andb_true_intro. split.
  - unfold refill_ready. rewrite Hh'.
    replace (ksCurTime (fst (refill_unblock_check ns sc))) with (ksCurTime ns).
    + apply Z.leb_refl.
    + unfold refill_unblock_check. destr_if; reflexivity.
  - rewrite refill_sufficient_0.
    + apply Z.leb_le. apply min_budget_head; [exact Hc1'|apply Hinv'].
    + apply (wf_slots _ Hwf').
Qed.

(** ** The assertions have no effect on the state *)

Lemma bind_Some {A B : Type} (m : option A) (k : A -> option B) (b : B) :
  bind m k = Some b -> exists a, m = Some a /\ k a = Some b.
Proof. destruct m as [a|]; [eauto|discriminate]. Qed.

Ltac inv_dbg :=
  repeat match goal with
    | H : bind _ _ = Some _ |- _ =>
        let a := fresh "a" in
        let E := fresh "E" in
        apply bind_Some in H as (a & E & H)
    | H : Some _ = Some _ |- _ => injection H as H
    | H : None = Some _ |- _ => discriminate H
    | H : true = false |- _ => discriminate H
    | H : false = true |- _ => discriminate H
    | H : assert _ = Some _ |- _ => clear H
    end.

Lemma refill_index_dbg_inv (sc : sched_context_t) (index i : Z) :
  refill_index_dbg sc index = Some i -> i = index.
Proof. unfold refill_index_dbg. intros H. inv_dbg. now subst. Qed.

Lemma refill_tail_index_dbg_inv (sc : sched_context_t) (i : Z) :
  refill_tail_index_dbg sc = Some i -> i = refill_tail_index sc.
Proof. unfold refill_tail_index_dbg. cbn zeta. intros H. inv_dbg. now subst. Qed.

Lemma REFILL_HEAD_ref_inv (sc : sched_context_t) (i : Z) :
  REFILL_HEAD_ref sc = Some i -> i = scRefillHead sc.
Proof. apply refill_index_dbg_inv. Qed.

Lemma REFILL_TAIL_ref_inv (sc : sched_context_t) (i : Z) :
  REFILL_TAIL_ref sc = Some i -> i = refill_tail_index sc.
Proof.
  unfold REFILL_TAIL_ref. intros H. inv_dbg.
  apply refill_index_dbg_inv in H. apply refill_tail_index_dbg_inv in E. congruence.
Qed.

Lemma REFILL_INDEX_dbg_inv (sc : sched_context_t) (index : Z) (r : refill_t) :
  REFILL_INDEX_dbg sc index = Some r -> r = REFILL_INDEX sc index.
Proof.
  unfold REFILL_INDEX_dbg. intros H. inv_dbg.
  apply refill_index_dbg_inv in E. now subst.
Qed.

Lemma REFILL_HEAD_dbg_inv (sc : sched_context_t) (r : refill_t) :
  REFILL_HEAD_dbg sc = Some r -> r = REFILL_HEAD sc.
Proof.
  unfold REFILL_HEAD_dbg. intros H. inv_dbg.
  apply REFILL_HEAD_ref_inv in E. now subst.
Qed.

Lemma REFILL_TAIL_dbg_inv (sc : sched_context_t) (r : refill_t) :
  REFILL_TAIL_dbg sc = Some r -> r = REFILL_TAIL sc.
Proof.
  unfold REFILL_TAIL_dbg. intros H. inv_dbg.
  apply REFILL_TAIL_ref_inv in E. now subst.
Qed.

Lemma refill_ready_dbg_inv (ns : node_state) (sc : sched_context_t) (b : bool) :
  refill_ready_dbg ns sc = Some b -> b = refill_ready ns sc.
Proof.
  unfold refill_ready_dbg. intros H. inv_dbg.
  apply REFILL_HEAD_dbg_inv in E0. now subst.
Qed.

Lemma refill_pop_head_dbg_inv (sc : sched_context_t) (p : refill_t * sched_context_t) :
  refill_pop_head_dbg sc = Some p -> p = refill_pop_head sc.
Proof.
  unfold refill_pop_head_dbg. cbn zeta. intros H. inv_dbg.
  apply REFILL_HEAD_dbg_inv in E0. now subst.
Qed.

Lemma refill_add_tail_dbg_inv (sc s : sched_context_t) (r : refill_t) :
  refill_add_tail_dbg sc r = Some s -> s = refill_add_tail sc r.
Proof.
  unfold refill_add_tail_dbg. cbn zeta. intros H. inv_dbg.
  apply REFILL_TAIL_ref_inv in E0. now subst.
Qed.

(** Replace what the accesses of the debug build return by what the
    release build reads. *)
Ltac inv_access :=
  repeat match goal with
    | H : REFILL_HEAD_ref _ = Some _ |- _ => apply REFILL_HEAD_ref_inv in H; subst
    | H : REFILL_TAIL_ref _ = Some _ |- _ => apply REFILL_TAIL_ref_inv in H; subst
    | H : REFILL_HEAD_dbg _ = Some _ |- _ => apply REFILL_HEAD_dbg_inv in H; subst
    | H : REFILL_TAIL_dbg _ = Some _ |- _ => apply REFILL_TAIL_dbg_inv in H; subst
    | H : REFILL_INDEX_dbg _ _ = Some _ |- _ => apply REFILL_INDEX_dbg_inv in H; subst
    | H : refill_index_dbg _ _ = Some _ |- _ => apply refill_index_dbg_inv in H; subst
    | H : refill_ready_dbg _ _ = Some _ |- _ => apply refill_ready_dbg_inv in H; subst
    | H : refill_pop_head_dbg _ = Some _ |- _ => apply refill_pop_head_dbg_inv in H; subst
    | H : refill_add_tail_dbg _ _ = Some _ |- _ => apply refill_add_tail_dbg_inv in H; subst
    end.

Ltac inv_run :=
  repeat (progress (inv_dbg; inv_access; subst; cbv beta iota in * )).

Lemma schedule_used_dbg_inv (sc s : sched_context_t) (new : refill_t) :
  schedule_used_dbg sc new = Some s -> s = schedule_used sc new.
Proof.
  unfold schedule_used_dbg, schedule_used. intros H. inv_run.
  destruct (refill_empty sc).
  - now inv_run.
  - inv_run.
    destruct (rAmount new <? MIN_BUDGET); destruct (refill_full sc);
      cbn [negb andb orb] in *; inv_run; try reflexivity.
    destruct (wmul 2 MIN_BUDGET <=? _); inv_run; reflexivity.
Qed.

Lemma refill_unblock_merge_dbg_inv (ns : node_state) :
  forall (bound : nat) (sc s : sched_context_t),
    refill_unblock_merge_dbg ns bound sc = Some s ->
    s = refill_unblock_merge ns bound sc.
Proof.
  induction bound as [|bound IH]; intros sc s H;
    cbn [refill_unblock_merge_dbg refill_unblock_merge] in *.
  - now inv_dbg.
  - destruct (1 <? refill_size sc); [|now inv_dbg].
    inv_dbg. inv_access.
    destruct (_ <=? _); [|now inv_dbg].
    inv_dbg. inv_access. now apply IH.
Qed.

Ltac refine_run :=
  repeat (progress (inv_run;
                    repeat match goal with
                      | H : schedule_used_dbg _ _ = Some _ |- _ =>
                          apply schedule_used_dbg_inv in H; subst
                      | H : refill_unblock_merge_dbg _ _ _ = Some _ |- _ =>
                          apply refill_unblock_merge_dbg_inv in H; subst
                      end;
                    cbn [orb andb negb fst snd] in *;
                    try match goal with
                      | H : (if ?c then _ else _) = Some _ |- _ => destruct c eqn:?
                      end)).

Ltac refine_close :=
  cbv beta iota; cbn [orb andb negb fst snd];
  repeat match goal with
    | Hc : ?c = ?b |- context [if ?c then _ else _] =>
        rewrite Hc; cbv beta iota; cbn [orb andb negb fst snd]
    end;
  try reflexivity.

(** X20.  The assertions and the sanity checks of the debug build have no
    effect on the scheduling context: whenever an operation of the debug
    build runs to its end, it leaves what the release build leaves.  This
    holds of [refill_new], [refill_update], [refill_budget_check] and
    [refill_unblock_check], for every scheduling context and argument. *)
Theorem debug_refines_release (ns : node_state) (sc : sched_context_t) :
  (forall max_refills budget period sc',
      refill_new_dbg ns sc max_refills budget period = Some sc' ->
      sc' = refill_new ns sc max_refills budget period)
  /\ (forall new_period new_budget new_max_refills sc',
         refill_update_dbg ns sc new_period new_budget new_max_refills = Some sc' ->
         sc' = refill_update ns sc new_period new_budget new_max_refills)
  /\ (forall usage sc',
         refill_budget_check_dbg ns sc usage = Some sc' ->
         sc' = refill_budget_check ns sc usage)
  /\ (forall result,
         refill_unblock_check_dbg ns sc = Some result ->
         result = refill_unblock_check ns sc).
Proof.
  split; [|split; [|split]].
  - intros max_refills budget period sc' H.
    unfold refill_new_dbg in H; cbn zeta in H. refine_run; refine_close.
  - intros new_period new_budget new_max_refills sc' H.
    unfold refill_update_dbg in H; cbn zeta in H.
    unfold refill_update; cbn zeta. refine_run; refine_close.
  - intros usage sc' H.
    unfold refill_budget_check_dbg in H; cbn zeta in H.
    unfold refill_budget_check; cbn zeta. refine_run; refine_close.
  - intros result H.
    unfold refill_unblock_check_dbg in H; cbn zeta in H.
    unfold refill_unblock_check; cbn zeta. refine_run; refine_close.
Qed.

(** ** The invariants along every run *)

Lemma refill_new_sc_wf (ns : node_state) (sc : sched_context_t)
      (max_refills budget period : Z) :
  (forall i, refill_typed (scRefills sc i)) ->
  is_u64 (ksCurTime ns) -> is_u64 period -> is_u64 budget ->
  1 <= max_refills -> 2 * max_refills <= modulus ->
  sc_wf (refill_new ns sc max_refills budget period).
Proof.
  intros Hs Hn Hp Hb H1 H2.
  constructor; try (unfold refill_new; sc_simpl; auto; lia).
  unfold refill_new; cbn zeta. typed_slots_tac; auto.
Qed.

Lemma refill_update_sc_wf (ns : node_state) (sc : sched_context_t)
      (new_period new_budget new_max_refills : Z) :
  (forall i, refill_typed (scRefills sc i)) ->
  is_u64 (ksCurTime ns) -> is_u64 new_period -> is_u64 new_budget ->
  1 <= new_max_refills -> 2 * new_max_refills <= modulus ->
  sc_wf (refill_update ns sc new_period new_budget new_max_refills).
Proof.
  intros Hs Hn Hp Hb H1 H2.
  destruct (refill_update_refills ns sc new_period new_budget new_max_refills H1 H2)
    as ((Fm2 & Fh & Fc) & Fp & Fb & Fm & _).
  constructor; rewrite ?Fp, ?Fb; auto.
  unfold refill_update; cbn zeta.
  assert (Hs1 : forall i,
             refill_typed
               (scRefills (set_REFILL_INDEX sc 0 (REFILL_HEAD sc)) i)).
  { apply typed_set_REFILL_INDEX; auto. apply Hs. }
  destr_if; try apply typed_schedule_used; typed_slots_tac; auto.
Qed.

Lemma q_inv_no_overflow (sc : sched_context_t) :
  q_inv (scPeriod sc) (scBudget sc) (refills sc) -> no_overflow sc.
Proof.
  intros [Hne Ht Hc Hm Htot Hw He]. unfold no_overflow.
  now apply q_chain_ends.
Qed.

Lemma refill_budget_check_q_inv (ns : node_state) (sc : sched_context_t) (usage : Z) :
  sc_wf sc ->
  q_inv (scPeriod sc) (scBudget sc) (refills sc) ->
  is_u64 usage ->
  rTime (REFILL_HEAD sc) + scPeriod sc + rAmount (REFILL_HEAD sc) < modulus ->
  rTime (REFILL_HEAD sc) + scPeriod sc + usage + scBudget sc < modulus ->
  q_inv (scPeriod (refill_budget_check ns sc usage))
        (scBudget (refill_budget_check ns sc usage))
        (refills (refill_budget_check ns sc usage)).
Proof.
  intros Hwf Hq Hu Hrep Hrepu.
  pose proof (sc_wf_ring sc Hwf) as Hr.
  assert (Hc1 : 1 <= scRefillCount sc).
  { destruct (Z.eq_dec (scRefillCount sc) 0) as [E|];
      [|destruct Hr as (_ & _ & ?); lia].
    apply refills_nil_iff in E; [|lia]. now destruct (qi_nonempty _ _ _ Hq). }
  destruct (refill_budget_check_frame ns sc usage Hr Hc1) as (Fr & Fp & Fb & Fm).
  pose proof (refill_budget_check_refills ns sc usage Hr Hc1) as Hl.
  pose proof (q_inv_head_le_end _ _ _ Hq) as [_ Hbp].
  pose proof (q_inv_head _ _ _ Hq) as [[Hht _] Hhd].
  pose proof (wf_period sc Hwf) as Hp.
  rewrite REFILL_HEAD_refills in Hrep, Hrepu by auto.
  rewrite Fp, Fb, Hl.
  destruct (negb (rTime (q_head (refills sc)) <=? wadd (ksCurTime ns) getKernelWcetTicks)
            || (rAmount (q_head (refills sc)) <? usage)) eqn:Hover.
  - unfold q_budget_check; cbn zeta. rewrite Hover.
    cbn [rTime rAmount].
    rewrite (wadd_small (rTime (q_head (refills sc)))) by fields.
    rewrite wadd_small by fields.
    apply q_inv_single; fields.
  - apply orb_false_elim in Hover as [Hready Hle].
    apply negb_false_iff in Hready. apply Z.ltb_ge in Hle.
    apply q_budget_check_ok; auto.
    rewrite count_length_refills by lia. apply Hr.
Qed.

Lemma refill_unblock_check_q_inv (ns : node_state) (sc : sched_context_t) :
  sc_wf sc ->
  q_inv (scPeriod sc) (scBudget sc) (refills sc) ->
  0 <= ksCurTime ns + getKernelWcetTicks ->
  ksCurTime ns + getKernelWcetTicks + scBudget sc < modulus ->
  q_inv (scPeriod (snd (refill_unblock_check ns sc)))
        (scBudget (snd (refill_unblock_check ns sc)))
        (refills (snd (refill_unblock_check ns sc))).
Proof.
  intros Hwf Hq Ht0 Htb.
  pose proof (sc_wf_ring sc Hwf) as Hr.
  assert (Hc1 : 1 <= scRefillCount sc).
  { destruct (Z.eq_dec (scRefillCount sc) 0) as [E|];
      [|destruct Hr as (_ & _ & ?); lia].
    apply refills_nil_iff in E; [|lia]. now destruct (qi_nonempty _ _ _ Hq). }
  destruct (refill_unblock_check_refills ns sc Hr Hc1) as (Hl & Fr & Fp & Fb & Fm).
  rewrite Fp, Fb, Hl.
  destruct (isRoundRobin sc); auto.
  unfold refill_ready. rewrite REFILL_HEAD_refills by auto.
  destruct (Z.leb_spec (rTime (q_head (refills sc)))
                       (wadd (ksCurTime ns) getKernelWcetTicks)) as [Hready|]; auto.
  pose proof (q_inv_head_le_end _ _ _ Hq) as [_ Hbp].
  pose proof (q_inv_head _ _ _ Hq) as [Hht Hhd].
  pose proof (wf_budget sc Hwf) as Hb.
  rewrite wadd_small in * by fields.
  destruct Hq as [Hne Hty Hch Hmin Htot Hw He].
  destruct (refills sc) as [|h b]; [contradiction|].
  cbn [q_head hd tl] in *.
  inversion Hty as [|? ? Hh Htyb]; subst. inversion Hmin as [|? ? Hmh Hminb]; subst.
  apply q_unblock_merge_ok; auto; try fields.
  - now apply q_chain_tl in Hch.
  - intros Hb'. rewrite q_tail_cons in Hw, He by auto. fields.
Qed.

Lemma reachable_q_inv :
  2 * MIN_BUDGET < modulus ->
  forall sc, sc_reachable sc ->
             sc_wf sc
             /\ q_inv (scPeriod sc) (scBudget sc) (refills sc)
             /\ MIN_SC_BUDGET <= scBudget sc.
Proof.
  intros HMB. pose proof MIN_BUDGET_range as HMBr.
  assert (HSC : MIN_SC_BUDGET = 2 * MIN_BUDGET).
  { unfold MIN_SC_BUDGET, wmul. apply wrap_small. lia. }
  induction 1 as [ns sc max_refills budget period Hs Hn Hp Hb H1 H2 Hov
                 |ns sc P B M Hreach IH Hn Hp Hb H1 H2 Hov1 Hov2
                 |ns sc usage Hreach IH Hu Hrep Hrepu
                 |ns sc Hreach IH Ht0 Htb].
  - assert (Hbu : is_u64 budget) by (unfold is_u64 in *; lia).
    split; [now apply refill_new_sc_wf|]. split.
    + rewrite refill_new_refills. unfold refill_new; sc_simpl.
      apply q_inv_single; fields.
    + unfold refill_new; sc_simpl. lia.
  - destruct IH as (Hwf & Hq & Hmsb).
    assert (Hbu : is_u64 B) by (unfold is_u64 in *; lia).
    assert (Hc1 : 1 <= scRefillCount sc).
    { destruct (Z.eq_dec (scRefillCount sc) 0) as [E|];
        [|pose proof (wf_count sc Hwf); lia].
      apply refills_nil_iff in E; [|lia]. now destruct (qi_nonempty _ _ _ Hq). }
    pose proof (q_inv_head _ _ _ Hq) as [Hht Hhd].
    rewrite <- REFILL_HEAD_refills in Hht, Hhd by auto.
    destruct (refill_update_refills ns sc P B M H1 H2) as (_ & Fp & Fb & _).
    split; [apply refill_update_sc_wf; auto; apply Hwf|].
    rewrite Fp, Fb. split; [|lia].
    apply refill_update_q_inv; auto; lia.
  - destruct IH as (Hwf & Hq & Hmsb).
    assert (Hc1 : 1 <= scRefillCount sc).
    { destruct (Z.eq_dec (scRefillCount sc) 0) as [E|];
        [|pose proof (wf_count sc Hwf); lia].
      apply refills_nil_iff in E; [|lia]. now destruct (qi_nonempty _ _ _ Hq). }
    destruct (refill_budget_check_frame ns sc usage (sc_wf_ring sc Hwf) Hc1)
      as (_ & _ & Fb & _).
    split; [now apply sc_wf_budget_check|].
    split; [now apply refill_budget_check_q_inv|]. now rewrite Fb.
  - destruct IH as (Hwf & Hq & Hmsb).
    assert (Hc1 : 1 <= scRefillCount sc).
    { destruct (Z.eq_dec (scRefillCount sc) 0) as [E|];
        [|pose proof (wf_count sc Hwf); lia].
      apply refills_nil_iff in E; [|lia]. now destruct (qi_nonempty _ _ _ Hq). }
    destruct (refill_unblock_check_refills ns sc (sc_wf_ring sc Hwf) Hc1)
      as (_ & _ & _ & Fb & _).
    split; [now apply sc_wf_unblock_check|].
    split; [now apply refill_unblock_check_q_inv|]. now rewrite Fb.
Qed.

(** X21.  The invariants hold along every run of the engine: every
    scheduling context that is produced from [refill_new] by any sequence
    of [refill_update], [refill_budget_check] and [refill_unblock_check],
    at any times and for any usages, is well formed, passes all the checks
    of [sched_invariants], has the invariants in unbounded arithmetic as
    well, and has no refill that ends beyond the last representable
    instant.  This holds when [2 * MIN_BUDGET] does not overflow and each
    step is given the arguments that [sc_reachable] asks for:
    [refill_new] and [refill_update] a budget with
    [MIN_SC_BUDGET <= budget <= period], a 64-bit period and a capacity of
    at least 1 and at most [2 ^ 63]; and every step a time, a period and a
    usage for which its 64-bit arithmetic does not overflow. *)
Theorem reachable_invariants (sc : sched_context_t) :
  2 * MIN_BUDGET < modulus ->
  sc_reachable sc ->
  sc_wf sc
  /\ sched_invariants sc = true
  /\ universal_invariants sc
  /\ ideal_invariants sc
  /\ no_overflow sc.
Proof.
  intros HMB Hreach.
  destruct (reachable_q_inv HMB sc Hreach) as (Hwf & Hq & Hmsb).
  pose proof (sc_wf_ring sc Hwf) as Hr.
  pose proof (q_inv_universal sc Hr Hq) as Hu.
  split; [exact Hwf|]. split; [now apply universal_sched_invariants|].
  split; [exact Hu|]. split; [now apply q_inv_ideal|now apply q_inv_no_overflow].
Qed.
End Engine.

(** ** The properties on concrete scheduling contexts *)

(** Numeric side conditions on concrete values. *)
Ltac num := vm_compute; repeat split; try reflexivity; try discriminate.

Ltac typed_slots := apply slots_of_typed; repeat constructor; try num.

Ltac wf_example := constructor; [num | num | num | num | num | typed_slots].

Ltac checks := repeat split; try (vm_compute; reflexivity); try (vm_compute; discriminate).

Lemma ex_fresh_wf : sc_wf ex_fresh.
Proof. wf_example. Defined.

Lemma ex_fresh_invariants : universal_invariants 5 1 ex_fresh.
Proof. unfold universal_invariants. checks. Defined.

Lemma ex_fresh_no_overflow : no_overflow ex_fresh.
Proof.
  unfold no_overflow. change (refills ex_fresh) with [mk_refill 0 100].
  repeat constructor; try num.
Defined.

Lemma ex_three_wf : sc_wf ex_three.
Proof. wf_example. Defined.

Lemma ex_three_invariants : universal_invariants 5 1 ex_three.
Proof. unfold universal_invariants. checks. Defined.

Lemma ex_three_no_overflow : no_overflow ex_three.
Proof.
  unfold no_overflow.
  change (refills ex_three) with [mk_refill 0 40; mk_refill 50 30; mk_refill 90 30].
  repeat constructor; try num.
Defined.

Lemma ex_two_wf : sc_wf ex_two.
Proof. wf_example. Defined.

(** [invariants_preserved] on a charge of 30 ticks at time 20 and on an
    unblock at time 200. *)
Lemma invariants_preserved_witness :
  universal_invariants 5 1 (refill_budget_check 5 1 (mk_ns 20 false) ex_fresh 30)
  /\ universal_invariants 5 1
       (snd (refill_unblock_check 5 ex_not_round_robin (mk_ns 200 false) ex_three)).
Proof.
  split.
  - apply (proj1 (proj2 (proj1 (invariants_preserved 5 1 ex_not_round_robin (mk_ns 20 false)
                           ex_fresh 30 ex_fresh_wf ex_fresh_invariants
                           ex_fresh_no_overflow ltac:(num) ltac:(num) ltac:(num)
                           ltac:(num))))).
  - apply (proj1 (proj2 (proj2 (invariants_preserved 5 1 ex_not_round_robin (mk_ns 200 false)
                           ex_three 0 ex_three_wf ex_three_invariants
                           ex_three_no_overflow ltac:(num) ltac:(num) ltac:(num)
                           ltac:(num))))).
Defined.

(** Without the proviso on overflow the invariants are not preserved: with a
    period of [2^64 - 500], a charge of 30 ticks to the refill
    [(1000, 100)] schedules the used time at [1000 + period = 500], before
    the head [(1030, 70)]. *)
Lemma invariants_preserved_counterexample :
  sc_wf ex_long_period
  /\ universal_invariants 5 1 ex_long_period
  /\ ideal_invariants 5 1 ex_long_period
  /\ refills (refill_budget_check 5 1 (mk_ns 1000 false) ex_long_period 30)
     = [mk_refill 1030 70; mk_refill 500 30]
  /\ ~ universal_invariants 5 1
         (refill_budget_check 5 1 (mk_ns 1000 false) ex_long_period 30)
  /\ ~ ideal_invariants 5 1
         (refill_budget_check 5 1 (mk_ns 1000 false) ex_long_period 30).
Proof.
  split; [wf_example|]. split; [unfold universal_invariants; checks|].
  split.
  { unfold ideal_invariants.
    change (refills ex_long_period) with [mk_refill 1000 100].
    repeat split; try num. repeat constructor; num. }
  split; [vm_compute; reflexivity|].
  split.
  - intros (H & _). vm_compute in H. discriminate.
  - intros (H & _). vm_compute in H. destruct H as [H _]. now apply H.
Qed.

(** [budget_check_overrun] on scenario 5 of the specification, an overrun
    of 60 ticks on a refill of 40. *)
Lemma budget_check_overrun_witness :
  scRefillCount (refill_budget_check 5 1 (mk_ns 200 false) ex_overrun 60) = 1
  /\ refills (refill_budget_check 5 1 (mk_ns 200 false) ex_overrun 60)
     = [mk_refill 660 40].
Proof.
  assert (A1 : ring_bounds ex_overrun) by num.
  assert (A2 : refill_ready 5 (mk_ns 200 false) ex_overrun = false
               \/ rAmount (REFILL_HEAD ex_overrun) < 60)
    by (right; vm_compute; reflexivity).
  pose proof (budget_check_overrun 5 1 (mk_ns 200 false) ex_overrun 60 A1 A2) as H.
  cbv zeta in H. destruct H as (H1 & H2 & _).
  split; [exact H1|exact H2].
Defined.



(** [unblock_check_postconditions] on scenario 6 of the specification. *)
Lemma unblock_check_postconditions_witness :
  refills (snd (refill_unblock_check 5 ex_not_round_robin (mk_ns 200 false) ex_three))
  = [mk_refill 205 100]
  /\ refill_ready 5 (mk_ns 200 false)
       (snd (refill_unblock_check 5 ex_not_round_robin (mk_ns 200 false) ex_three))
     = true
  /\ refill_sufficient 5 1
       (snd (refill_unblock_check 5 ex_not_round_robin (mk_ns 200 false) ex_three)) 0
     = true.
Proof.
  assert (A1 : 1 <= scRefillCount ex_three) by num.
  assert (A2 : refill_at_least_min_budget 5 1 ex_three = true) by num.
  assert (A3 : q_total (refills ex_three) < modulus) by num.
  pose proof (unblock_check_postconditions 5 1 ex_not_round_robin (mk_ns 200 false)
                ex_three ex_three_wf A1 A2 A3) as H.
  cbv zeta in H. destruct H as (H1 & _ & _).
  split; [vm_compute; reflexivity|].
  apply H1. vm_compute. reflexivity.
Defined.

(** A head refill that is not ready is left as it is by
    [refill_unblock_check], and is not ready after the call. *)
Lemma unblock_check_postconditions_counterexample :
  sc_wf ex_future
  /\ universal_invariants 5 1 ex_future
  /\ sc_active ex_future = true
  /\ ex_not_round_robin ex_future = false
  /\ refill_ready 5 (mk_ns 0 false)
       (snd (refill_unblock_check 5 ex_not_round_robin (mk_ns 0 false) ex_future))
     = false.
Proof.
  split; [wf_example|]. unfold universal_invariants. checks.
Qed.

(** [budget_check_zero] on a queue of three refills. *)
Lemma budget_check_zero_witness :
  refills (refill_budget_check 5 1 (mk_ns 0 false) ex_three 0)
  = [mk_refill 0 40; mk_refill 50 30; mk_refill 90 20; mk_refill 990 10]
  /\ universal_invariants 5 1 (refill_budget_check 5 1 (mk_ns 0 false) ex_three 0)
  /\ scRefillHead (refill_budget_check 5 1 (mk_ns 0 false) ex_three 0)
     = scRefillHead ex_three
  /\ REFILL_HEAD (refill_budget_check 5 1 (mk_ns 0 false) ex_three 0)
     = REFILL_HEAD ex_three
  /\ r_end (REFILL_TAIL (refill_budget_check 5 1 (mk_ns 0 false) ex_three 0))
     = 1000
  /\ firstn 2 (refills (refill_budget_check 5 1 (mk_ns 0 false) ex_three 0))
     = [mk_refill 0 40; mk_refill 50 30].
Proof.
  assert (A1 : refill_ready 5 (mk_ns 0 false) ex_three = true) by num.
  assert (A2 : 0 < MIN_BUDGET 5 1) by num.
  assert (A3 : rTime (REFILL_HEAD ex_three) + scPeriod ex_three
               + rAmount (REFILL_HEAD ex_three) < modulus) by num.
  pose proof (budget_check_zero 5 1 (mk_ns 0 false) ex_three
                ex_three_wf ex_three_invariants ex_three_no_overflow A1 A2 A3) as H.
  cbv zeta in H. destruct H as (H1 & H2 & _ & _ & H5 & _ & _ & _ & H9 & H10).
  split; [vm_compute; reflexivity|].
  split; [exact H1|]. split; [exact H2|]. split; [apply H5; num|].
  split; [exact H9|exact H10].
Defined.

(** A charge of 0 ticks is not a no-op: on the fresh scheduling context
    it splits the refill, and on a full queue of two refills, at time
    100, it moves the tail. *)
Lemma budget_check_zero_counterexample :
  sc_wf ex_fresh
  /\ universal_invariants 5 1 ex_fresh
  /\ refill_ready 5 (mk_ns 0 false) ex_fresh = true
  /\ refills (refill_budget_check 5 1 (mk_ns 0 false) ex_fresh 0)
     = [mk_refill 0 90; mk_refill 990 10]
  /\ scRefillCount (refill_budget_check 5 1 (mk_ns 0 false) ex_fresh 0)
     <> scRefillCount ex_fresh
  /\ REFILL_HEAD (refill_budget_check 5 1 (mk_ns 0 false) ex_fresh 0)
     <> REFILL_HEAD ex_fresh
  /\ universal_invariants 5 1 ex_full
  /\ refill_ready 5 (mk_ns 100 false) ex_full = true
  /\ refills ex_full = [mk_refill 95 30; mk_refill 200 30]
  /\ refills (refill_budget_check 5 1 (mk_ns 100 false) ex_full 0)
     = [mk_refill 95 30; mk_refill 665 30].
Proof.
  split; [exact ex_fresh_wf|]. split; [exact ex_fresh_invariants|].
  do 4 (split; [checks|]).
  split; [unfold universal_invariants; checks|]. checks.
Qed.

(** [schedule_used_split]: 5 ticks borrow 5 more from a tail of 30. *)
Lemma schedule_used_split_witness :
  refills (schedule_used 5 1 ex_two (mk_refill 600 5))
  = [mk_refill 95 30; mk_refill 200 25; mk_refill 595 10]
  /\ scRefillCount (schedule_used 5 1 ex_two (mk_refill 600 5)) = 3.
Proof.
  assert (A1 : 1 <= scRefillCount ex_two) by num.
  assert (A2 : refill_typed (mk_refill 600 5)) by num.
  assert (A3 : r_end (REFILL_TAIL ex_two) <= rTime (mk_refill 600 5)) by num.
  assert (A4 : rAmount (mk_refill 600 5) < MIN_BUDGET 5 1) by num.
  assert (A5 : refill_full ex_two = false) by num.
  assert (A6 : 2 * MIN_BUDGET 5 1
               <= rAmount (REFILL_TAIL ex_two) + rAmount (mk_refill 600 5) < modulus)
    by num.
  pose proof (schedule_used_split 5 1 ex_two (mk_refill 600 5) ex_two_wf
                A1 A2 A3 A4 A5 A6) as H.
  cbv zeta in H. destruct H as (H1 & H2 & _).
  split; [exact H1|exact H2].
Defined.

(** The split case fails on overflow.  When the tail ends after the
    largest [ticks_t], the test [new.time >= tail.time + tail.amount]
    holds in 64-bit arithmetic and the two refills overlap after the
    split.  When [tail.amount + new.amount] overflows, the sum is at least
    [2 * MIN_BUDGET] but the 64-bit test fails: the refill is merged into
    the tail, not pushed. *)
Lemma schedule_used_split_counterexample :
  (sc_wf ex_late
   /\ universal_invariants 5 1 ex_late
   /\ wadd (rTime (REFILL_TAIL ex_late)) (rAmount (REFILL_TAIL ex_late)) <= 7
   /\ 5 < MIN_BUDGET 5 1
   /\ refill_full ex_late = false
   /\ wmul 2 (MIN_BUDGET 5 1) <= wadd (rAmount (REFILL_TAIL ex_late)) 5
   /\ refills (schedule_used 5 1 ex_late (mk_refill 7 5))
      = [mk_refill (modulus - 27) 25; mk_refill 2 10]
   /\ refill_ordered_disjoint (schedule_used 5 1 ex_late (mk_refill 7 5)) = false)
  /\ (sc_wf ex_huge_budget
      /\ universal_invariants 5 1 ex_huge_budget
      /\ rTime (REFILL_TAIL ex_huge_budget) + rAmount (REFILL_TAIL ex_huge_budget)
         <= modulus - 3
      /\ 5 < MIN_BUDGET 5 1
      /\ refill_full ex_huge_budget = false
      /\ 2 * MIN_BUDGET 5 1 <= rAmount (REFILL_TAIL ex_huge_budget) + 5
      /\ refills (schedule_used 5 1 ex_huge_budget (mk_refill (modulus - 3) 5))
         = [mk_refill 0 2]).
Proof.
  split.
  - split; [wf_example|]. unfold universal_invariants. checks.
  - split; [wf_example|]. unfold universal_invariants. checks.
Qed.

(** [refill_new_post] on scenario 1 of the specification. *)
Lemma refill_new_post_witness :
  refills (refill_new (mk_ns 0 false) ex_blank 4 100 1000) = [mk_refill 0 100]
  /\ refill_ready 5 (mk_ns 0 false) (refill_new (mk_ns 0 false) ex_blank 4 100 1000)
     = true
  /\ refill_sufficient 5 1 (refill_new (mk_ns 0 false) ex_blank 4 100 1000) 0 = true.
Proof.
  assert (A1 : is_u64 100) by num.
  pose proof (refill_new_post 5 1 (mk_ns 0 false) ex_blank 4 100 1000 A1) as H.
  cbv zeta in H. destruct H as (_ & _ & _ & _ & _ & H6 & _ & H8 & H9).
  split; [exact H6|]. split; [apply H8; num|apply H9; num].
Defined.

(** [refill_ready] fails after [refill_new] when [ksCurTime + wcet]
    overflows: the fresh refill starts at [2^64 - 1], after
    [ksCurTime + wcet = 4]. *)
Lemma refill_new_post_counterexample :
  1 <= 4
  /\ MIN_BUDGET 5 1 < 100
  /\ refills (refill_new (mk_ns (modulus - 1) false) ex_blank 4 100 1000)
     = [mk_refill (modulus - 1) 100]
  /\ refill_ready 5 (mk_ns (modulus - 1) false)
       (refill_new (mk_ns (modulus - 1) false) ex_blank 4 100 1000)
     = false.
Proof. checks. Qed.

(** [refill_capacity_sufficient] on the fresh scheduling context. *)
Lemma refill_capacity_sufficient_witness :
  refill_capacity ex_fresh 30 = 70
  /\ refill_capacity ex_fresh 130 = 0
  /\ refill_sufficient 5 1 ex_fresh 30 = true.
Proof.
  assert (A1 : refill_typed (REFILL_HEAD ex_fresh)) by num.
  assert (A2 : is_u64 30) by num.
  assert (A3 : is_u64 130) by num.
  destruct (refill_capacity_sufficient 5 1 ex_fresh 30 A1 A2) as (H1 & _ & H3).
  destruct (refill_capacity_sufficient 5 1 ex_fresh 130 A1 A3) as (_ & H2 & _).
  split; [exact H1|]. split; [apply H2; num|apply H3; num].
Defined.

(** [loops_terminate] on a queue of three refills. *)
Lemma loops_terminate_witness :
  run_loop 10 (sum_loop_body ex_three) (0, 0, 0) = Some (100, 3%nat)
  /\ (exists pops,
        run_loop 10 (unblock_loop_body 5 (mk_ns 200 false)) ex_three
        = Some (refill_unblock_merge 5 (mk_ns 200 false) 3 ex_three, pops)
        /\ Z.of_nat pops <= 2).
Proof.
  assert (A1 : 1 <= scRefillCount ex_three <= scRefillMax ex_three) by num.
  assert (A2 : is_u64 (scRefillMax ex_three)) by num.
  assert (A3 : (Z.to_nat (scRefillCount ex_three) < 10)%nat) by (vm_compute; lia).
  destruct (loops_terminate 5 1 (mk_ns 200 false) ex_three 10 A1 A2 A3)
    as (_ & (pops & E & Hp & _) & H3 & _).
  split; [exact H3|]. exists pops. split; [exact E|]. apply Hp.
Defined.

(** The loop of [refill_ordered_disjoint] starts at [seen = 1] and runs 0
    times, not [count] times, on a queue of one refill. *)
Lemma loops_terminate_counterexample :
  scRefillCount ex_fresh = 1
  /\ run_loop 10 (ordered_loop_body ex_fresh)
              (scRefillHead ex_fresh, refill_next ex_fresh (scRefillHead ex_fresh), 1)
     = Some (true, 0%nat).
Proof. checks. Qed.

(** [ring_indices_in_range] on a queue of three refills in four slots. *)
Lemma ring_indices_in_range_witness :
  0 <= refill_tail_index ex_three < 4
  /\ scRefillCount (snd (refill_pop_head ex_three)) = 2
  /\ ring_bounds (refill_budget_check 5 1 (mk_ns 0 false) ex_three 25).
Proof.
  assert (A1 : ring_bounds ex_three) by num.
  destruct (ring_indices_in_range 5 1 ex_not_round_robin (mk_ns 0 false) ex_three A1)
    as (_ & H2 & (_ & _ & _ & H3) & _ & _ & H6 & _).
  split; [apply H2; num|]. split; [apply H3; num|apply H6; num].
Defined.

(** ** The further properties on concrete scheduling contexts *)

Lemma ex_two_ring : ring_wf ex_two.
Proof. num. Defined.

Lemma ex_three_ring : ring_wf ex_three.
Proof. num. Defined.

Lemma ex_fresh_ring : ring_wf ex_fresh.
Proof. num. Defined.

Lemma ex_full_ring : ring_wf ex_full.
Proof. num. Defined.

(** [schedule_used_sum_end]: 5 ticks scheduled behind two refills of 30. *)
Lemma schedule_used_sum_end_witness :
  refill_sum (schedule_used 5 1 ex_two (mk_refill 600 5)) = 65
  /\ scRefillCount (schedule_used 5 1 ex_two (mk_refill 600 5)) = 3.
Proof.
  pose proof (schedule_used_sum_end 5 1 ex_two (mk_refill 600 5) ex_two_ring) as H.
  cbv zeta in H. destruct H as (H1 & _ & _ & [H4|H4] & _).
  - exfalso. vm_compute in H4. discriminate.
  - split; [rewrite H1; vm_compute; reflexivity|rewrite H4; reflexivity].
Defined.

(** [schedule_used_merge]: a refill of 50 ticks for a full queue. *)
Lemma schedule_used_merge_witness :
  refills (schedule_used 5 1 ex_full (mk_refill 700 50))
  = [mk_refill 95 30; mk_refill 670 80]
  /\ scRefillCount (schedule_used 5 1 ex_full (mk_refill 700 50)) = 2.
Proof.
  assert (A1 : 1 <= scRefillCount ex_full) by num.
  assert (A2 : refill_full ex_full = true
               \/ (rAmount (mk_refill 700 50) < MIN_BUDGET 5 1
                   /\ wadd (rAmount (REFILL_TAIL ex_full)) (rAmount (mk_refill 700 50))
                      < wmul 2 (MIN_BUDGET 5 1)))
    by (left; vm_compute; reflexivity).
  pose proof (schedule_used_merge 5 1 ex_full (mk_refill 700 50) ex_full_ring A1 A2) as H.
  cbv zeta in H. destruct H as (H1 & _ & H3 & _).
  split; [rewrite H1; vm_compute; reflexivity|rewrite H3; reflexivity].
Defined.

(** [schedule_used_push]: a refill of 50 ticks behind the fresh one. *)
Lemma schedule_used_push_witness :
  refills (schedule_used 5 1 ex_fresh (mk_refill 1000 50))
  = [mk_refill 0 100; mk_refill 1000 50].
Proof.
  assert (A1 : refill_full ex_fresh = false) by num.
  assert (A2 : MIN_BUDGET 5 1 <= rAmount (mk_refill 1000 50)
               \/ scRefillCount ex_fresh = 0) by (left; num).
  pose proof (schedule_used_push 5 1 ex_fresh (mk_refill 1000 50) ex_fresh_ring A1 A2)
    as H.
  cbv zeta in H. destruct H as (H1 & _). exact H1.
Defined.

(** [budget_check_conserves]: 25 ticks charged to three refills. *)
Lemma budget_check_conserves_witness :
  refill_sum (refill_budget_check 5 1 (mk_ns 0 false) ex_three 25) = 100
  /\ wadd (rTime (REFILL_TAIL (refill_budget_check 5 1 (mk_ns 0 false) ex_three 25)))
          (rAmount (REFILL_TAIL (refill_budget_check 5 1 (mk_ns 0 false) ex_three 25)))
     = 1025.
Proof.
  assert (A1 : 1 <= scRefillCount ex_three) by num.
  assert (A2 : refill_ready 5 (mk_ns 0 false) ex_three = true) by num.
  assert (A3 : 25 <= rAmount (REFILL_HEAD ex_three)) by num.
  pose proof (budget_check_conserves 5 1 (mk_ns 0 false) ex_three 25
                ex_three_ring A1 A2 A3) as H.
  cbv zeta in H. destruct H as (H1 & H2 & _).
  split; [rewrite H1|rewrite H2]; vm_compute; reflexivity.
Defined.

(** [unblock_check_conserves]: three refills merged at time 200. *)
Lemma unblock_check_conserves_witness :
  refill_sum (snd (refill_unblock_check 5 ex_not_round_robin (mk_ns 200 false) ex_three))
  = 100
  /\ 1 <= scRefillCount
            (snd (refill_unblock_check 5 ex_not_round_robin (mk_ns 200 false) ex_three))
     <= 3.
Proof.
  assert (A1 : 1 <= scRefillCount ex_three) by num.
  pose proof (unblock_check_conserves 5 ex_not_round_robin (mk_ns 200 false) ex_three
                ex_three_ring A1) as H.
  cbv zeta in H. destruct H as (H1 & H2 & _).
  split; [rewrite H1; vm_compute; reflexivity|exact H2].
Defined.

(** [unblock_check_idempotent]: a second unblock at time 200. *)
Lemma unblock_check_idempotent_witness :
  refills (snd (refill_unblock_check 5 ex_not_round_robin
                  (fst (refill_unblock_check 5 ex_not_round_robin
                          (mk_ns 200 false) ex_three))
                  (snd (refill_unblock_check 5 ex_not_round_robin
                          (mk_ns 200 false) ex_three))))
  = refills (snd (refill_unblock_check 5 ex_not_round_robin (mk_ns 200 false) ex_three)).
Proof.
  assert (A1 : 1 <= scRefillCount ex_three) by num.
  pose proof (unblock_check_idempotent 5 ex_not_round_robin (mk_ns 200 false) ex_three
                ex_three_ring A1) as H.
  cbv zeta in H. destruct H as (_ & _ & _ & _ & _ & _ & _ & _ & H9). exact H9.
Defined.

(** [sufficient_budget_check]: 25 ticks of a head of 40. *)
Lemma sufficient_budget_check_witness :
  refill_sufficient 5 1 (refill_budget_check 5 1 (mk_ns 0 false) ex_three 25) 0 = true
  /\ REFILL_HEAD (refill_budget_check 5 1 (mk_ns 0 false) ex_three 25)
     = mk_refill (wadd 0 25) (40 - 25).
Proof.
  assert (A1 : 1 <= scRefillCount ex_three) by num.
  assert (A2 : refill_typed (REFILL_HEAD ex_three)) by num.
  assert (A3 : is_u64 25) by num.
  assert (A4 : 0 < MIN_BUDGET 5 1) by num.
  assert (A5 : 2 * MIN_BUDGET 5 1 < modulus) by num.
  assert (A6 : refill_ready 5 (mk_ns 0 false) ex_three = true) by num.
  assert (A7 : refill_sufficient 5 1 ex_three 25 = true) by num.
  pose proof (sufficient_budget_check 5 1 (mk_ns 0 false) ex_three 25
                ex_three_ring A1 A2 A3 A4 A5 A6 A7) as H.
  cbv zeta in H. destruct H as (H1 & _ & H3).
  split; [exact H1|]. apply H3. num.
Defined.

(** [refill_capacity_antitone] on the fresh scheduling context. *)
Lemma refill_capacity_antitone_witness :
  refill_capacity ex_fresh 50 <= refill_capacity ex_fresh 30.
Proof.
  assert (A1 : refill_typed (REFILL_HEAD ex_fresh)) by num.
  assert (A2 : 0 <= 30 <= 50) by num.
  destruct (refill_capacity_antitone 5 1 ex_fresh 30 50 A1 A2) as (H1 & _).
  apply H1.
Defined.

(** [ring_fifo]: a third refill behind two. *)
Lemma ring_fifo_witness :
  refills (refill_add_tail ex_two (mk_refill 600 10))
  = [mk_refill 95 30; mk_refill 200 30; mk_refill 600 10]
  /\ fst (refill_pop_head ex_two) = mk_refill 95 30.
Proof.
  destruct (ring_fifo ex_two (mk_refill 600 10) ex_two_ring) as (H1 & H2 & _).
  destruct H1 as (H1 & _); [num|]. destruct H2 as (H2 & _); [num|].
  split; [rewrite H1|rewrite H2]; vm_compute; reflexivity.
Defined.

(** [index_valid_in_use]: the queue of [ex_two] uses slots 1 and 2, and
    slot 3 is accepted as well. *)
Lemma index_valid_in_use_witness :
  index_valid ex_two 2 = true /\ index_valid ex_two 3 = true.
Proof.
  assert (A2 : 0 <= 2 < scRefillMax ex_two) by num.
  assert (A3 : 0 <= 3 < scRefillMax ex_two) by num.
  destruct (index_valid_in_use ex_two 2 ex_two_ring A2) as (H2 & _).
  destruct (index_valid_in_use ex_two 3 ex_two_ring A3) as (H3 & _).
  split.
  - apply H2. left. exists 1. num.
  - apply H3. right. num.
Defined.

(** [refill_absolute_max_fits]: an object of 1024 bytes with a header of
    80 bytes and refills of 16 bytes holds 59 refills. *)
Lemma refill_absolute_max_fits_witness :
  refill_absolute_max unit ex_cap_bits 80 16 tt = 59
  /\ 80 + refill_absolute_max unit ex_cap_bits 80 16 tt * 16 <= 2 ^ 10.
Proof.
  assert (A1 : 0 <= ex_cap_bits tt < 64) by num.
  assert (A2 : 0 < 16) by num.
  assert (A3 : 0 <= 80 <= 2 ^ ex_cap_bits tt) by num.
  pose proof (refill_absolute_max_fits unit ex_cap_bits 80 16 tt A1 A2 A3) as H.
  cbv zeta in H. destruct H as (_ & H2 & _).
  split; [vm_compute; reflexivity|exact H2].
Defined.

(** [refill_new_invariants] on scenario 1 of the specification. *)
Lemma refill_new_invariants_witness :
  sched_invariants 5 1 (refill_new (mk_ns 0 false) ex_blank 4 100 1000) = true.
Proof.
  assert (A1 : is_u64 (ksCurTime (mk_ns 0 false))) by num.
  assert (A2 : is_u64 100) by num.
  assert (A3 : 1 <= 4) by num.
  assert (A4 : 2 * 4 <= modulus) by num.
  pose proof (refill_new_invariants 5 1 (mk_ns 0 false) ex_blank 4 100 1000
                A1 A2 A3 A4) as H.
  cbv zeta in H. destruct H as (_ & H2 & _). apply H2. num.
Defined.

(** [refill_new_dbg_checks] on scenario 1 of the specification. *)
Lemma refill_new_dbg_checks_witness :
  refill_new_dbg 5 1 (mk_ns 0 false) ex_blank 4 100 1000
  = Some (refill_new (mk_ns 0 false) ex_blank 4 100 1000)
  /\ refill_new_dbg 5 1 (mk_ns 0 false) ex_blank 4 15 1000 = None.
Proof.
  assert (A1 : is_u64 (ksCurTime (mk_ns 0 false))) by num.
  assert (A2 : is_u64 100) by num.
  assert (A2' : is_u64 15) by num.
  assert (A3 : 1 <= 4) by num.
  assert (A4 : 2 * 4 <= modulus) by num.
  split.
  - rewrite (refill_new_dbg_checks 5 1 (mk_ns 0 false) ex_blank 4 100 1000 A1 A2 A3 A4).
    reflexivity.
  - rewrite (refill_new_dbg_checks 5 1 (mk_ns 0 false) ex_blank 4 15 1000 A1 A2' A3 A4).
    reflexivity.
Defined.

(** [refill_update_invariants]: a larger budget and period at time 20. *)
Lemma refill_update_invariants_witness :
  sched_invariants 5 1 (refill_update 5 1 (mk_ns 20 false) ex_fresh 2000 200 4) = true
  /\ refill_sum (refill_update 5 1 (mk_ns 20 false) ex_fresh 2000 200 4) = 200.
Proof.
  assert (A1 : refill_typed (REFILL_HEAD ex_fresh)) by num.
  assert (A2 : MIN_BUDGET 5 1 <= rAmount (REFILL_HEAD ex_fresh)) by num.
  assert (A3 : is_u64 (ksCurTime (mk_ns 20 false))) by num.
  assert (A4 : is_u64 2000) by num.
  assert (A5 : MIN_SC_BUDGET 5 1 <= 200 <= 2000) by num.
  assert (A6 : 2 * MIN_BUDGET 5 1 < modulus) by num.
  assert (A7 : 1 <= 4) by num.
  assert (A8 : 2 * 4 <= modulus) by num.
  assert (A9 : ksCurTime (mk_ns 20 false) + 2000 < modulus) by num.
  assert (A10 : rTime (REFILL_HEAD ex_fresh) + 2000 < modulus) by num.
  pose proof (refill_update_invariants 5 1 (mk_ns 20 false) ex_fresh 2000 200 4
                A1 A2 A3 A4 A5 A6 A7 A8 A9 A10) as H.
  cbv zeta in H. destruct H as (H1 & _ & _ & H4 & _).
  split; [exact H1|exact H4].
Defined.

(** [refill_update_dbg_ok]: the same update in the debug build. *)
Lemma refill_update_dbg_ok_witness :
  refill_update_dbg 5 1 (mk_ns 20 false) ex_fresh 2000 200 4
  = Some (refill_update 5 1 (mk_ns 20 false) ex_fresh 2000 200 4).
Proof.
  assert (B1 : 1 <= scRefillCount ex_fresh) by num.
  assert (B2 : index_valid ex_fresh 0 = true) by num.
  assert (A1 : refill_typed (REFILL_HEAD ex_fresh)) by num.
  assert (A2 : MIN_BUDGET 5 1 <= rAmount (REFILL_HEAD ex_fresh)) by num.
  assert (A3 : is_u64 (ksCurTime (mk_ns 20 false))) by num.
  assert (A4 : is_u64 2000) by num.
  assert (A5 : MIN_SC_BUDGET 5 1 <= 200 <= 2000) by num.
  assert (A6 : 2 * MIN_BUDGET 5 1 < modulus) by num.
  assert (A7 : 1 <= 4) by num.
  assert (A8 : 2 * 4 <= modulus) by num.
  assert (A9 : ksCurTime (mk_ns 20 false) + 2000 < modulus) by num.
  assert (A10 : rTime (REFILL_HEAD ex_fresh) + 2000 < modulus) by num.
  exact (refill_update_dbg_ok 5 1 (mk_ns 20 false) ex_fresh 2000 200 4
           ex_fresh_ring B1 B2 A1 A2 A3 A4 A5 A6 A7 A8 A9 A10).
Defined.

(** [refill_update_dbg_slot_0]: the head of [ex_two] is in slot 1. *)
Lemma refill_update_dbg_slot_0_witness :
  refill_update_dbg 5 1 (mk_ns 20 false) ex_two 2000 200 4 = None.
Proof.
  assert (A1 : 0 < scRefillHead ex_two) by num.
  assert (A2 : scRefillHead ex_two + scRefillCount ex_two <= scRefillMax ex_two) by num.
  destruct (refill_update_dbg_slot_0 5 1 (mk_ns 20 false) ex_two 2000 200 4
              ex_two_ring A1 A2) as (_ & H).
  exact H.
Defined.

(** [refill_budget_check_dbg_ok]: 25 ticks charged to three refills. *)
Lemma refill_budget_check_dbg_ok_witness :
  refill_budget_check_dbg 5 1 ex_not_round_robin (mk_ns 0 false) ex_three 25
  = Some (refill_budget_check 5 1 (mk_ns 0 false) ex_three 25).
Proof.
  assert (A1 : ex_not_round_robin ex_three = false) by reflexivity.
  assert (A2 : sched_invariants 5 1 ex_three = true) by num.
  assert (A3 : is_u64 25) by num.
  assert (A4 : rTime (REFILL_HEAD ex_three) + scPeriod ex_three
               + rAmount (REFILL_HEAD ex_three) < modulus) by num.
  exact (refill_budget_check_dbg_ok 5 1 ex_not_round_robin (mk_ns 0 false) ex_three 25
           ex_three_wf A1 A2 ex_three_no_overflow A3 A4).
Defined.

(** [refill_unblock_check_dbg_ok]: three refills merged at time 200. *)
Lemma refill_unblock_check_dbg_ok_witness :
  refill_unblock_check_dbg 5 1 ex_not_round_robin (mk_ns 200 false) ex_three
  = Some (refill_unblock_check 5 ex_not_round_robin (mk_ns 200 false) ex_three).
Proof.
  assert (A1 : ex_not_round_robin ex_three = true
               \/ sched_invariants 5 1 ex_three = true) by (right; num).
  assert (A2 : 0 <= ksCurTime (mk_ns 200 false) + 5) by num.
  assert (A3 : ksCurTime (mk_ns 200 false) + 5 + scBudget ex_three < modulus) by num.
  exact (refill_unblock_check_dbg_ok 5 1 ex_not_round_robin (mk_ns 200 false) ex_three
           ex_three_wf A1 ex_three_no_overflow A2 A3).
Defined.

(** [budget_check_head_later]: after a charge of 25 ticks the head starts
    at time 25. *)
Lemma budget_check_head_later_witness :
  25 <= rTime (REFILL_HEAD (refill_budget_check 5 1 (mk_ns 0 false) ex_three 25)).
Proof.
  assert (A3 : is_u64 25) by num.
  assert (A4 : rTime (REFILL_HEAD ex_three) + scPeriod ex_three
               + rAmount (REFILL_HEAD ex_three) < modulus) by num.
  assert (A5 : rTime (REFILL_HEAD ex_three) + scPeriod ex_three + 25 < modulus) by num.
  exact (budget_check_head_later 5 1 (mk_ns 0 false) ex_three 25
           ex_three_wf ex_three_invariants ex_three_no_overflow A3 A4 A5).
Defined.

(** [debug_refines_release]: [refill_new] of scenario 1 in both builds. *)
Lemma debug_refines_release_witness :
  exists sc',
    refill_new_dbg 5 1 (mk_ns 0 false) ex_blank 4 100 1000 = Some sc'
    /\ sc' = refill_new (mk_ns 0 false) ex_blank 4 100 1000.
Proof.
  assert (A : refill_new_dbg 5 1 (mk_ns 0 false) ex_blank 4 100 1000
              = Some (refill_new (mk_ns 0 false) ex_blank 4 100 1000))
    by (vm_compute; reflexivity).
  exists (refill_new (mk_ns 0 false) ex_blank 4 100 1000).
  split; [exact A|].
  destruct (debug_refines_release 5 1 ex_not_round_robin (mk_ns 0 false) ex_blank)
    as (H & _).
  exact (H 4 100 1000 _ A).
Defined.

(** [reachable_invariants]: a scheduling context created at time 0,
    charged 30 ticks at time 20 and unblocked at time 50. *)
Lemma reachable_invariants_witness :
  sched_invariants 5 1
    (snd (refill_unblock_check 5 ex_not_round_robin (mk_ns 50 false)
            (refill_budget_check 5 1 (mk_ns 20 false) ex_run_new 30)))
  = true.
Proof.
  assert (A0 : 2 * MIN_BUDGET 5 1 < modulus) by num.
  assert (R1 : sc_reachable 5 1 ex_not_round_robin ex_run_new).
  { unfold ex_run_new. apply reach_new; [typed_slots|num..]. }
  assert (R2 : sc_reachable 5 1 ex_not_round_robin
                 (refill_budget_check 5 1 (mk_ns 20 false) ex_run_new 30)).
  { apply reach_budget_check; [exact R1|num..]. }
  assert (R3 : sc_reachable 5 1 ex_not_round_robin
                 (snd (refill_unblock_check 5 ex_not_round_robin (mk_ns 50 false)
                         (refill_budget_check 5 1 (mk_ns 20 false) ex_run_new 30)))).
  { apply reach_unblock_check; [exact R2|num..]. }
  destruct (reachable_invariants 5 1 ex_not_round_robin _ A0 R3) as (_ & H & _).
  exact H.
Defined.
